(** * orbitize: the samplers of [orbitize/sampler.py]

    A shallow embedding of [OFTI.__init__], [OFTI.prepare_samples],
    [OFTI.reject] and [OFTI.run_sampler], and of the constructors,
    [run_sampler] and [_logl] of [PTMCMC] and [EnsembleMCMC].

    - Numbers are float64 values.  The embedding is written once over an
      interface [Arith] of the scalar operations the sampler uses, and
      instantiated with IEEE binary64 ([PrimFloat]) below.
    - numpy arrays are lists: a 1-D array is a [list F], a 2-D array the list
      of its rows.
    - The global [np.random] generator is threaded explicitly; exceptions are
      values of [result].
    - The [while] loop of [run_sampler] has no iteration bound in the source;
      it is modelled with fuel, [None] meaning that the fuel ran out.
    - The generator [sampler.sample(...)] of an MCMC engine is consumed by a
      [for] loop with an empty body; it is modelled by the list of the tuples
      it yields and the exception that ends it, if any. *)

From Stdlib Require Import String.
From Stdlib Require Import List ZArith Bool Lia Arith.
From Stdlib Require Import Floats.
From Stdlib Require Import Sorted.
Import ListNotations.

Set Implicit Arguments.

(** ** Exceptions and the sampler's effects *)

Inductive exn : Type :=
| UnpackError (got : nat)         (* ValueError: a, ..., h = seq with len(seq) <> 8 *)
| ArgminEmpty                     (* ValueError: np.argmin of an empty sequence *)
| StackMismatch                   (* ValueError: np.column_stack of unequal columns *)
| AxisError                       (* np.rollaxis with an axis the array lacks *)
| IndexError (i bound : nat)      (* index i into an axis of size bound *)
| AttributeError (name : string)  (* getattr on a missing name *)
| ScaleNegative.                  (* ValueError: scale < 0, np.random.normal *)

Inductive result (A : Type) : Type :=
| Ok (a : A)
| Error (e : exn).
Arguments Ok {A} a.
Arguments Error {A} e.

Definition rbind {A B} (r : result A) (k : A -> result B) : result B :=
  match r with
  | Ok a => k a
  | Error e => Error e
  end.

(** A computation that may draw from the random generator (state [G]) and
    may raise. *)
Definition M (G A : Type) : Type := G -> result A * G.

Definition ret {G A} (a : A) : M G A := fun g => (Ok a, g).

Definition bind {G A B} (m : M G A) (k : A -> M G B) : M G B :=
  fun g =>
    match m g with
    | (Ok a, g') => k a g'
    | (Error e, g') => (Error e, g')
    end.

Definition lift {G A} (r : result A) : M G A := fun g => (r, g).

(** A draw never raises. *)
Definition draw {G A} (d : G -> A * G) : M G A :=
  fun g => let (a, g') := d g in (Ok a, g').

Declare Scope ofti_scope.
Delimit Scope ofti_scope with ofti.
Notation "x <- m ;; k" := (bind m (fun x => k))
  (at level 61, m at next level, right associativity) : ofti_scope.
Notation "x <~ r ;; k" := (rbind r (fun x => k))
  (at level 61, r at next level, right associativity) : ofti_scope.
Open Scope ofti_scope.

(** [n] successive draws, in element order. *)
Fixpoint draws {G A} (d : G -> A * G) (n : nat) (g : G) : list A * G :=
  match n with
  | O => ([], g)
  | S n' => let (a, g1) := d g in
            let (l, g2) := draws d n' g1 in
            (a :: l, g2)
  end.

(** ** Scalar float64 operations *)

Class Arith (F : Type) : Type := {
  fconst : Z -> F;              (* an integer literal: 0, 2., 3, 4, 180 *)
  fnan : F;
  fpi : F;                      (* np.pi *)
  fadd : F -> F -> F;
  fsub : F -> F -> F;
  fmul : F -> F -> F;
  fdiv : F -> F -> F;
  fneg : F -> F;
  fsqrt : F -> F;               (* np.sqrt *)
  fpow : F -> positive -> F;    (* x ** k for the literal exponents 2.0 and 3 *)
  c_fmod : F -> F -> F;         (* C fmod, which numpy's remainder calls *)
  fcopysign : F -> F -> F;
  feqb : F -> F -> bool;
  fltb : F -> F -> bool;
  fleb : F -> F -> bool;
  fisnan : F -> bool
}.

(** What the order proofs need of the comparisons; IEEE binary64 has them
    (instance [binary64_order] below). *)
Class ArithOrder (F : Type) {A : Arith F} : Prop := {
  fleb_not_gt : forall m x, fleb m x = true -> fltb x m = false;
  fleb_total : forall m x,
      fleb m x = false -> fisnan m = false -> fisnan x = false -> fltb x m = true;
  fltb_trans : forall x y z, fltb x y = true -> fltb y z = true -> fltb x z = true;
  fltb_nan_r : forall x y, fisnan y = true -> fltb x y = false;
  fltb_irrefl : forall x, fltb x x = false
}.

Section Numpy.
Context {F : Type} {A : Arith F}.

(** [a[i]] where the index is known to be in range. *)
Definition at_ (l : list F) (i : nat) : F := nth i l fnan.

(** [a[i]], raising [IndexError] out of range. *)
Definition getitem {T} (l : list T) (i : nat) : result T :=
  match nth_error l i with
  | Some x => Ok x
  | None => Error (IndexError i (length l))
  end.

(** [a[i] = v] on a list that holds index [i]. *)
Fixpoint set_at {T} (i : nat) (v : T) (l : list T) : list T :=
  match l, i with
  | [], _ => []
  | _ :: r, O => v :: r
  | x :: r, S i' => x :: set_at i' v r
  end.

(** [a[i] = v], raising [IndexError] out of range. *)
Definition setitem {T} (i : nat) (v : T) (l : list T) : result (list T) :=
  if i <? length l then Ok (set_at i v l) else Error (IndexError i (length l)).

(** Elementwise binary operation on two arrays of one shape. *)
Definition map2 {X Y Z} (f : X -> Y -> Z) (xs : list X) (ys : list Y) : list Z :=
  map (fun p => f (fst p) (snd p)) (combine xs ys).

(** [np.signbit]: the sign bit of a float64, set for -0.0 too. *)
Definition fsignbit (x : F) : bool := fltb (fcopysign (fconst 1) x) (fconst 0).

(** [np.radians]: degrees times pi/180. *)
Definition np_radians (x : F) : F := fmul x (fdiv fpi (fconst 180)).

(** [a % b] on float64 (numpy's [npy_divmod]): the C remainder, moved by
    [b] when its sign differs from [b]'s, and a zero of [b]'s sign when the
    remainder is zero. *)
Definition np_remainder (a b : F) : F :=
  let md := c_fmod a b in
  if feqb b (fconst 0) then md
  else if feqb md (fconst 0) then fcopysign (fconst 0) b
  else if xorb (fltb b (fconst 0)) (fltb md (fconst 0)) then fadd md b
  else md.

(** [np.argmin] on a 1-D float array (numpy's [DOUBLE_argmin]): a NaN is
    minimal and ends the scan; otherwise the running minimum is replaced
    when [not (x >= mp)]. *)
Fixpoint argmin_scan (l : list F) (i : nat) (mp : F) (min_ind : nat) : nat :=
  match l with
  | [] => min_ind
  | x :: r =>
      if negb (fleb mp x)
      then if fisnan x then i else argmin_scan r (S i) x i
      else argmin_scan r (S i) mp min_ind
  end.

Definition np_argmin (l : list F) : result nat :=
  match l with
  | [] => Error ArgminEmpty
  | mp :: r => Ok (if fisnan mp then 0 else argmin_scan r 1 mp 0)
  end.

(** [np.nansum] of the listed terms: NaN replaced by zero, then summed. *)
Definition nan_to_zero (x : F) : F := if fisnan x then fconst 0 else x.

(** The sum of a contiguous run of float64, as numpy's [add] reduction
    computes it ([pairwise_sum_DOUBLE]).  Fewer than 8 terms are added one
    after the other, starting from 0.  Up to 128 terms are summed in eight
    lanes, lane [j] adding the terms of index [j], [8 + j], [16 + j], ...;
    the lanes are combined as a balanced tree and the terms after the last
    full group of eight are added one after the other.  More than 128 terms
    are split at half their number, rounded down to a multiple of eight,
    and the sums of the two parts are added. *)
Definition sum_lane (l : list F) (j : nat) : F :=
  fold_left fadd (map (fun b => at_ l (8 * b + j)) (seq 1 (length l / 8 - 1))) (at_ l j).

Definition sum_block (l : list F) : F :=
  let n := length l in
  let r := sum_lane l in
  let res := fadd (fadd (fadd (r 0) (r 1)) (fadd (r 2) (r 3)))
                  (fadd (fadd (r 4) (r 5)) (fadd (r 6) (r 7))) in
  fold_left fadd (skipn (n - n mod 8) l) res.

(** The depth of the recursion is bounded by [fuel]; the length of the
    list is enough. *)
Fixpoint pairwise_sum_rec (fuel : nat) (l : list F) : F :=
  let n := length l in
  if n <? 8 then fold_left fadd l (fconst 0)
  else if n <=? 128 then sum_block l
  else
    match fuel with
    | O => sum_block l
    | S fuel' =>
        let n2 := n / 2 - (n / 2) mod 8 in
        fadd (pairwise_sum_rec fuel' (firstn n2 l)) (pairwise_sum_rec fuel' (skipn n2 l))
    end.

Definition pairwise_sum (l : list F) : F := pairwise_sum_rec (length l) l.

(** [np.sum] over a contiguous run: the reduction starts from the identity
    0 and adds the pairwise sum of the terms; the sum of no term is 0. *)
Definition np_sum (l : list F) : F :=
  match l with
  | [] => fconst 0
  | _ => fadd (fconst 0) (pairwise_sum l)
  end.

Definition np_nansum (l : list F) : F := np_sum (map nan_to_zero l).

(** [np.column_stack((a, b))] of two 1-D arrays: the rows [[a_e; b_e]]. *)
Definition column_stack (a b : list F) : result (list (list F)) :=
  if length a =? length b
  then Ok (map2 (fun x y => [x; y]) a b)
  else Error StackMismatch.

(** [np.where(mask)[0]]: the indices of the true entries, increasing. *)
Definition np_where (mask : list bool) : list nat :=
  filter (fun i => nth i mask false) (seq 0 (length mask)).

(** [m[:, i]] of a 2-D array given by its rows. *)
Definition column (m : list (list F)) (i : nat) : list F :=
  map (fun row => at_ row i) m.

(** A 2-D array of shape [(r, c)] with [r >= 1], given by its rows.  (A
    list of no row carries no second dimension: see [np_shape].) *)
Definition shape2 (r c : nat) (m : list (list F)) : Prop :=
  length m = r /\ Forall (fun row => length row = c) m.

(** The shape of [np.array(rows)] for a list of 1-D arrays of one length:
    [(len(rows), len(rows[0]))], and [(0,)] for the empty list. *)
Definition np_shape (rows : list (list F)) : list nat :=
  match rows with
  | [] => [0]
  | row :: _ => [length rows; length row]
  end.

(** [np.rollaxis(a, 0, 3)] on a 3-D array of shape [(n, e, 2)] given as
    [n] blocks: the result has shape [(e, 2, n)].  An empty list of blocks
    is the 1-D array [np.array([])], which has no axis to roll to. *)
Definition rollaxis_0_3 (blocks : list (list (list F))) (e : nat)
  : result (list (list (list F))) :=
  match blocks with
  | [] => Error AxisError
  | _ => Ok (map (fun ie =>
               map (fun q => map (fun b => at_ (nth ie b []) q) blocks) [0; 1])
             (seq 0 e))
  end.

(** [np.nansum(chi2, axis=(0,1))] of an array of shape [(e, 2, n)]: for
    each of the [n] entries of the last axis, the NaN-safe sum over the
    first two, in row-major order.  (The array keeps the memory layout of
    the model it is computed from, in which the [2 e] terms of one orbit
    are contiguous.) *)
Definition nansum_axis01 (n : nat) (chi2 : list (list (list F))) : list F :=
  map (fun i => np_nansum (flat_map (fun plane => map (fun line => at_ line i) plane) chi2))
      (seq 0 n).

End Numpy.

(** ** The collaborators of the sampler

    [orbitize.kepler], [orbitize.system], [orbitize.lnlike], the priors, the
    random generator of numpy and the unit conversion of astropy are not part
    of [sampler.py]; the sampler is parameterised over them. *)

Class Collaborators (F : Type) : Type := {
  rng : Type;                                   (* state of np.random *)
  random_sample : rng -> F * rng;               (* one uniform draw from [0, 1) *)
  random_normal : F -> F -> rng -> F * rng;     (* np.random.normal(loc, scale) *)
  np_empty_value : nat -> nat -> F;             (* what np.empty happens to hold *)
  np_log : F -> F;                              (* np.log *)
  Prior : Type;
  draw_sample : Prior -> rng -> F * rng;        (* one draw of a prior *)
  (* orbitize.kepler.calc_orbit for one epoch and one orbit:
     epoch, sma, ecc, tau, argp, lan, inc, plx, mtot |-> (ra, dec, vc) *)
  calc_orbit1 : F -> F -> F -> F -> F -> F -> F -> F -> F -> F * F * F;
  (* orbitize.system.radec2seppa on scalars *)
  radec2seppa1 : F -> F -> F * F;
  (* orbitize.lnlike.chi2_lnlike for one epoch and one orbit:
     seppa indices, epoch index, data pair, error pair, model pair *)
  chi2_lnlike1 : list nat -> nat -> F * F -> F * F -> F * F -> F * F;
  Lnlike : Type;                                (* a likelihood function object *)
  lnlike_getattr : string -> option Lnlike;     (* getattr(orbitize.lnlike, name) *)
  G_value : F;                                  (* consts.G *)
  to_day : F -> F                               (* .to(u.day).value *)
}.

(** A numpy array of one or two dimensions, where the source asks for
    [np.ndim]. *)
Inductive ndarray (T : Type) : Type :=
| Arr1 (v : list T)
| Arr2 (m : list (list T)).

Section Sampler.
Context {F : Type} {A : Arith F} {C : Collaborators F}.

(** One row of [system.data_table]; [tbl[i][0]] is the epoch. *)
Record obs_row : Type := {
  epoch : F;
  quant1 : F;
  quant1_err : F;
  quant2 : F;
  quant2_err : F
}.

(** The attributes of [system.System] the sampler reads. *)
Record System : Type := {
  sys_priors : list Prior;
  data_table : list obs_row;
  radec : list (list nat);
  seppa : list (list nat)
}.

(** The [like] argument: a name in [orbitize.lnlike], or a callable. *)
Inductive like_arg : Type :=
| LikeName (name : string)
| LikeCallable (f : Lnlike).

Record OFTI : Type := {
  system : System;
  lnlike : Lnlike;
  priors : list Prior;
  tbl : list obs_row;
  radec_idx : list nat;
  seppa_idx : list nat;
  sep_observed : list F;
  pa_observed : list F;
  sep_err : list F;
  pa_err : list F
}.

(** [Sampler.__init__]: resolves the likelihood. *)
Definition Sampler_init (like : like_arg) : result Lnlike :=
  match like with
  | LikeCallable f => Ok f
  | LikeName name =>
      match lnlike_getattr name with
      | Some f => Ok f
      | None => Error (AttributeError name)
      end
  end.

(** The body of the loop of [OFTI.__init__] for one ra/dec row [i]:
    both the observed pair and the error pair are converted in place. *)
Definition convert_row (i : nat) (cols : list F * list F * list F * list F)
  : result (list F * list F * list F * list F) :=
  let '(so, po, se, pe) := cols in
  s <~ getitem so i ;;
  p <~ getitem po i ;;
  let (s', p') := radec2seppa1 s p in
  so <~ setitem i s' so ;;
  po <~ setitem i p' po ;;
  s <~ getitem se i ;;
  p <~ getitem pe i ;;
  let (s', p') := radec2seppa1 s p in
  se <~ setitem i s' se ;;
  pe <~ setitem i p' pe ;;
  Ok (so, po, se, pe).

Fixpoint convert_rows (idx : list nat) (cols : list F * list F * list F * list F)
  : result (list F * list F * list F * list F) :=
  match idx with
  | [] => Ok cols
  | i :: r => cols' <~ convert_row i cols ;; convert_rows r cols'
  end.

(** The columns [self.tbl[:]['quant1']], ... are views of the data of
    [system.data_table]: what the loop writes into them is written into
    the table.  [write_columns t so po se pe] is the table [t] with these
    four columns. *)
Fixpoint write_columns (t : list obs_row) (so po se pe : list F) : list obs_row :=
  match t, so, po, se, pe with
  | r :: t', s :: so', p :: po', es :: se', ep :: pe' =>
      {| epoch := epoch r; quant1 := s; quant1_err := es;
         quant2 := p; quant2_err := ep |}
      :: write_columns t' so' po' se' pe'
  | _, _, _, _, _ => []
  end.

(** The system object with another content of its table. *)
Definition with_table (sys : System) (t : list obs_row) : System :=
  {| sys_priors := sys_priors sys; data_table := t;
     radec := radec sys; seppa := seppa sys |}.

(** [OFTI.__init__(system, like)].  A value of [OFTI] holds the sampler
    together with what it sees of the table it shares with [system]: in
    the result, [system] and [tbl] are the system and the table as the
    loop of lines 61-63 leaves them.  (A construction that raises is not
    followed further; the rows it converted before stay converted in the
    table.) *)
Definition OFTI_init (sys : System) (like : like_arg) : result OFTI :=
  f <~ Sampler_init like ;;
  let t := data_table sys in
  ri <~ getitem (radec sys) 1 ;;
  si <~ getitem (seppa sys) 1 ;;
  cols <~ convert_rows ri
    (map quant1 t, map quant2 t, map quant1_err t, map quant2_err t) ;;
  let '(so, po, se, pe) := cols in
  let t := write_columns t so po se pe in
  Ok {| system := with_table sys t; lnlike := f; priors := sys_priors sys; tbl := t;
        radec_idx := ri; seppa_idx := si;
        sep_observed := so; pa_observed := po; sep_err := se; pa_err := pe |}.

(** The sampler [self] at a later time, when the system it was built on
    has become [now]: its table and its four columns are those of [now]. *)
Definition OFTI_view (self : OFTI) (now : System) : OFTI :=
  let t := data_table now in
  {| system := now; lnlike := lnlike self; priors := priors self; tbl := t;
     radec_idx := radec_idx self; seppa_idx := seppa_idx self;
     sep_observed := map quant1 t; pa_observed := map quant2 t;
     sep_err := map quant1_err t; pa_err := map quant2_err t |}.

(** The eight rows of a batch, under the names the source unpacks them to. *)
Record Elements : Type := {
  el_sma : list F;
  el_ecc : list F;
  el_argp : list F;
  el_lan : list F;
  el_inc : list F;
  el_tau : list F;
  el_mtot : list F;
  el_plx : list F
}.

(** [sma,ecc,argp,lan,inc,tau,mtot,plx = [s for s in samples]]. *)
Definition unpack8 (samples : list (list F)) : result Elements :=
  match samples with
  | [sma; ecc; argp; lan; inc; tau; mtot; plx] =>
      Ok {| el_sma := sma; el_ecc := ecc; el_argp := argp; el_lan := lan;
            el_inc := inc; el_tau := tau; el_mtot := mtot; el_plx := plx |}
  | _ => Error (UnpackError (length samples))
  end.

(** Modelled from the spec: the Prior Set, "each exposing draw(count) ->
    array of count scalars"; [draw_samples] of a prior is [count]
    successive draws. *)
Definition draw_samples (p : Prior) (num_samples : nat) : rng -> list F * rng :=
  draws (draw_sample p) num_samples.

(** [np.random.uniform(size=n)] and [np.random.random(n)]. *)
Definition random_uniform (n : nat) : rng -> list F * rng :=
  draws random_sample n.

(** Lines 80-82: one row of draws per prior, in order. *)
Fixpoint draw_rows (ps : list Prior) (num_samples : nat) (g : rng)
  : list (list F) * rng :=
  match ps with
  | [] => ([], g)
  | p :: r => let (row, g1) := draw_samples p num_samples g in
              let (rows, g2) := draw_rows r num_samples g1 in
              (row :: rows, g2)
  end.

(** Modelled from the spec: the Orbit Propagator, a "pure function mapping
    (epoch, orbital elements) -> sky-plane position. Stateless, vectorized
    over batches of candidates"; here for a single shared epoch. *)
Definition calc_orbit (ep : F) (sma ecc tau argp lan inc plx mtot : list F)
  : list F * list F * list F :=
  let out := map (fun i => calc_orbit1 ep (at_ sma i) (at_ ecc i) (at_ tau i)
                             (at_ argp i) (at_ lan i) (at_ inc i)
                             (at_ plx i) (at_ mtot i))
                 (seq 0 (length sma)) in
  (map (fun t => fst (fst t)) out, map (fun t => snd (fst t)) out, map snd out).

(** Modelled from the spec: the coordinate conversion of the Observation
    Set, applied elementwise to two arrays of one shape. *)
Definition radec2seppa (ra dec : list F) : list F * list F :=
  let out := map2 radec2seppa1 ra dec in
  (map fst out, map snd out).

(** Kepler's third law, line 92-93 and 117-118:
    [np.sqrt(4*np.pi**2.0*(sma*u.AU)**3/(consts.G*(mtot*u.Msun)))]
    converted to days. *)
Definition kepler_period1 (sma mtot : F) : F :=
  to_day (fsqrt (fdiv (fmul (fmul (fconst 4) (fpow fpi 2%positive))
                            (fpow sma 3%positive))
                      (fmul G_value mtot))).

Definition kepler_period (sma mtot : list F) : list F :=
  map2 kepler_period1 sma mtot.

(** Line 98 and 120: [epochs[epoch_idx]/period - meananno]. *)
Definition tau_of (ep : F) (period meananno : list F) : list F :=
  map2 (fun p m => fsub (fdiv ep p) m) period meananno.

(** Line 109: [(sep_offset + self.sep_observed[epoch_idx])/sep]. *)
Definition sma_corr_of (sep_offset sep_obs : F) (sep : list F) : list F :=
  map (fun s => fdiv (fadd sep_offset sep_obs) s) sep.

(** Line 110: [(pa_offset + self.pa_observed[epoch_idx] - pa)]. *)
Definition lan_corr_of (pa_offset pa_obs : F) (pa : list F) : list F :=
  map (fun p => fsub (fadd pa_offset pa_obs) p) pa.

Definition two_pi : F := fmul (fconst 2) fpi.

(** [np.random.normal(loc, scale)] with scalar arguments: a scale whose
    sign bit is set ([np.signbit]) is refused with ValueError, before
    anything is drawn. *)
Definition np_random_normal (loc scale : F) : M rng F :=
  if fsignbit scale then lift (Error ScaleNegative)
  else draw (random_normal loc scale).

(** The index of the scale-and-rotate epoch, line 87. *)
Definition anchor_idx (self : OFTI) : result nat := np_argmin (sep_err self).

(** Lines 90-130 of [OFTI.prepare_samples]: scale-and-rotate of the drawn
    batch [samples] at the epoch of index [epoch_idx].  [sma] and [lan] are
    views of rows 0 and 3 of [samples], so [sma *= ...] and [lan += ...]
    already write into [samples]; [lan % ...] and the new [tau] are fresh
    arrays, stored by the three assignments at the end. *)
Definition scale_and_rotate (self : OFTI) (epoch_idx : nat)
           (samples : list (list F)) (num_samples : nat)
  : M rng (list (list F)) :=
  let epochs := map epoch (tbl self) in
  el <- lift (unpack8 samples) ;;
  let period_prescale := kepler_period (el_sma el) (el_mtot el) in
  meananno <- draw (random_uniform num_samples) ;;
  ep <- lift (getitem epochs epoch_idx) ;;
  let tau := tau_of ep period_prescale meananno in
  let '(ra, dec, _) :=
    calc_orbit ep (el_sma el) (el_ecc el) tau (el_argp el) (el_lan el)
               (el_inc el) (el_plx el) (el_mtot el) in
  let (sep, pa) := radec2seppa ra dec in
  sep_err_k <- lift (getitem (sep_err self) epoch_idx) ;;
  sep_offset <- np_random_normal (fconst 0) sep_err_k ;;
  pa_err_k <- lift (getitem (pa_err self) epoch_idx) ;;
  pa_offset <- np_random_normal (fconst 0) pa_err_k ;;
  sep_obs_k <- lift (getitem (sep_observed self) epoch_idx) ;;
  let sma_corr := sma_corr_of sep_offset sep_obs_k sep in
  pa_obs_k <- lift (getitem (pa_observed self) epoch_idx) ;;
  let lan_corr := lan_corr_of pa_offset pa_obs_k pa in
  let sma := map2 fmul (el_sma el) sma_corr in
  let samples := set_at 0 sma samples in
  let lan := map2 fadd (el_lan el) (map np_radians lan_corr) in
  let samples := set_at 3 lan samples in
  let lan := map (fun x => np_remainder x two_pi) lan in
  let period_new := kepler_period sma (el_mtot el) in
  let tau := tau_of ep period_new meananno in
  let '(ra, dec, _) :=
    calc_orbit ep sma (el_ecc el) tau (el_argp el) lan
               (el_inc el) (el_plx el) (el_mtot el) in
  let (_, _) := radec2seppa ra dec in
  let samples := set_at 0 sma samples in
  let samples := set_at 3 lan samples in
  let samples := set_at 5 tau samples in
  ret samples.

(** [OFTI.prepare_samples(num_samples)]: the draws from the priors (lines
    80-82), the choice of the scale-and-rotate epoch (line 87), then
    scale-and-rotate. *)
Definition prepare_samples (self : OFTI) (num_samples : nat)
  : M rng (list (list F)) :=
  samples <- draw (draw_rows (priors self) num_samples) ;;
  epoch_idx <- lift (anchor_idx self) ;;
  scale_and_rotate self epoch_idx samples num_samples.

(** Modelled from the spec: the Orbit Propagator called with the array of
    all epochs: "per-candidate, per-epoch" positions, of shape
    [(n_epochs, n_orbits)].  For a batch of one orbit the result is 1-D
    (the source re-wraps it: "manipulate shape for num_samples=1"). *)
Definition squeeze_orbits (n : nat) (m : list (list F)) : ndarray F :=
  if n =? 1 then Arr1 (map (fun row => at_ row 0) m) else Arr2 m.

Definition calc_orbit_epochs (epochs : list F)
           (sma ecc tau argp lan inc plx mtot : list F)
  : ndarray F * ndarray F * ndarray F :=
  let out := map (fun ep => calc_orbit ep sma ecc tau argp lan inc plx mtot) epochs in
  let n := length sma in
  (squeeze_orbits n (map (fun t => fst (fst t)) out),
   squeeze_orbits n (map (fun t => snd (fst t)) out),
   squeeze_orbits n (map snd out)).

(** [radec2seppa] on the two arrays of one propagator call, which have one
    shape. *)
Definition radec2seppa_nd (ra dec : ndarray F) : ndarray F * ndarray F :=
  match ra, dec with
  | Arr1 r, Arr1 d => let (s, p) := radec2seppa r d in (Arr1 s, Arr1 p)
  | Arr2 r, Arr2 d =>
      let out := map2 radec2seppa r d in
      (Arr2 (map fst out), Arr2 (map snd out))
  | _, _ => (Arr1 [], Arr1 [])
  end.

(** Lines 153-155: [if np.ndim(sep)==1: sep = [[x] for x in sep]]. *)
Definition as_rows (a : ndarray F) : list (list F) :=
  match a with
  | Arr1 v => map (fun x => [x]) v
  | Arr2 m => m
  end.

(** Lines 158-162: for orbit [i], the columns [[x[i] for x in sep]] and
    [[x[i] for x in pa]] stacked. *)
Definition seppa_block (sep pa : list (list F)) (i : nat)
  : result (list (list F)) :=
  column_stack (map (fun x => at_ x i) sep) (map (fun x => at_ x i) pa).

Fixpoint seppa_blocks (sep pa : list (list F)) (idx : list nat)
  : result (list (list (list F))) :=
  match idx with
  | [] => Ok []
  | i :: r =>
      b <~ seppa_block sep pa i ;;
      bs <~ seppa_blocks sep pa r ;;
      Ok (b :: bs)
  end.

Definition pair_of (l : list F) : F * F := (at_ l 0, at_ l 1).

(** Modelled from the spec: the Likelihood function,
    "chi2(observed_pairs, observed_uncertainties,
    predicted_pairs_per_candidate, seppa_row_indices) -> per-candidate,
    per-epoch chi-square contributions"; the model and the result have
    shape [(n_epochs, 2, n_orbits)]. *)
Definition chi2_lnlike (data errs : list (list F)) (model : list (list (list F)))
           (si : list nat) (n : nat) : list (list (list F)) :=
  map (fun ie =>
         let d := pair_of (nth ie data []) in
         let s := pair_of (nth ie errs []) in
         let plane := nth ie model [] in
         let out := map (fun i => chi2_lnlike1 si ie d s
                                    (at_ (nth 0 plane []) i, at_ (nth 1 plane []) i))
                        (seq 0 n) in
         [map fst out; map snd out])
      (seq 0 (length model)).

(** Line 173: [lnp = -chi2_sum/2.]. *)
Definition lnp_of (chi2_sum : F) : F := fdiv (fneg chi2_sum) (fconst 2).

(** [OFTI.reject(orbit_configs)]. *)
Definition reject (self : OFTI) (orbit_configs : list (list F))
  : M rng (list (list F)) :=
  let epochs := map epoch (tbl self) in
  el <- lift (unpack8 orbit_configs) ;;
  let '(ra, dec, _) :=
    calc_orbit_epochs epochs (el_sma el) (el_ecc el) (el_tau el) (el_argp el)
                      (el_lan el) (el_inc el) (el_plx el) (el_mtot el) in
  let (sep, pa) := radec2seppa_nd ra dec in
  let sep := as_rows sep in
  let pa := as_rows pa in
  let n := length (nth 0 orbit_configs []) in
  seppa_model <- lift (seppa_blocks sep pa (seq 0 n)) ;;
  seppa_model <- lift (rollaxis_0_3 seppa_model (length sep)) ;;
  seppa_data <- lift (column_stack (sep_observed self) (pa_observed self)) ;;
  seppa_errs <- lift (column_stack (sep_err self) (pa_err self)) ;;
  let chi2 := chi2_lnlike seppa_data seppa_errs seppa_model (seppa_idx self) n in
  let chi2_sum := nansum_axis01 n chi2 in
  let lnp := map lnp_of chi2_sum in
  u <- draw (random_uniform (length lnp)) ;;
  let random_samples := map np_log u in
  let saved_orbit_idx := np_where (map2 (fun l r => fltb r l) lnp random_samples) in
  let saved_orbits := map (fun i => column orbit_configs i) saved_orbit_idx in
  ret saved_orbits.

(** [np.empty((rows, cols))]. *)
Definition np_empty (rows cols : nat) : list (list F) :=
  map (fun i => map (fun j => np_empty_value i j) (seq 0 cols)) (seq 0 rows).

(** Lines 208-210:
    [for orbit in new_orbits: output_orbits[n_orbits_saved] = orbit;
     n_orbits_saved += 1].  Every [orbit] has as many entries as the store
    has columns (both are [len(self.priors)]). *)
Fixpoint store_orbits (new_orbits : list (list F)) (n_orbits_saved : nat)
         (output_orbits : list (list F)) : result (nat * list (list F)) :=
  match new_orbits with
  | [] => Ok (n_orbits_saved, output_orbits)
  | orbit :: r =>
      output_orbits <~ setitem n_orbits_saved orbit output_orbits ;;
      store_orbits r (S n_orbits_saved) output_orbits
  end.

(** The [while] loop of [run_sampler], lines 201-210; [None] when the
    fuel is spent before the loop ends. *)
Fixpoint run_loop (fuel : nat) (self : OFTI) (total_orbits num_samples : nat)
         (n_orbits_saved : nat) (output_orbits : list (list F)) (g : rng)
  : option (result (list (list F)) * rng) :=
  if n_orbits_saved <? total_orbits then
    match fuel with
    | O => None
    | S fuel' =>
        match prepare_samples self num_samples g with
        | (Error e, g1) => Some (Error e, g1)
        | (Ok orbit_configs, g1) =>
            match reject self orbit_configs g1 with
            | (Error e, g2) => Some (Error e, g2)
            | (Ok new_orbits, g2) =>
                if length new_orbits =? 0
                then run_loop fuel' self total_orbits num_samples
                              n_orbits_saved output_orbits g2
                else
                  match store_orbits new_orbits n_orbits_saved output_orbits with
                  | Error e => Some (Error e, g2)
                  | Ok (n', out') =>
                      run_loop fuel' self total_orbits num_samples n' out' g2
                  end
            end
        end
    end
  else Some (Ok output_orbits, g).

(** [OFTI.run_sampler(total_orbits, num_samples)]. *)
Definition run_sampler (fuel : nat) (self : OFTI) (total_orbits num_samples : nat)
           (g : rng) : option (result (list (list F)) * rng) :=
  run_loop fuel self total_orbits num_samples 0
           (np_empty total_orbits (length (priors self))) g.

(** ** The quantities of one candidate

    Orbit [i] of a batch is its column [i]; these definitions name, for one
    orbit, what the vectorised code computes for all of them at once. *)

(** Separation and position angle predicted for orbit [i] at epoch [ep]. *)
Definition predicted (ep : F) (batch : list (list F)) (i : nat) : F * F :=
  let c := column batch i in
  let '(ra, dec, _) :=
    calc_orbit1 ep (at_ c 0) (at_ c 1) (at_ c 5) (at_ c 2) (at_ c 3)
                (at_ c 4) (at_ c 7) (at_ c 6) in
  radec2seppa1 ra dec.

(** The chi-square terms of orbit [i]: two per epoch, in epoch order. *)
Definition chi2_terms (self : OFTI) (batch : list (list F)) (i : nat) : list F :=
  flat_map (fun ie =>
              let (c1, c2) :=
                chi2_lnlike1 (seppa_idx self) ie
                  (at_ (sep_observed self) ie, at_ (pa_observed self) ie)
                  (at_ (sep_err self) ie, at_ (pa_err self) ie)
                  (predicted (at_ (map epoch (tbl self)) ie) batch i) in
              [c1; c2])
           (seq 0 (length (tbl self))).

Definition lnp_at (self : OFTI) (batch : list (list F)) (i : nat) : F :=
  lnp_of (np_nansum (chi2_terms self batch i)).

(** Orbit [i] passes the test against the uniform draws [u]. *)
Definition accepted (self : OFTI) (batch : list (list F)) (u : list F) (i : nat) : bool :=
  fltb (np_log (at_ u i)) (lnp_at self batch i).

(** A system with another prior set. *)
Definition with_priors (sys : System) (ps : list Prior) : System :=
  {| sys_priors := ps; data_table := data_table sys;
     radec := radec sys; seppa := seppa sys |}.

(** The four observation columns of a sampler have one entry per row of
    its table, as [OFTI.__init__] builds them. *)
Definition consistent (self : OFTI) : Prop :=
  length (sep_observed self) = length (tbl self) /\
  length (pa_observed self) = length (tbl self) /\
  length (sep_err self) = length (tbl self) /\
  length (pa_err self) = length (tbl self).

(** The random draws of one call of [prepare_samples] whose scale-and-rotate
    epoch has index [k], in the order the call makes them: the rows from the
    priors, the mean anomalies, the separation offset, the position-angle
    offset; and the generator after them. *)
Record Draws : Type := {
  d_rows : list (list F);
  d_meananno : list F;
  d_sep_offset : F;
  d_pa_offset : F;
  d_rng : rng
}.

Definition batch_draws (self : OFTI) (k num_samples : nat) (g : rng) : Draws :=
  let (rows, g1) := draw_rows (priors self) num_samples g in
  let (m, g2) := random_uniform num_samples g1 in
  let (so, g3) := random_normal (fconst 0) (at_ (sep_err self) k) g2 in
  let (po, g4) := random_normal (fconst 0) (at_ (pa_err self) k) g3 in
  {| d_rows := rows; d_meananno := m; d_sep_offset := so; d_pa_offset := po;
     d_rng := g4 |}.

End Sampler.

(** ** IEEE binary64

    The scalar operations on Rocq's primitive floats.  Addition,
    subtraction, multiplication, division, square root and the comparisons
    are the primitive ones; the C remainder is computed exactly on the
    mantissas. *)

Module Binary64.
Open Scope float_scope.

(** The float64 nearest to an integer times a power of two. *)
Definition of_scaled (m e : Z) : float := SF2Prim (binary_normalize prec emax m e false).

Definition of_Z (z : Z) : float := of_scaled z 0.

(** [np.pi]. *)
Definition pi : float := 0x1.921fb54442d18p+1.

(** [x ** k] for a positive integral [k]: the exact power, rounded once.
    (The C library's [pow] may differ from it in the last place; it is
    used in the concrete runs only.) *)
Definition pow (x : float) (k : positive) : float :=
  match Prim2SF x with
  | S754_nan => nan
  | S754_zero s => if andb s (Z.odd (Zpos k)) then neg_zero else zero
  | S754_infinity s => if andb s (Z.odd (Zpos k)) then neg_infinity else infinity
  | S754_finite s m e =>
      let r := of_scaled (Zpos (Pos.pow m k)) (e * Zpos k) in
      if andb s (Z.odd (Zpos k)) then - r else r
  end.

(** C [fmod]: the exact remainder of the truncated division, with the sign
    of [x]. *)
Definition fmod (x y : float) : float :=
  match Prim2SF x, Prim2SF y with
  | S754_nan, _ | _, S754_nan => nan
  | S754_infinity _, _ => nan
  | _, S754_zero _ => nan
  | _, S754_infinity _ => x
  | S754_zero _, _ => x
  | S754_finite sx mx ex, S754_finite _ my ey =>
      let e := Z.min ex ey in
      let a := (Zpos mx * 2 ^ (ex - e))%Z in
      let b := (Zpos my * 2 ^ (ey - e))%Z in
      let r := (a mod b)%Z in
      if (r =? 0)%Z then (if sx then neg_zero else zero)
      else let v := of_scaled r e in if sx then - v else v
  end.

Definition copysign (x y : float) : float :=
  if get_sign y then - (abs x) else abs x.

(** [np.log]: with [x = y * 2^d] and [y] in [[3/4, 3/2)], the logarithm
    [d ln 2 + 2 atanh ((y-1)/(y+1))] is computed in fixed point with 128
    fractional bits and rounded to the nearest float64.  (The C library's
    [log] may differ from it in the last place; it is used in the concrete
    runs only.) *)
Definition fix_bits : Z := 128.
Definition fix_one : Z := 2 ^ fix_bits.

(** Sum of [z^(2k+1)/(2k+1)] for [k = k0 ..], [term] being [z^(2k0+1)]. *)
Fixpoint atanh_series (fuel : nat) (term z2 : Z) (k : Z) : Z :=
  match fuel with
  | O => 0
  | S fuel' =>
      (term / (2 * k + 1) + atanh_series fuel' (term * z2 / fix_one) z2 (k + 1))%Z
  end.

Definition atanh_fix (z : Z) : Z := atanh_series 48 z (z * z / fix_one) 0.

Definition ln2_fix : Z := (2 * atanh_fix (fix_one / 3))%Z.

Definition log (x : float) : float :=
  match Prim2SF x with
  | S754_nan => nan
  | S754_zero _ => neg_infinity
  | S754_infinity s => if s then nan else infinity
  | S754_finite true _ _ => nan
  | S754_finite false m e =>
      let d0 := Z.log2 (Zpos m) + 1 in
      let d := if 4 * Zpos m <? 3 * 2 ^ d0 then d0 - 1 else d0 in
      let p := 2 ^ d in
      let z := ((Zpos m - p) * fix_one / (Zpos m + p))%Z in
      let l := ((e + d) * ln2_fix + 2 * atanh_fix z)%Z in
      of_scaled l (- fix_bits)
  end%Z.

#[export] Instance binary64 : Arith float := {
  fconst := of_Z;
  fnan := nan;
  fpi := pi;
  fadd := PrimFloat.add;
  fsub := PrimFloat.sub;
  fmul := PrimFloat.mul;
  fdiv := PrimFloat.div;
  fneg := PrimFloat.opp;
  fsqrt := PrimFloat.sqrt;
  fpow := pow;
  c_fmod := fmod;
  fcopysign := copysign;
  feqb := PrimFloat.eqb;
  fltb := PrimFloat.ltb;
  fleb := PrimFloat.leb;
  fisnan := is_nan
}.

End Binary64.

(** ** A concrete setting for runs of the sampler

    float64 arithmetic, a random generator that replays a tape of
    pre-drawn deviates, uniform priors, and stand-ins for the propagator and
    the coordinate conversion that work in polar form. *)

Module Setting.
Import Binary64.
Open Scope float_scope.

Definition tape : Type := list float.

Definition pop (g : tape) : float * tape :=
  match g with
  | x :: r => (x, r)
  | [] => (0, [])
  end.

(** [np.random.normal(loc, scale)] from a standard normal deviate. *)
Definition normal (loc scale : float) (g : tape) : float * tape :=
  let (z, r) := pop g in (loc + scale * z, r).

(** A uniform prior on [[lo, hi)], drawn from a uniform deviate. *)
Definition uniform_prior : Type := float * float.

Definition draw_uniform (p : uniform_prior) (g : tape) : float * tape :=
  let (u, r) := pop g in (fst p + (snd p - fst p) * u, r).

(** Stand-in propagator: the separation is [sma * plx], the position angle
    is [argp]; [radec2seppa] passes the pair through. *)
Definition propagate (ep sma ecc tau argp lan inc plx mtot : float)
  : float * float * float :=
  (sma * plx, argp, 0).

Definition to_seppa (ra dec : float) : float * float := (ra, dec).

(** The chi-square of the two quantities of one epoch. *)
Definition chi2_pair (si : list nat) (ie : nat) (d s m : float * float)
  : float * float :=
  let r1 := (fst d - fst m) / fst s in
  let r2 := (snd d - snd m) / snd s in
  (r1 * r1, r2 * r2).

#[export] Instance setting : Collaborators float := {
  rng := tape;
  random_sample := pop;
  random_normal := normal;
  np_empty_value := fun _ _ => 0;
  np_log := log;
  Prior := uniform_prior;
  draw_sample := draw_uniform;
  calc_orbit1 := propagate;
  radec2seppa1 := to_seppa;
  chi2_lnlike1 := chi2_pair;
  Lnlike := unit;
  lnlike_getattr := fun name => if String.eqb name "chi2_lnlike" then Some tt else None;
  G_value := 0x1.258775e37fa03p-34;
  to_day := fun x => x * 0x1.f1fb8c3dd40c1p-12
}.

(** One observation epoch: separation 100 +- 1 mas, position angle
    45.5 +- 1 deg, at epoch 50000. *)
Definition one_epoch : list obs_row :=
  [ {| epoch := 50000; quant1 := 100; quant1_err := 1;
       quant2 := 45.5; quant2_err := 1 |} ].

(** Eight priors; each is a point or an interval. *)
Definition priors8 (argp_lo lan_lo : float) : list uniform_prior :=
  [ (1, 2); (0, 0.5); (argp_lo, argp_lo + 1); (lan_lo, lan_lo + 1);
    (0, 1); (0, 1); (1, 1.5); (50, 60) ].

Definition system_of (ps : list uniform_prior) (t : list obs_row) : System :=
  {| sys_priors := ps; data_table := t; radec := [[]; []]; seppa := [[]; [0%nat]] |}.

(** The sampler [OFTI(system_of ps t)] (no ra/dec rows to convert). *)
Definition sampler_of (ps : list uniform_prior) (t : list obs_row) : OFTI :=
  {| system := system_of ps t; lnlike := tt; priors := ps; tbl := t;
     radec_idx := []; seppa_idx := [0%nat];
     sep_observed := map quant1 t; pa_observed := map quant2 t;
     sep_err := map quant1_err t; pa_err := map quant2_err t |}.

Definition by_name : like_arg := LikeName "chi2_lnlike".

(** Two tapes of deviates, all in [[0, 1)]. *)
Definition tape_half : tape := repeat 0.5 200.

Definition tape_zero : tape := repeat 0 200.

(** A sampler whose priors on the argument of periastron and on the
    longitude of ascending node start at [argp_lo] and [lan_lo]. *)
Definition sampler_at (argp_lo lan_lo : float) : OFTI :=
  sampler_of (priors8 argp_lo lan_lo) one_epoch.

(** Two observation epochs; the second has the smaller separation
    uncertainty. *)
Definition two_epochs : list obs_row :=
  [ {| epoch := 50000; quant1 := 100; quant1_err := 2;
       quant2 := 45.5; quant2_err := 1 |};
    {| epoch := 50100; quant1 := 101; quant1_err := 1;
       quant2 := 46; quant2_err := 1 |} ].

(** Candidates that match the observation: a batch of eight from
    [prepare_samples], the generator after it, and what [reject] makes of
    them. *)
Definition near_batch : list (list float) :=
  Eval vm_compute in
    match fst (prepare_samples (sampler_at 45.5 0) 8 tape_half) with
    | Ok b => b
    | Error _ => []
    end.

Definition near_tape : tape :=
  Eval vm_compute in snd (prepare_samples (sampler_at 45.5 0) 8 tape_half).

Definition near_out : list (list float) :=
  Eval vm_compute in
    match fst (reject (sampler_at 45.5 0) near_batch near_tape) with
    | Ok o => o
    | Error _ => []
    end.

Definition near_tape' : tape :=
  Eval vm_compute in snd (reject (sampler_at 45.5 0) near_batch near_tape).

(** Candidates far from the observation: a batch of two. *)
Definition far_batch : list (list float) :=
  Eval vm_compute in
    match fst (prepare_samples (sampler_at 200 0) 2 tape_half) with
    | Ok b => b
    | Error _ => []
    end.

Definition far_tape : tape :=
  Eval vm_compute in snd (prepare_samples (sampler_at 200 0) 2 tape_half).

(** One observation epoch with position angle 45 +- 1 deg, and a tape for
    one candidate: the eight prior draws at the lower ends of the priors,
    mean anomaly 0.25, and the two normal deviates 0.5 (so both offsets are
    half the uncertainty). *)
Definition epoch_45 : list obs_row :=
  [ {| epoch := 50000; quant1 := 100; quant1_err := 1;
       quant2 := 45; quant2_err := 1 |} ].

Definition tape_one : tape := [0; 0; 0; 0; 0; 0; 0; 0; 0.25; 0.5; 0.5].

(** Seven priors only. *)
Definition priors7 : list uniform_prior := firstn 7 (priors8 45.5 0).

End Setting.

(** ** Further definitions about [OFTI] *)

Section SamplerMore.
Context {F : Type} {A : Arith F} {C : Collaborators F}.

(** The sampler with another object in [self.lnlike]. *)
Definition with_lnlike (self : OFTI) (f : Lnlike) : OFTI :=
  {| system := system self; lnlike := f; priors := priors self; tbl := tbl self;
     radec_idx := radec_idx self; seppa_idx := seppa_idx self;
     sep_observed := sep_observed self; pa_observed := pa_observed self;
     sep_err := sep_err self; pa_err := pa_err self |}.

(** The first [k] iterations of the loop of [run_sampler], as long as
    [prepare_samples] and [reject] return: for each of them the batch
    prepared, the state of the random generator [reject] starts from and
    the array it returns, and the state after the last of them.  [None]
    when one of the [k] raises.  (What the loop does with the arrays is
    [run_loop].) *)
Fixpoint iterations (k : nat) (self : OFTI) (num_samples : nat) (g : rng)
  : option (list (list (list F) * rng * list (list F)) * rng) :=
  match k with
  | O => Some ([], g)
  | S k' =>
      match prepare_samples self num_samples g with
      | (Error _, _) => None
      | (Ok orbit_configs, g1) =>
          match reject self orbit_configs g1 with
          | (Error _, _) => None
          | (Ok new_orbits, g2) =>
              match iterations k' self num_samples g2 with
              | None => None
              | Some (its, g') => Some ((orbit_configs, g1, new_orbits) :: its, g')
              end
          end
      end
  end.

(** Four columns of one length. *)
Definition cols_len (len : nat) (cols : list F * list F * list F * list F) : Prop :=
  let '(so, po, se, pe) := cols in
  length so = len /\ length po = len /\ length se = len /\ length pe = len.

End SamplerMore.

(** ** The MCMC samplers

    [PTMCMC] and [EnsembleMCMC] drive the samplers of [ptemcee] and [emcee],
    read the model from [system.compute_model] and hand the density of the
    priors, [orbitize.priors.all_lnpriors], to the sampler.  None of these
    is part of [sampler.py]; the two classes are parameterised over them. *)

Inductive mcmc_exn : Type :=
| Raised (e : exn)                     (* one of the exceptions above *)
| NoArrays                             (* ValueError: need at least one array to stack *)
| ShapeMismatch                        (* ValueError: all input arrays must have the same shape *)
| ReshapeError (size rows cols : nat)  (* ValueError: cannot reshape array of size ... *)
| UnboundLocalError (name : string).   (* a local variable read before it is assigned *)

Inductive outcome (T : Type) : Type :=
| Done (a : T)
| Fail (e : mcmc_exn).
Arguments Done {T} a.
Arguments Fail {T} e.

(** What one call of [sampler.sample(...)] gives the [for] loop that
    consumes it: the tuples it yields, in order, and the exception that ends
    it, if one does. *)
Record Pass (Y : Type) : Type := {
  yielded : list Y;
  raised : option mcmc_exn
}.

Class McmcCollaborators (F : Type) {C : Collaborators F} : Type := {
  Model : Type;                                 (* what compute_model returns *)
  compute_model : System -> list F -> Model;    (* system.compute_model(params) *)
  (* self.lnlike(data, errs, model, seppa_indices): the entries of the
     array it returns *)
  lnlike_call : Lnlike -> list (list F) -> list (list F) -> Model -> list nat -> list F;
  all_lnpriors : list F -> list Prior -> F;     (* orbitize.priors.all_lnpriors *)
  (* ptemcee.Sampler(nwalkers, dim, logl, logp, ntemps, threads, logpargs) *)
  PTSampler : Type;
  PTChain : Type;
  PTLogProb : Type;
  pt_new : nat -> nat -> (list F -> result F) -> (list F -> list Prior -> F) ->
           nat -> nat -> list (list Prior) -> PTSampler;
  (* sampler.sample(p0, iterations, thin) yields (pos, lnprob, lnlike) *)
  pt_sample : PTSampler -> list (list (list F)) -> nat -> nat -> rng ->
              Pass (list (list (list F)) * list (list F) * list (list F))
              * PTSampler * rng;
  pt_reset : PTSampler -> PTSampler;
  pt_chain : PTSampler -> PTChain;              (* sampler.chain *)
  pt_logprobability : PTSampler -> PTLogProb;   (* sampler.logprobability *)
  (* emcee.EnsembleSampler(nwalkers, dim, lnpostfn, threads) *)
  EnsSampler : Type;
  EnsChain : Type;
  EnsLnProb : Type;
  RandomState : Type;
  en_new : nat -> nat -> (list F -> result F) -> nat -> EnsSampler;
  (* sampler.sample(p0, lnprob0, iterations, thin) yields (pos, lnprob, rstate) *)
  en_sample : EnsSampler -> list (list F) -> option (list F) -> nat -> nat -> rng ->
              Pass (list (list F) * list F * RandomState) * EnsSampler * rng;
  en_reset : EnsSampler -> EnsSampler;
  en_chain : EnsSampler -> EnsChain;            (* sampler.chain *)
  en_lnprobability : EnsSampler -> EnsLnProb    (* sampler.lnprobability *)
}.

(** [np.union1d(a, b)] is [np.unique(np.concatenate((a, b)))]: the
    concatenation is sorted, and an entry is kept when it differs from the
    one before it. *)
Fixpoint insert_sorted (x : nat) (l : list nat) : list nat :=
  match l with
  | [] => [x]
  | y :: r => if x <=? y then x :: l else y :: insert_sorted x r
  end.

Definition sort_indices (l : list nat) : list nat := fold_right insert_sorted [] l.

Fixpoint keep_changes (prev : nat) (l : list nat) : list nat :=
  match l with
  | [] => []
  | x :: r => if x =? prev then keep_changes x r else x :: keep_changes x r
  end.

Definition np_unique (l : list nat) : list nat :=
  match sort_indices l with
  | [] => []
  | x :: r => x :: keep_changes x r
  end.

Definition np_union1d (a b : list nat) : list nat := np_unique (a ++ b).

Section Mcmc.
Context {F : Type} {A : Arith F} {C : Collaborators F} {E : @McmcCollaborators F C}.

(** [m.T] of a 2-D array given by its rows. *)
Definition transpose (m : list (list F)) : list (list F) :=
  map (column m) (seq 0 (length (nth 0 m []))).

(** [PTMCMC._logl(params)] and [EnsembleMCMC._logl(params)], which have one
    body; [sys] is [self.system] and [f] is [self.lnlike]. *)
Definition logl (sys : System) (f : Lnlike) (params : list F) : result F :=
  let model := compute_model sys params in
  let t := data_table sys in
  let data := transpose [map quant1 t; map quant2 t] in
  let errs := transpose [map quant1_err t; map quant2_err t] in
  s0 <~ getitem (seppa sys) 0 ;;
  s1 <~ getitem (seppa sys) 1 ;;
  let seppa_indices := np_union1d s0 s1 in
  let lnlikes := lnlike_call f data errs model seppa_indices in
  Ok (np_nansum lnlikes).

(** [v.reshape([rows, cols])] of a 1-D array. *)
Definition reshape_rows (rows cols : nat) (v : list F) : list (list F) :=
  map (fun i => map (fun j => at_ v (i * cols + j)) (seq 0 cols)) (seq 0 rows).

Definition reshape2 (rows cols : nat) (v : list F) : outcome (list (list F)) :=
  if length v =? rows * cols then Done (reshape_rows rows cols v)
  else Fail (ReshapeError (length v) rows cols).

(** The shape of a 2-D array given by its rows, and the test that an array
    has a given shape. *)
Definition shape_of (a : list (list F)) : nat * nat :=
  (length a, length (nth 0 a [])).

Definition has_shape (s : nat * nat) (a : list (list F)) : bool :=
  (length a =? fst s) && forallb (fun r => length r =? snd s) a.

(** [np.dstack(arrs)] of 2-D arrays of one shape [(m, n)]: the array of
    shape [(m, n, len(arrs))]. *)
Definition np_dstack (arrs : list (list (list F))) : outcome (list (list (list F))) :=
  match arrs with
  | [] => Fail NoArrays
  | a :: _ =>
      if forallb (has_shape (shape_of a)) arrs
      then Done (map (fun i =>
                   map (fun j => map (fun b => at_ (nth i b []) j) arrs)
                       (seq 0 (snd (shape_of a))))
                 (seq 0 (fst (shape_of a))))
      else Fail ShapeMismatch
  end.

(** [np.stack(arrs)] of 1-D arrays of one length: they are the rows. *)
Definition np_stack (arrs : list (list F)) : outcome (list (list F)) :=
  match arrs with
  | [] => Fail NoArrays
  | a :: _ =>
      if forallb (fun b => length b =? length a) arrs then Done arrs
      else Fail ShapeMismatch
  end.

Record PTMCMC : Type := {
  pt_system : System;
  pt_lnlike : Lnlike;
  pt_num_temps : nat;
  pt_num_walkers : nat;
  pt_num_threads : nat;
  pt_priors : list Prior;
  pt_num_params : nat;
  pt_curr_pos : list (list (list F));
  pt_chain_attr : option PTChain;      (* self.chain, once run_sampler has set it *)
  pt_lnlikes : option PTLogProb        (* self.lnlikes, likewise *)
}.

Record EnsembleMCMC : Type := {
  en_system : System;
  en_lnlike : Lnlike;
  en_num_walkers : nat;
  en_num_threads : nat;
  en_priors : list Prior;
  en_num_params : nat;
  en_curr_pos : list (list F);
  en_chain_attr : option EnsChain;
  en_lnlikes : option EnsLnProb
}.

(** Lines 239-245: for each prior, [num_walkers*num_temps] draws reshaped
    to [(num_temps, num_walkers)]. *)
Fixpoint pt_init_positions (ps : list Prior) (num_temps num_walkers : nat) (g : rng)
  : outcome (list (list (list F))) * rng :=
  match ps with
  | [] => (Done [], g)
  | prior :: r =>
      let (v, g1) := draw_samples prior (num_walkers * num_temps) g in
      match reshape2 num_temps num_walkers v with
      | Fail e => (Fail e, g1)
      | Done random_init =>
          match pt_init_positions r num_temps num_walkers g1 with
          | (Fail e, g2) => (Fail e, g2)
          | (Done rest, g2) => (Done (random_init :: rest), g2)
          end
      end
  end.

(** [PTMCMC.__init__(lnlike, system, num_temps, num_walkers, num_threads)]. *)
Definition PTMCMC_init (like : like_arg) (sys : System)
           (num_temps num_walkers num_threads : nat) (g : rng)
  : outcome PTMCMC * rng :=
  match Sampler_init like with
  | Error e => (Fail (Raised e), g)
  | Ok f =>
      match pt_init_positions (sys_priors sys) num_temps num_walkers g with
      | (Fail e, g1) => (Fail e, g1)
      | (Done init_positions, g1) =>
          match np_dstack init_positions with
          | Fail e => (Fail e, g1)
          | Done pos =>
              (Done {| pt_system := sys; pt_lnlike := f;
                       pt_num_temps := num_temps; pt_num_walkers := num_walkers;
                       pt_num_threads := num_threads;
                       pt_priors := sys_priors sys;
                       pt_num_params := length (sys_priors sys);
                       pt_curr_pos := pos;
                       pt_chain_attr := None; pt_lnlikes := None |}, g1)
          end
      end
  end.

(** [EnsembleMCMC.__init__(lnlike, system, num_walkers, num_threads)]; the
    loop of lines 341-346 draws one row per prior, as [draw_rows] does. *)
Definition EnsembleMCMC_init (like : like_arg) (sys : System)
           (num_walkers num_threads : nat) (g : rng)
  : outcome EnsembleMCMC * rng :=
  match Sampler_init like with
  | Error e => (Fail (Raised e), g)
  | Ok f =>
      let (init_positions, g1) := draw_rows (sys_priors sys) num_walkers g in
      match np_stack init_positions with
      | Fail e => (Fail e, g1)
      | Done stacked =>
          (Done {| en_system := sys; en_lnlike := f;
                   en_num_walkers := num_walkers; en_num_threads := num_threads;
                   en_priors := sys_priors sys;
                   en_num_params := length (sys_priors sys);
                   en_curr_pos := transpose stacked;
                   en_chain_attr := None; en_lnlikes := None |}, g1)
      end
  end.

(** The loop variables after [for pos, lnprob, lnlike in ...: pass]: those
    of the last tuple, or what they were before a loop of no iteration. *)
Definition loop_vars {Y} (before : Y) (l : list Y) : Y :=
  fold_left (fun _ y => y) l before.

Definition PT_sampler (self : PTMCMC) : PTSampler :=
  pt_new (pt_num_walkers self) (pt_num_params self)
         (logl (pt_system self) (pt_lnlike self)) all_lnpriors
         (pt_num_temps self) (pt_num_threads self) [pt_priors self].

(** What a call of [run_sampler] leaves: the sampler it returns or the
    exception, the object after the call, the lines printed, and the
    random generator. *)
Record Run (S Self : Type) : Type := {
  returned : outcome S;
  self_after : Self;
  printed : list string;
  rng_after : rng
}.

(** [PTMCMC.run_sampler(total_orbits, burn_steps, thin)]. *)
Definition PT_run_sampler (self : PTMCMC) (total_orbits burn_steps thin : nat)
           (g : rng) : Run PTSampler PTMCMC :=
  let sampler := PT_sampler self in
  let '(burn, sampler, g) := pt_sample sampler (pt_curr_pos self) burn_steps thin g in
  match raised burn with
  | Some e => {| returned := Fail e; self_after := self; printed := []; rng_after := g |}
  | None =>
      let vars := loop_vars None (map Some (yielded burn)) in
      let sampler := pt_reset sampler in
      match vars with
      | None => {| returned := Fail (UnboundLocalError "pos"); self_after := self;
                   printed := []; rng_after := g |}
      | Some (pos, lnprob, lnlike) =>
          let self := {| pt_system := pt_system self; pt_lnlike := pt_lnlike self;
                         pt_num_temps := pt_num_temps self;
                         pt_num_walkers := pt_num_walkers self;
                         pt_num_threads := pt_num_threads self;
                         pt_priors := pt_priors self;
                         pt_num_params := pt_num_params self;
                         pt_curr_pos := pos;
                         pt_chain_attr := pt_chain_attr self;
                         pt_lnlikes := pt_lnlikes self |} in
          let out := ["Burn in complete"%string] in
          let '(run, sampler, g) := pt_sample sampler pos total_orbits thin g in
          match raised run with
          | Some e => {| returned := Fail e; self_after := self; printed := out;
                         rng_after := g |}
          | None =>
              let '(pos, _, _) := loop_vars (pos, lnprob, lnlike) (yielded run) in
              {| returned := Done sampler;
                 self_after :=
                   {| pt_system := pt_system self; pt_lnlike := pt_lnlike self;
                      pt_num_temps := pt_num_temps self;
                      pt_num_walkers := pt_num_walkers self;
                      pt_num_threads := pt_num_threads self;
                      pt_priors := pt_priors self;
                      pt_num_params := pt_num_params self;
                      pt_curr_pos := pos;
                      pt_chain_attr := Some (pt_chain sampler);
                      pt_lnlikes := Some (pt_logprobability sampler) |};
                 printed := out; rng_after := g |}
          end
      end
  end.

Definition Ensemble_sampler (self : EnsembleMCMC) : EnsSampler :=
  en_new (en_num_walkers self) (en_num_params self)
         (logl (en_system self) (en_lnlike self)) (en_num_threads self).

(** [EnsembleMCMC.run_sampler(total_orbits, burn_steps, thin)]. *)
Definition Ensemble_run_sampler (self : EnsembleMCMC)
           (total_orbits burn_steps thin : nat) (g : rng)
  : Run EnsSampler EnsembleMCMC :=
  let sampler := Ensemble_sampler self in
  let '(burn, sampler, g) :=
    en_sample sampler (en_curr_pos self) None burn_steps thin g in
  match raised burn with
  | Some e => {| returned := Fail e; self_after := self; printed := []; rng_after := g |}
  | None =>
      let vars := loop_vars None (map Some (yielded burn)) in
      let sampler := en_reset sampler in
      match vars with
      | None => {| returned := Fail (UnboundLocalError "pos"); self_after := self;
                   printed := []; rng_after := g |}
      | Some (pos, lnprob, lnlike) =>
          let self := {| en_system := en_system self; en_lnlike := en_lnlike self;
                         en_num_walkers := en_num_walkers self;
                         en_num_threads := en_num_threads self;
                         en_priors := en_priors self;
                         en_num_params := en_num_params self;
                         en_curr_pos := pos;
                         en_chain_attr := en_chain_attr self;
                         en_lnlikes := en_lnlikes self |} in
          let out := ["Burn in complete"%string] in
          let '(run, sampler, g) :=
            en_sample sampler pos (Some lnprob) total_orbits thin g in
          match raised run with
          | Some e => {| returned := Fail e; self_after := self; printed := out;
                         rng_after := g |}
          | None =>
              let '(pos, _, _) := loop_vars (pos, lnprob, lnlike) (yielded run) in
              {| returned := Done sampler;
                 self_after :=
                   {| en_system := en_system self; en_lnlike := en_lnlike self;
                      en_num_walkers := en_num_walkers self;
                      en_num_threads := en_num_threads self;
                      en_priors := en_priors self;
                      en_num_params := en_num_params self;
                      en_curr_pos := pos;
                      en_chain_attr := Some (en_chain sampler);
                      en_lnlikes := Some (en_lnprobability sampler) |};
                 printed := out; rng_after := g |}
          end
      end
  end.

End Mcmc.

(** ** More of the concrete setting

    Systems with a row in ra/dec, with no row, and with three epochs; a
    batch of one candidate whose predictions are NaN; and stand-ins for the
    model, the likelihood and the two MCMC engines: an engine here moves
    every walker by one in every coordinate at each step and yields the
    positions after each step. *)

Module MoreSetting.
Import Binary64 Setting.
Open Scope float_scope.

Definition obs_100 : obs_row :=
  {| epoch := 50000; quant1 := 100; quant1_err := 1; quant2 := 45.5; quant2_err := 1 |}.

(** One epoch, given in ra/dec. *)
Definition radec_system : System :=
  {| sys_priors := priors8 45.5 0; data_table := [obs_100];
     radec := [[]; [0%nat]]; seppa := [[]; []] |}.

Definition radec_sampler : OFTI :=
  {| system := radec_system; lnlike := tt; priors := priors8 45.5 0; tbl := [obs_100];
     radec_idx := [0%nat]; seppa_idx := [];
     sep_observed := [100]; pa_observed := [45.5]; sep_err := [1]; pa_err := [1] |}.

(** Three epochs that differ in the uncertainty of the separation. *)
Definition three_epochs (e1 e2 e3 : float) : list obs_row :=
  [ {| epoch := 50000; quant1 := 100; quant1_err := e1; quant2 := 45.5; quant2_err := 1 |};
    {| epoch := 50100; quant1 := 101; quant1_err := e2; quant2 := 46; quant2_err := 1 |};
    {| epoch := 50200; quant1 := 102; quant1_err := e3; quant2 := 46.5; quant2_err := 1 |} ].

(** One epoch whose position angle is given without uncertainty, and a
    sampler whose prior on the argument of periastron, which the stand-in
    propagator returns as position angle, lies away from it. *)
Definition exact_pa : list obs_row :=
  [ {| epoch := 50000; quant1 := 100; quant1_err := 1; quant2 := 45.5; quant2_err := 0 |} ].

Definition sampler_exact_pa : OFTI := sampler_of (priors8 200 0) exact_pa.

(** One candidate with NaN for its semi-major axis and its argument of
    periastron: both predictions of the stand-in propagator are NaN. *)
Definition nan_batch : list (list float) :=
  [[nan]; [0]; [nan]; [0]; [0]; [0]; [1]; [50]].

(** A run of [run_sampler] that fills a store of two rows in one
    iteration. *)
Definition full_batch : list (list float) :=
  Eval vm_compute in
    match fst (prepare_samples (sampler_at 45.5 0) 2 tape_half) with
    | Ok b => b
    | Error _ => []
    end.

Definition full_tape : tape :=
  Eval vm_compute in snd (prepare_samples (sampler_at 45.5 0) 2 tape_half).

Definition full_out : list (list float) :=
  Eval vm_compute in
    match fst (reject (sampler_at 45.5 0) full_batch full_tape) with
    | Ok o => o
    | Error _ => []
    end.

Definition full_tape' : tape :=
  Eval vm_compute in snd (reject (sampler_at 45.5 0) full_batch full_tape).

(** Stand-in likelihood: per epoch, minus half the squared residual of
    the first quantity against the first parameter. *)
Definition toy_lnlike (f : unit) (data errs : list (list float)) (model : list float)
           (idx : list nat) : list float :=
  map2 (fun d s => let r := (at_ d 0 - at_ model 0) / at_ s 0 in - (r * r) / 2) data errs.

Fixpoint toy_walk {P} (step : P -> P) (p : P) (n : nat) : list P :=
  match n with
  | O => []
  | S n' => step p :: toy_walk step (step p) n'
  end.

Definition step2 (p : list (list float)) : list (list float) :=
  map (map (fun x => x + 1)) p.

Definition step3 (p : list (list (list float))) : list (list (list float)) :=
  map step2 p.

#[export] Instance mcmc_setting : @McmcCollaborators float setting := {
  Model := list float;
  compute_model := fun _ params => params;
  lnlike_call := toy_lnlike;
  all_lnpriors := fun _ _ => 0;
  PTSampler := nat;                  (* the number of steps taken *)
  PTChain := nat;
  PTLogProb := nat;
  pt_new := fun _ _ _ _ _ _ _ => 0%nat;
  pt_sample := fun s p0 iterations _ g =>
    ({| yielded := map (fun p => (p, [], [])) (toy_walk step3 p0 iterations);
        raised := None |}, (s + iterations)%nat, g);
  pt_reset := fun _ => 0%nat;
  pt_chain := fun s => s;
  pt_logprobability := fun s => s;
  EnsSampler := nat;
  EnsChain := nat;
  EnsLnProb := nat;
  RandomState := unit;
  en_new := fun _ _ _ _ => 0%nat;
  en_sample := fun s p0 _ iterations _ g =>
    ({| yielded := map (fun p => (p, [], tt)) (toy_walk step2 p0 iterations);
        raised := None |}, (s + iterations)%nat, g);
  en_reset := fun _ => 0%nat;
  en_chain := fun s => s;
  en_lnprobability := fun s => s
}.

Definition two_priors : list uniform_prior := [(1, 2); (10, 20)].

(** A tape of distinct deviates. *)
Definition tape_ramp : tape := [0; 0.125; 0.25; 0.375; 0.5; 0.625; 0.75; 0.875].

(** [PTMCMC] with two temperatures and two walkers, and [EnsembleMCMC] with
    two walkers, on a system of two priors. *)
Definition pt_22 : PTMCMC :=
  Eval vm_compute in
    match fst (PTMCMC_init by_name (system_of two_priors one_epoch) 2 2 1 tape_ramp) with
    | Done self => self
    | Fail _ =>
        {| pt_system := system_of two_priors one_epoch; pt_lnlike := tt;
           pt_num_temps := 0; pt_num_walkers := 0; pt_num_threads := 0;
           pt_priors := []; pt_num_params := 0; pt_curr_pos := [];
           pt_chain_attr := None; pt_lnlikes := None |}
    end.

(** [PTMCMC] with one temperature and two walkers, and the random generator
    after its construction. *)
Definition pt_12 : PTMCMC :=
  Eval vm_compute in
    match fst (PTMCMC_init by_name (system_of two_priors one_epoch) 1 2 1 tape_ramp) with
    | Done self => self
    | Fail _ => pt_22
    end.

Definition pt_12_tape : tape :=
  Eval vm_compute in
    snd (PTMCMC_init by_name (system_of two_priors one_epoch) 1 2 1 tape_ramp).

Definition en_2 : EnsembleMCMC :=
  Eval vm_compute in
    match fst (EnsembleMCMC_init by_name (system_of two_priors one_epoch) 2 1 tape_ramp) with
    | Done self => self
    | Fail _ =>
        {| en_system := system_of two_priors one_epoch; en_lnlike := tt;
           en_num_walkers := 0; en_num_threads := 0;
           en_priors := []; en_num_params := 0; en_curr_pos := [];
           en_chain_attr := None; en_lnlikes := None |}
    end.

(** The setting with two likelihood objects, [true] being the one
    [orbitize.lnlike] holds under the name chi2_lnlike. *)
Definition setting_two_likes : Collaborators float := {|
  rng := tape;
  random_sample := pop;
  random_normal := normal;
  np_empty_value := fun _ _ => 0;
  np_log := log;
  Prior := uniform_prior;
  draw_sample := draw_uniform;
  calc_orbit1 := propagate;
  radec2seppa1 := to_seppa;
  chi2_lnlike1 := chi2_pair;
  Lnlike := bool;
  lnlike_getattr := fun name => if String.eqb name "chi2_lnlike" then Some true else None;
  G_value := 0x1.258775e37fa03p-34;
  to_day := fun x => x * 0x1.f1fb8c3dd40c1p-12
|}.

Definition system_two_likes : @System float setting_two_likes :=
  @Build_System float setting_two_likes (priors8 45.5 0)
    [ {| epoch := 50000; quant1 := 100; quant1_err := 1;
         quant2 := 45.5; quant2_err := 1 |} ]
    [[]; []] [[]; [0%nat]].

Definition sampler_with (f : bool) : @OFTI float setting_two_likes :=
  @Build_OFTI float setting_two_likes system_two_likes f (priors8 45.5 0)
    (data_table system_two_likes) [] [0%nat] [100] [45.5] [1] [1].

(** One epoch whose separation uncertainty is recorded as -1 mas. *)
Definition negative_err : list obs_row :=
  [ {| epoch := 50000; quant1 := 100; quant1_err := -1; quant2 := 45.5; quant2_err := 1 |} ].






End MoreSetting.

(** * Properties *)

(** ** Lists and arrays *)

Section ArrayFacts.
Context {F : Type} {A : Arith F}.

Lemma draws_length {G T} (d : G -> T * G) n g : length (fst (draws d n g)) = n.
Proof.
  revert g; induction n as [|n IH]; intros g; simpl; [reflexivity|].
  destruct (d g) as [a g1]. specialize (IH g1).
  destruct (draws d n g1) as [l g2]; simpl in *. now rewrite IH.
Qed.

Lemma map2_length {X Y Z} (f : X -> Y -> Z) xs ys :
  length xs = length ys -> length (map2 f xs ys) = length xs.
Proof.
  intros H. unfold map2. rewrite length_map, length_combine. lia.
Qed.

Lemma map2_nth {X Y Z} (f : X -> Y -> Z) xs ys i dx dy dz :
  i < length xs -> i < length ys ->
  nth i (map2 f xs ys) dz = f (nth i xs dx) (nth i ys dy).
Proof.
  revert ys i; induction xs as [|x xs IH]; intros [|y ys] [|i]; simpl; intros; try lia;
    [reflexivity|]. apply IH; lia.
Qed.

Lemma map_seq_nth {T} (f : nat -> T) n i d :
  i < n -> nth i (map f (seq 0 n)) d = f i.
Proof.
  intros H. rewrite (nth_indep _ d (f 0)) by (rewrite length_map, length_seq; exact H).
  rewrite (map_nth f (seq 0 n) 0 i), seq_nth by exact H. reflexivity.
Qed.

Lemma map_nth_in {X T} (f : X -> T) l i dx d :
  i < length l -> nth i (map f l) d = f (nth i l dx).
Proof.
  intros H. rewrite (nth_indep _ d (f dx)) by (rewrite length_map; exact H).
  apply map_nth.
Qed.

Lemma getitem_ok {T} (l : list T) i d :
  i < length l -> getitem l i = Ok (nth i l d).
Proof.
  intros H. unfold getitem. rewrite (nth_error_nth' l d H). reflexivity.
Qed.

Lemma set_at_length {T} i (v : T) l : length (set_at i v l) = length l.
Proof.
  revert i; induction l as [|x l IH]; intros [|i]; simpl; auto.
Qed.

Lemma setitem_length {T} i (v : T) l l' :
  setitem i v l = Ok l' -> length l' = length l.
Proof.
  unfold setitem. destruct (i <? length l); intros H; inversion H.
  apply set_at_length.
Qed.

Lemma set_at_nth_same {T} i (v : T) l d :
  i < length l -> nth i (set_at i v l) d = v.
Proof.
  revert i; induction l as [|x l IH]; intros [|i]; simpl; intros; try lia; auto.
  apply IH; lia.
Qed.

Lemma set_at_nth_other {T} i j (v : T) l d :
  i <> j -> nth j (set_at i v l) d = nth j l d.
Proof.
  revert i j; induction l as [|x l IH]; intros [|i] [|j]; simpl; intros; try congruence; auto.
Qed.

Lemma at_map (f : F -> F) l i : i < length l -> at_ (map f l) i = f (at_ l i).
Proof. intros H. unfold at_. apply map_nth_in. exact H. Qed.

Lemma at_map_from {X} (f : X -> F) l dx i :
  i < length l -> at_ (map f l) i = f (nth i l dx).
Proof. intros H. unfold at_. apply map_nth_in. exact H. Qed.

Lemma wrap_at (l : list F) e :
  e < length l -> at_ (nth e (map (fun x => [x]) l) []) 0 = at_ l e.
Proof.
  intros H. rewrite (map_nth_in _ _ fnan) by exact H. reflexivity.
Qed.

Lemma at_map2 (f : F -> F -> F) xs ys i :
  i < length xs -> i < length ys -> at_ (map2 f xs ys) i = f (at_ xs i) (at_ ys i).
Proof. intros. unfold at_. apply map2_nth; assumption. Qed.

(** The recursion of the pairwise sum does not depend on the fuel, once
    there is as much of it as there are terms. *)
Lemma pairwise_sum_rec_fuel : forall fuel1 fuel2 (l : list F),
  length l <= fuel1 -> length l <= fuel2 ->
  pairwise_sum_rec fuel1 l = pairwise_sum_rec fuel2 l.
Proof.
  induction fuel1 as [|fuel1 IH]; intros fuel2 l H1 H2.
  - destruct l; [|simpl in H1; lia]. destruct fuel2; reflexivity.
  - destruct fuel2 as [|fuel2].
    + destruct l; [reflexivity | simpl in H2; lia].
    + cbn [pairwise_sum_rec].
      destruct (Nat.ltb_spec (length l) 8) as [|H8]; [reflexivity|].
      destruct (Nat.leb_spec (length l) 128) as [|H128]; [reflexivity|].
      assert (Hdiv : 2 * (length l / 2) <= length l) by (apply Nat.Div0.mul_div_le).
      assert (Hhalf : 64 <= length l / 2) by (apply Nat.div_le_lower_bound; lia).
      assert (Hmod : (length l / 2) mod 8 < 8) by (apply Nat.mod_upper_bound; lia).
      assert (Hmodle : (length l / 2) mod 8 <= length l / 2) by (apply Nat.Div0.mod_le).
      f_equal; apply IH; rewrite ?length_firstn, ?length_skipn; lia.
Qed.

(** The pairwise sum, by the number [n] of its terms. *)
Lemma pairwise_sum_eq (l : list F) :
  pairwise_sum l =
  let n := length l in
  if n <? 8 then fold_left fadd l (fconst 0)
  else if n <=? 128 then
    let lane := fun j =>
      fold_left fadd (map (fun b => nth (8 * b + j) l fnan) (seq 1 (n / 8 - 1)))
                (nth j l fnan) in
    fold_left fadd (skipn (n - n mod 8) l)
      (fadd (fadd (fadd (lane 0) (lane 1)) (fadd (lane 2) (lane 3)))
            (fadd (fadd (lane 4) (lane 5)) (fadd (lane 6) (lane 7))))
  else
    let n2 := n / 2 - (n / 2) mod 8 in
    fadd (pairwise_sum (firstn n2 l)) (pairwise_sum (skipn n2 l)).
Proof.
  cbv zeta. unfold pairwise_sum at 1.
  rewrite (@pairwise_sum_rec_fuel (length l) (S (length l)) l) by lia.
  cbn [pairwise_sum_rec].
  destruct (Nat.ltb_spec (length l) 8) as [|H8]; [reflexivity|].
  destruct (Nat.leb_spec (length l) 128) as [|H128]; [reflexivity|].
  assert (Hdiv : 2 * (length l / 2) <= length l) by (apply Nat.Div0.mul_div_le).
  assert (Hhalf : 64 <= length l / 2) by (apply Nat.div_le_lower_bound; lia).
  assert (Hmod : (length l / 2) mod 8 < 8) by (apply Nat.mod_upper_bound; lia).
  assert (Hmodle : (length l / 2) mod 8 <= length l / 2) by (apply Nat.Div0.mod_le).
  unfold pairwise_sum.
  f_equal; apply pairwise_sum_rec_fuel; rewrite ?length_firstn, ?length_skipn; lia.
Qed.

End ArrayFacts.

(** ** Construction *)

Section SamplerFacts.
Context {F : Type} {A : Arith F} {C : Collaborators F}.

Lemma rbind_ok {X Y} (r : result X) (k : X -> result Y) y :
  rbind r k = Ok y -> exists x, r = Ok x /\ k x = Ok y.
Proof.
  destruct r as [x|e]; simpl; intros H; [eauto | discriminate].
Qed.

Lemma convert_row_lengths i so po se pe so' po' se' pe' :
  convert_row i (so, po, se, pe) = Ok (so', po', se', pe') ->
  length so' = length so /\ length po' = length po /\
  length se' = length se /\ length pe' = length pe.
Proof.
  unfold convert_row. intros H.
  apply rbind_ok in H as (s & _ & H). apply rbind_ok in H as (p & _ & H).
  destruct (radec2seppa1 s p) as [s1 p1].
  apply rbind_ok in H as (so1 & Hso & H). apply rbind_ok in H as (po1 & Hpo & H).
  apply rbind_ok in H as (s2 & _ & H). apply rbind_ok in H as (p2 & _ & H).
  destruct (radec2seppa1 s2 p2) as [s3 p3].
  apply rbind_ok in H as (se1 & Hse & H). apply rbind_ok in H as (pe1 & Hpe & H).
  inversion H; subst.
  repeat split; eapply setitem_length; eassumption.
Qed.

Lemma convert_rows_lengths idx so po se pe so' po' se' pe' :
  convert_rows idx (so, po, se, pe) = Ok (so', po', se', pe') ->
  length so' = length so /\ length po' = length po /\
  length se' = length se /\ length pe' = length pe.
Proof.
  revert so po se pe. induction idx as [|i idx IH]; intros so po se pe; simpl.
  - intros H; inversion H; subst; auto.
  - intros H. apply rbind_ok in H as ([[[so1 po1] se1] pe1] & H1 & H).
    apply convert_row_lengths in H1 as (a & b & c & d).
    apply IH in H as (a' & b' & c' & d'). repeat split; congruence.
Qed.

Lemma write_columns_spec (t : list (@obs_row F)) : forall so po se pe : list F,
  length so = length t -> length po = length t ->
  length se = length t -> length pe = length t ->
  length (write_columns t so po se pe) = length t /\
  map epoch (write_columns t so po se pe) = map epoch t /\
  map quant1 (write_columns t so po se pe) = so /\
  map quant2 (write_columns t so po se pe) = po /\
  map quant1_err (write_columns t so po se pe) = se /\
  map quant2_err (write_columns t so po se pe) = pe.
Proof.
  induction t as [|r t IH]; intros [|s so] [|p po] [|es se] [|ep pe] H1 H2 H3 H4;
    try discriminate; cbn [write_columns map length]; [repeat split|].
  injection H1 as H1. injection H2 as H2. injection H3 as H3. injection H4 as H4.
  destruct (IH so po se pe H1 H2 H3 H4) as (a & b & c & d & e & f).
  cbn [epoch quant1 quant2 quant1_err quant2_err].
  rewrite a, b, c, d, e, f. repeat split.
Qed.

(** Writing its own columns into a table leaves it as it is. *)
Lemma write_columns_id (t : list (@obs_row F)) :
  write_columns t (map quant1 t) (map quant2 t) (map quant1_err t) (map quant2_err t) = t.
Proof.
  induction t as [|r t IH]; [reflexivity|]. cbn [map write_columns].
  rewrite IH. destruct r; reflexivity.
Qed.

Lemma OFTI_init_inv sys like self :
  OFTI_init sys like = Ok self ->
  consistent self /\ length (tbl self) = length (data_table sys) /\
  priors self = sys_priors sys.
Proof.
  unfold OFTI_init. intros H.
  apply rbind_ok in H as (f & _ & H). apply rbind_ok in H as (ri & _ & H).
  apply rbind_ok in H as (si & _ & H).
  apply rbind_ok in H as ([[[so po] se] pe] & Hc & H).
  inversion H; subst; clear H. unfold consistent; simpl.
  apply convert_rows_lengths in Hc as (a & b & c & d).
  rewrite !length_map in *.
  destruct (write_columns_spec (data_table sys) so po se pe a b c d) as (Hl & _).
  rewrite Hl. auto.
Qed.

(** The columns of a constructed sampler are those of its table, which is
    the table of its system; the epochs are those of the table given. *)
Lemma OFTI_init_views sys like self :
  OFTI_init sys like = Ok self ->
  map epoch (tbl self) = map epoch (data_table sys) /\
  system self = with_table sys (tbl self) /\
  sep_observed self = map quant1 (tbl self) /\
  pa_observed self = map quant2 (tbl self) /\
  sep_err self = map quant1_err (tbl self) /\
  pa_err self = map quant2_err (tbl self).
Proof.
  unfold OFTI_init. intros H.
  apply rbind_ok in H as (f & _ & H). apply rbind_ok in H as (ri & _ & H).
  apply rbind_ok in H as (si & _ & H).
  apply rbind_ok in H as ([[[so po] se] pe] & Hc & H).
  inversion H; subst; clear H. simpl.
  apply convert_rows_lengths in Hc as (a & b & c & d).
  rewrite !length_map in *.
  destruct (write_columns_spec (data_table sys) so po se pe a b c d)
    as (_ & He & H1 & H2 & H3 & H4).
  rewrite He, H1, H2, H3, H4. repeat split.
Qed.

Lemma tbl_nonempty sys like self :
  OFTI_init sys like = Ok self -> data_table sys <> [] -> tbl self <> [].
Proof.
  intros Hinit Ht E. apply OFTI_init_inv in Hinit as (_ & Hl & _).
  rewrite E in Hl. destruct (data_table sys); [congruence | discriminate Hl].
Qed.

(** ** The scale-and-rotate epoch *)

Lemma argmin_scan_bound l i mp k :
  k <= i -> argmin_scan l (S i) mp k <= i + length l.
Proof.
  revert i mp k. induction l as [|x l IH]; intros i mp k Hk; simpl; [lia|].
  destruct (negb (fleb mp x)).
  - destruct (fisnan x); [lia|]. specialize (IH (S i) x (S i)). lia.
  - specialize (IH (S i) mp k). lia.
Qed.

Lemma np_argmin_bound l k : np_argmin l = Ok k -> k < length l.
Proof.
  destruct l as [|mp r]; simpl; [discriminate|].
  intros H; inversion H; subst; clear H.
  destruct (fisnan mp); [lia|].
  pose proof (argmin_scan_bound r mp (k := 0) (i := 0) (le_n 0)). lia.
Qed.

Lemma np_argmin_total l : l <> [] -> exists k, np_argmin l = Ok k.
Proof.
  destruct l as [|mp r]; [congruence|]. intros _. simpl. eauto.
Qed.

Section Minimal.
Context {O : @ArithOrder F A}.

Lemma argmin_scan_minimal l : forall pre mp min_ind,
  min_ind < length pre ->
  nth min_ind (pre ++ l) fnan = mp ->
  fisnan mp = false ->
  (forall j, j < length pre -> fltb (nth j (pre ++ l) fnan) mp = false) ->
  forall j, j < length (pre ++ l) ->
    fltb (nth j (pre ++ l) fnan)
         (nth (argmin_scan l (length pre) mp min_ind) (pre ++ l) fnan) = false.
Proof.
  induction l as [|x l IH]; intros pre mp min_ind Hk Hmp Hnan Hpre j Hj; simpl.
  - rewrite app_nil_r in *. rewrite Hmp. auto.
  - assert (Hx : nth (length pre) (pre ++ x :: l) fnan = x)
      by (rewrite app_nth2, Nat.sub_diag by lia; reflexivity).
    assert (Hshift : pre ++ x :: l = (pre ++ [x]) ++ l)
      by (rewrite <- app_assoc; reflexivity).
    assert (Hlen : S (length pre) = length (pre ++ [x]))
      by (rewrite length_app; simpl; lia).
    destruct (fleb mp x) eqn:Hle; simpl.
    + rewrite Hshift, Hlen. apply IH; rewrite <- ?Hshift, <- ?Hlen; auto.
      intros i Hi. destruct (Nat.eq_dec i (length pre)) as [->|Hne].
      * rewrite Hx. apply fleb_not_gt; exact Hle.
      * apply Hpre; lia.
    + destruct (fisnan x) eqn:Hxn.
      * rewrite Hx. apply fltb_nan_r; exact Hxn.
      * rewrite Hshift, Hlen. apply IH; rewrite <- ?Hshift, <- ?Hlen; auto.
        intros i Hi. destruct (Nat.eq_dec i (length pre)) as [->|Hne].
        -- rewrite Hx. apply fltb_irrefl.
        -- destruct (fltb (nth i (pre ++ x :: l) fnan) x) eqn:Hlt; [|reflexivity].
           rewrite <- (Hpre i) by lia.
           symmetry. eapply fltb_trans; [exact Hlt|].
           apply fleb_total; assumption.
Qed.

(** [np.argmin] returns an index no entry of the array is strictly below. *)
Lemma np_argmin_minimal l k :
  np_argmin l = Ok k ->
  k < length l /\ forall j, j < length l -> fltb (at_ l j) (at_ l k) = false.
Proof.
  intros H. split; [eapply np_argmin_bound; exact H|].
  destruct l as [|mp r]; simpl in H; [discriminate|].
  inversion H; subst; clear H. unfold at_.
  destruct (fisnan mp) eqn:Hn.
  - intros j _. apply fltb_nan_r. exact Hn.
  - intros j Hj.
    apply (argmin_scan_minimal r [mp] (mp := mp) (min_ind := 0)); simpl; auto; try lia.
    intros i Hi. assert (i = 0) as -> by lia. apply fltb_irrefl.
Qed.

End Minimal.

(** ** [prepare_samples] *)

Lemma draw_rows_shape ps n g : shape2 (length ps) n (fst (draw_rows ps n g)).
Proof.
  revert g. induction ps as [|p ps IH]; intros g; simpl.
  - split; [reflexivity | constructor].
  - unfold draw_samples. pose proof (draws_length (draw_sample p) n g) as Hl.
    destruct (draws (draw_sample p) n g) as [row g1]; simpl in Hl.
    specialize (IH g1). destruct (draw_rows ps n g1) as [rows g2]; simpl in *.
    destruct IH as [IH1 IH2]. split; [simpl; congruence | constructor; assumption].
Qed.

(** The vectorised propagator and conversion, entry by entry. *)
Lemma seppa_at ep sma ecc tau argp lan inc plx mtot i :
  i < length sma ->
  let '(ra, dec, _) := calc_orbit ep sma ecc tau argp lan inc plx mtot in
  let (sep, pa) := radec2seppa ra dec in
  (at_ sep i, at_ pa i) =
  (let '(r, d, _) := calc_orbit1 ep (at_ sma i) (at_ ecc i) (at_ tau i) (at_ argp i)
                       (at_ lan i) (at_ inc i) (at_ plx i) (at_ mtot i) in
   radec2seppa1 r d).
Proof.
  intros Hi. unfold calc_orbit, radec2seppa, at_.
  set (f := fun j => calc_orbit1 ep (nth j sma fnan) (nth j ecc fnan) (nth j tau fnan)
                       (nth j argp fnan) (nth j lan fnan) (nth j inc fnan)
                       (nth j plx fnan) (nth j mtot fnan)).
  set (out := map f (seq 0 (length sma))).
  assert (Hout : length out = length sma) by (unfold out; now rewrite length_map, length_seq).
  set (m := map2 radec2seppa1 (map (fun t => fst (fst t)) out) (map (fun t => snd (fst t)) out)).
  assert (Hm : nth i m (fnan, fnan) = radec2seppa1 (fst (fst (f i))) (snd (fst (f i)))).
  { unfold m. rewrite (map2_nth _ _ _ fnan fnan) by (rewrite length_map; lia).
    rewrite !(map_nth_in _ _ (f 0)) by lia.
    unfold out. rewrite map_seq_nth by lia. reflexivity. }
  assert (Hlm : length m = length sma).
  { unfold m. rewrite map2_length; rewrite !length_map; lia. }
  rewrite !(map_nth_in _ _ (fnan, fnan)) by lia. rewrite Hm.
  unfold f. destruct (calc_orbit1 _ _ _ _ _ _ _ _ _) as [[r d] v]; simpl.
  now destruct (radec2seppa1 r d).
Qed.

Lemma seppa_length ep sma ecc tau argp lan inc plx mtot :
  let '(ra, dec, _) := calc_orbit ep sma ecc tau argp lan inc plx mtot in
  let (sep, pa) := radec2seppa ra dec in
  length sep = length sma /\ length pa = length sma.
Proof.
  unfold calc_orbit, radec2seppa.
  rewrite !length_map, map2_length; rewrite !length_map, length_seq; auto.
Qed.

Lemma unfold_bind_draw {X Y} (d : rng -> X * rng) (k : X -> M rng Y) g :
  bind (draw d) k g = k (fst (d g)) (snd (d g)).
Proof. unfold bind, draw. destruct (d g); reflexivity. Qed.

Lemma unfold_bind_lift_ok {X Y} (x : X) (k : X -> M rng Y) g :
  bind (lift (Ok x)) k g = k x g.
Proof. reflexivity. Qed.

Lemma unfold_bind_lift_error {X Y} e (k : X -> M rng Y) g :
  bind (lift (Error e)) k g = (Error e, g).
Proof. reflexivity. Qed.

Lemma unfold_np_random_normal {Y} loc scale (k : F -> M rng Y) g :
  bind (np_random_normal loc scale) k g =
  if fsignbit scale then (Error ScaleNegative, g)
  else k (fst (random_normal loc scale g)) (snd (random_normal loc scale g)).
Proof.
  unfold np_random_normal. destruct (fsignbit scale); [reflexivity|].
  apply unfold_bind_draw.
Qed.

(** The result of a call on a consistent sampler with eight priors and a
    non-empty table, as arrays. *)
Lemma prepare_samples_run self n g :
  consistent self -> length (priors self) = 8 -> tbl self <> [] ->
  exists k, anchor_idx self = Ok k /\ k < length (tbl self) /\
    let rows := fst (draw_rows (priors self) n g) in
    let g1 := snd (draw_rows (priors self) n g) in
    let meananno := fst (random_uniform n g1) in
    let g2 := snd (random_uniform n g1) in
    let so := fst (random_normal (fconst 0) (at_ (sep_err self) k) g2) in
    let g3 := snd (random_normal (fconst 0) (at_ (sep_err self) k) g2) in
    let po := fst (random_normal (fconst 0) (at_ (pa_err self) k) g3) in
    let g4 := snd (random_normal (fconst 0) (at_ (pa_err self) k) g3) in
    let ep := at_ (map epoch (tbl self)) k in
    exists sma ecc argp lan inc tau mtot plx,
      rows = [sma; ecc; argp; lan; inc; tau; mtot; plx] /\
      Forall (fun r => length r = n) rows /\
      length meananno = n /\
      let tau0 := tau_of ep (kepler_period sma mtot) meananno in
      let radec := fst (calc_orbit ep sma ecc tau0 argp lan inc plx mtot) in
      let sp := radec2seppa (fst radec) (snd radec) in
      let sma' := map2 fmul sma (sma_corr_of so (at_ (sep_observed self) k) (fst sp)) in
      let lan' := map (fun x => np_remainder x two_pi)
                    (map2 fadd lan
                       (map np_radians
                          (lan_corr_of po (at_ (pa_observed self) k) (snd sp)))) in
      let tau' := tau_of ep (kepler_period sma' mtot) meananno in
      prepare_samples self n g =
        if fsignbit (at_ (sep_err self) k) then (Error ScaleNegative, g2)
        else if fsignbit (at_ (pa_err self) k) then (Error ScaleNegative, g3)
        else (Ok [sma'; ecc; argp; lan'; inc; tau'; mtot; plx], g4).
Proof.
  intros (Hso & Hpo & Hse & Hpe) Hp Ht.
  destruct (np_argmin_total (l := sep_err self)) as [k Hk].
  { intros E. rewrite E in Hse. destruct (tbl self); [congruence | discriminate]. }
  pose proof (np_argmin_bound _ Hk) as Hkb. rewrite Hse in Hkb.
  exists k. split; [exact Hk|]. split; [exact Hkb|].
  cbv zeta.
  pose proof (draw_rows_shape (priors self) n g) as [Hlen Hrows].
  destruct (draw_rows (priors self) n g) as [rows g1] eqn:Edr; cbn [fst snd] in *.
  rewrite Hp in Hlen.
  destruct rows as [|sma [|ecc [|argp [|lan [|inc [|tau [|mtot [|plx [|? ?]]]]]]]]];
    try discriminate Hlen.
  pose proof (draws_length random_sample n g1) as Hm. fold (random_uniform n) in Hm.
  destruct (random_uniform n g1) as [m g2] eqn:Eu; cbn [fst snd] in *.
  destruct (random_normal (fconst 0) (at_ (sep_err self) k) g2) as [so g3] eqn:Eso.
  destruct (random_normal (fconst 0) (at_ (pa_err self) k) g3) as [po g4] eqn:Epo.
  cbn [fst snd].
  exists sma, ecc, argp, lan, inc, tau, mtot, plx.
  split; [reflexivity|]. split; [exact Hrows|]. split; [exact Hm|].
  unfold prepare_samples. rewrite unfold_bind_draw, Edr. cbn [fst snd].
  unfold anchor_idx in *. rewrite Hk, unfold_bind_lift_ok.
  unfold scale_and_rotate. simpl unpack8. rewrite unfold_bind_lift_ok.
  rewrite unfold_bind_draw, Eu. cbn [fst snd].
  rewrite (getitem_ok _ fnan) by (rewrite length_map; exact Hkb).
  rewrite unfold_bind_lift_ok. cbn [el_sma el_ecc el_argp el_lan el_inc el_tau el_mtot el_plx].
  fold (at_ (map epoch (tbl self)) k).
  set (ep := at_ (map epoch (tbl self)) k).
  set (tau0 := tau_of ep (kepler_period sma mtot) m).
  destruct (calc_orbit ep sma ecc tau0 argp lan inc plx mtot) as [[ra dec] vc].
  cbn [fst snd].
  destruct (radec2seppa ra dec) as [sep pa].
  rewrite (getitem_ok _ fnan) by (rewrite Hse; exact Hkb).
  rewrite unfold_bind_lift_ok, unfold_np_random_normal. fold (at_ (sep_err self) k).
  destruct (fsignbit (at_ (sep_err self) k)); [reflexivity|].
  rewrite Eso. cbn [fst snd].
  rewrite (getitem_ok _ fnan) by (rewrite Hpe; exact Hkb).
  rewrite unfold_bind_lift_ok, unfold_np_random_normal. fold (at_ (pa_err self) k).
  destruct (fsignbit (at_ (pa_err self) k)); [reflexivity|].
  rewrite Epo. cbn [fst snd].
  rewrite (getitem_ok _ fnan) by (rewrite Hso; exact Hkb).
  rewrite unfold_bind_lift_ok.
  rewrite (getitem_ok _ fnan) by (rewrite Hpo; exact Hkb).
  rewrite unfold_bind_lift_ok.
  fold (at_ (sep_observed self) k). fold (at_ (pa_observed self) k).
  destruct (calc_orbit ep _ ecc _ argp _ inc plx mtot) as [[ra2 dec2] vc2].
  destruct (radec2seppa ra2 dec2). reflexivity.
Qed.

(** The same, entry by entry and in the scalar operations: the two paths
    on which [np.random.normal] refuses an uncertainty, and on the third
    the batch returned. *)
Lemma prepare_samples_entries self n g :
  consistent self -> length (priors self) = 8 -> tbl self <> [] ->
  exists k, anchor_idx self = Ok k /\ k < length (tbl self) /\
    let rows := fst (draw_rows (priors self) n g) in
    let g1 := snd (draw_rows (priors self) n g) in
    let meananno := fst (random_uniform n g1) in
    let g2 := snd (random_uniform n g1) in
    let sep_err_k := at_ (sep_err self) k in
    let pa_err_k := at_ (pa_err self) k in
    let sep_offset := fst (random_normal (fconst 0) sep_err_k g2) in
    let g3 := snd (random_normal (fconst 0) sep_err_k g2) in
    let pa_offset := fst (random_normal (fconst 0) pa_err_k g3) in
    let g4 := snd (random_normal (fconst 0) pa_err_k g3) in
    let negative := fun x => fltb (fcopysign (fconst 1) x) (fconst 0) in
    let ep := at_ (map epoch (tbl self)) k in
    let period := fun sma mtot =>
      to_day (fsqrt (fdiv (fmul (fmul (fconst 4) (fpow fpi 2)) (fpow sma 3))
                          (fmul G_value mtot))) in
    let modulo := fun a b =>
      let md := c_fmod a b in
      if feqb b (fconst 0) then md
      else if feqb md (fconst 0) then fcopysign (fconst 0) b
      else if xorb (fltb b (fconst 0)) (fltb md (fconst 0)) then fadd md b
      else md in
    let corrected : nat -> F * F * F := fun i =>
      let sma := at_ (nth 0 rows []) i in
      let ecc := at_ (nth 1 rows []) i in
      let argp := at_ (nth 2 rows []) i in
      let lan := at_ (nth 3 rows []) i in
      let inc := at_ (nth 4 rows []) i in
      let mtot := at_ (nth 6 rows []) i in
      let plx := at_ (nth 7 rows []) i in
      let m := at_ meananno i in
      let tau0 := fsub (fdiv ep (period sma mtot)) m in
      let radec := fst (calc_orbit1 ep sma ecc tau0 argp lan inc plx mtot) in
      let seppa := radec2seppa1 (fst radec) (snd radec) in
      let sma' := fmul sma (fdiv (fadd sep_offset (at_ (sep_observed self) k))
                                 (fst seppa)) in
      let lan_corr := fsub (fadd pa_offset (at_ (pa_observed self) k)) (snd seppa) in
      let lan' := modulo (fadd lan (fmul lan_corr (fdiv fpi (fconst 180))))
                         (fmul (fconst 2) fpi) in
      let tau' := fsub (fdiv ep (period sma' mtot)) m in
      (sma', lan', tau') in
    length rows = 8 /\ Forall (fun r => length r = n) rows /\
    (negative sep_err_k = true ->
     prepare_samples self n g = (Error ScaleNegative, g2)) /\
    (negative sep_err_k = false -> negative pa_err_k = true ->
     prepare_samples self n g = (Error ScaleNegative, g3)) /\
    (negative sep_err_k = false -> negative pa_err_k = false ->
     exists out,
       prepare_samples self n g = (Ok out, g4) /\
       shape2 8 n out /\
       (forall j, j <> 0 -> j <> 3 -> j <> 5 -> nth j out [] = nth j rows []) /\
       forall i, i < n ->
         (at_ (nth 0 out []) i, at_ (nth 3 out []) i, at_ (nth 5 out []) i)
         = corrected i).
Proof.
  intros Hc Hp Ht.
  destruct (prepare_samples_run n g Hc Hp Ht) as (k & Hk & Hkb & H).
  exists k. split; [exact Hk|]. split; [exact Hkb|].
  cbv zeta in H.
  destruct H as (sma & ecc & argp & lan & inc & tau & mtot & plx & Hrows & Hall & Hm & Hrun).
  cbv zeta. rewrite Hrows in *. cbn [nth].
  fold (fsignbit (at_ (sep_err self) k)). fold (fsignbit (at_ (pa_err self) k)).
  set (g1 := snd (draw_rows (priors self) n g)) in *.
  set (m := fst (random_uniform n g1)) in *.
  set (g2 := snd (random_uniform n g1)) in *.
  set (so := fst (random_normal (fconst 0) (at_ (sep_err self) k) g2)) in *.
  set (g3 := snd (random_normal (fconst 0) (at_ (sep_err self) k) g2)) in *.
  set (po := fst (random_normal (fconst 0) (at_ (pa_err self) k) g3)) in *.
  set (g4 := snd (random_normal (fconst 0) (at_ (pa_err self) k) g3)) in *.
  set (ep := at_ (map epoch (tbl self)) k) in *.
  split; [reflexivity|]. split; [exact Hall|].
  split; [intros Hs; rewrite Hrun, Hs; reflexivity|].
  split; [intros Hs1 Hs2; rewrite Hrun, Hs1, Hs2; reflexivity|].
  intros Hs1 Hs2. rewrite Hs1, Hs2 in Hrun. clear Hs1 Hs2.
  eexists. split; [exact Hrun|]. clear Hrun.
  repeat match goal with
         | H : Forall _ (_ :: _) |- _ => inversion H; clear H
         end.
  set (tau0 := tau_of ep (kepler_period sma mtot) m).
  pose proof (seppa_length ep sma ecc tau0 argp lan inc plx mtot) as Hlen.
  assert (Hat : forall i, i < n ->
            let '(ra, dec, _) := calc_orbit ep sma ecc tau0 argp lan inc plx mtot in
            let (sep, pa) := radec2seppa ra dec in
            (at_ sep i, at_ pa i) =
            (let '(r, d, _) := calc_orbit1 ep (at_ sma i) (at_ ecc i) (at_ tau0 i)
                                 (at_ argp i) (at_ lan i) (at_ inc i) (at_ plx i)
                                 (at_ mtot i) in
             radec2seppa1 r d)).
  { intros i Hi. apply seppa_at. lia. }
  destruct (calc_orbit ep sma ecc tau0 argp lan inc plx mtot) as [[ra dec] vc].
  cbn [fst snd].
  destruct (radec2seppa ra dec) as [sep pa]. destruct Hlen as [Hls Hlp].
  cbn [fst snd] in *.
  assert (Hlsma : length (map2 fmul sma (sma_corr_of so (at_ (sep_observed self) k) sep)) = n)
    by (rewrite map2_length; unfold sma_corr_of; rewrite ?length_map; lia).
  split; [|split].
  - split; [reflexivity|]. repeat constructor; try assumption.
    + rewrite length_map, map2_length; unfold lan_corr_of; rewrite ?length_map; lia.
    + unfold tau_of, kepler_period.
      match goal with
      | |- length (map2 _ ?p _) = _ =>
          assert (Hper : length p = n) by (rewrite map2_length; lia)
      end.
      rewrite map2_length; lia.
  - intros [|[|[|[|[|[|j]]]]]] Hj0 Hj3 Hj5; try congruence; reflexivity.
  - intros i Hi. specialize (Hat i Hi).
    assert (Htau0 : at_ tau0 i
                    = fsub (fdiv ep (kepler_period1 (at_ sma i) (at_ mtot i))) (at_ m i)).
    { unfold tau0, tau_of, kepler_period.
      rewrite at_map2 by (rewrite ?map2_length; lia).
      rewrite at_map2 by lia. reflexivity. }
    rewrite Htau0 in Hat. unfold kepler_period1 in Hat.
    destruct (calc_orbit1 ep (at_ sma i) (at_ ecc i) _ (at_ argp i) (at_ lan i)
                          (at_ inc i) (at_ plx i) (at_ mtot i)) as [[r dd] v].
    cbn [fst snd].
    destruct (radec2seppa1 r dd) as [s p]. inversion Hat as [[Hs Hpa]]. cbn [fst snd].
    assert (Hsma : at_ (map2 fmul sma (sma_corr_of so (at_ (sep_observed self) k) sep)) i
                   = fmul (at_ sma i) (fdiv (fadd so (at_ (sep_observed self) k)) (at_ sep i))).
    { unfold sma_corr_of. rewrite at_map2 by (rewrite ?length_map; lia).
      rewrite at_map by lia. reflexivity. }
    cbn [nth]. f_equal; [f_equal|].
    + exact Hsma.
    + unfold lan_corr_of. rewrite at_map by (rewrite map2_length; rewrite ?length_map; lia).
      rewrite at_map2 by (rewrite ?length_map; lia).
      rewrite !at_map by (rewrite ?length_map; lia). reflexivity.
    + unfold tau_of, kepler_period.
      assert (Hlk : length (map2 kepler_period1
                              (map2 fmul sma (sma_corr_of so (at_ (sep_observed self) k) sep))
                              mtot) = n)
        by (rewrite map2_length; lia).
      rewrite at_map2 by lia. rewrite at_map2 by lia. rewrite Hsma. reflexivity.
Qed.

Lemma list_eq_map_seq (l : list F) n (f : nat -> F) :
  length l = n -> (forall i, i < n -> at_ l i = f i) -> l = map f (seq 0 n).
Proof.
  intros Hl Hf. apply (nth_ext _ _ fnan fnan).
  - now rewrite length_map, length_seq.
  - intros i Hi. rewrite map_seq_nth by lia. apply Hf. lia.
Qed.

(** C3: the corrections of scale-and-rotate, for a constructed sampler
    with eight priors and a table of at least one row.  [k] is the
    scale-and-rotate epoch.  One separation offset and one position-angle
    offset are drawn per call, after the rows from the priors and the mean
    anomalies, from normal distributions centred at zero whose scales are
    the two uncertainties of epoch [k]; an uncertainty with the sign bit
    set makes the call raise at its draw.  Otherwise, for candidate [i] of
    the batch returned, the semi-major axis is the drawn one times
    (offset + observed separation) / predicted separation; the longitude of
    ascending node is the drawn one plus the correction (offset + observed
    position angle - predicted position angle), taken from degrees to
    radians, reduced modulo 2 pi; and the time of periastron is
    epoch / period - mean anomaly, the period being that of Kepler's third
    law, sqrt (4 pi^2 sma^3 / (G mtot)) in days, for the corrected
    semi-major axis, and the mean anomaly the one drawn before the
    correction. *)
Theorem prepare_samples_corrections sys like self n g :
  OFTI_init sys like = Ok self ->
  length (sys_priors sys) = 8 ->
  data_table sys <> [] ->
  exists k,
    anchor_idx self = Ok k /\
    let rows := fst (draw_rows (priors self) n g) in
    let g1 := snd (draw_rows (priors self) n g) in
    let meananno := fst (random_uniform n g1) in
    let g2 := snd (random_uniform n g1) in
    let sep_err_k := at_ (sep_err self) k in
    let pa_err_k := at_ (pa_err self) k in
    let sep_offset := fst (random_normal (fconst 0) sep_err_k g2) in
    let g3 := snd (random_normal (fconst 0) sep_err_k g2) in
    let pa_offset := fst (random_normal (fconst 0) pa_err_k g3) in
    let g4 := snd (random_normal (fconst 0) pa_err_k g3) in
    let negative := fun x => fltb (fcopysign (fconst 1) x) (fconst 0) in
    let ep := at_ (map epoch (tbl self)) k in
    let period := fun sma mtot =>
      to_day (fsqrt (fdiv (fmul (fmul (fconst 4) (fpow fpi 2)) (fpow sma 3))
                          (fmul G_value mtot))) in
    let modulo := fun a b =>
      let md := c_fmod a b in
      if feqb b (fconst 0) then md
      else if feqb md (fconst 0) then fcopysign (fconst 0) b
      else if xorb (fltb b (fconst 0)) (fltb md (fconst 0)) then fadd md b
      else md in
    let corrected : nat -> F * F * F := fun i =>
      let sma := at_ (nth 0 rows []) i in
      let ecc := at_ (nth 1 rows []) i in
      let argp := at_ (nth 2 rows []) i in
      let lan := at_ (nth 3 rows []) i in
      let inc := at_ (nth 4 rows []) i in
      let mtot := at_ (nth 6 rows []) i in
      let plx := at_ (nth 7 rows []) i in
      let m := at_ meananno i in
      let tau0 := fsub (fdiv ep (period sma mtot)) m in
      let radec := fst (calc_orbit1 ep sma ecc tau0 argp lan inc plx mtot) in
      let seppa := radec2seppa1 (fst radec) (snd radec) in
      let sma' := fmul sma (fdiv (fadd sep_offset (at_ (sep_observed self) k))
                                 (fst seppa)) in
      let lan_corr := fsub (fadd pa_offset (at_ (pa_observed self) k)) (snd seppa) in
      let lan' := modulo (fadd lan (fmul lan_corr (fdiv fpi (fconst 180))))
                         (fmul (fconst 2) fpi) in
      let tau' := fsub (fdiv ep (period sma' mtot)) m in
      (sma', lan', tau') in
    (negative sep_err_k = true ->
     prepare_samples self n g = (Error ScaleNegative, g2)) /\
    (negative sep_err_k = false -> negative pa_err_k = true ->
     prepare_samples self n g = (Error ScaleNegative, g3)) /\
    (negative sep_err_k = false -> negative pa_err_k = false ->
     exists out,
       prepare_samples self n g = (Ok out, g4) /\
       forall i, i < n ->
         (at_ (nth 0 out []) i, at_ (nth 3 out []) i, at_ (nth 5 out []) i)
         = corrected i).
Proof.
  intros Hinit Hp Ht. pose proof (tbl_nonempty _ _ Hinit Ht) as Ht'.
  apply OFTI_init_inv in Hinit as (Hc & _ & Hpr). rewrite <- Hpr in Hp.
  destruct (prepare_samples_entries n g Hc Hp Ht') as (k & Hk & _ & H).
  exists k. split; [exact Hk|]. cbv zeta in *.
  destruct H as (_ & _ & H1 & H2 & H3).
  split; [exact H1|]. split; [exact H2|].
  intros Hs1 Hs2. destruct (H3 Hs1 Hs2) as (out & Hrun & _ & _ & Hent).
  exists out. split; [exact Hrun | exact Hent].
Qed.

(** C7: on the path on which [prepare_samples] returns, the batch is the
    one drawn from the priors with rows 0 (semi-major axis), 3 (longitude
    of ascending node) and 5 (time of periastron) overwritten by the
    corrected values of C3, candidate by candidate; rows 1, 2, 4, 6 and 7
    are the rows drawn. *)
Theorem prepare_samples_frame sys like self n g :
  OFTI_init sys like = Ok self ->
  length (sys_priors sys) = 8 ->
  data_table sys <> [] ->
  exists k,
    anchor_idx self = Ok k /\
    let rows := fst (draw_rows (priors self) n g) in
    let g1 := snd (draw_rows (priors self) n g) in
    let meananno := fst (random_uniform n g1) in
    let g2 := snd (random_uniform n g1) in
    let sep_err_k := at_ (sep_err self) k in
    let pa_err_k := at_ (pa_err self) k in
    let sep_offset := fst (random_normal (fconst 0) sep_err_k g2) in
    let g3 := snd (random_normal (fconst 0) sep_err_k g2) in
    let pa_offset := fst (random_normal (fconst 0) pa_err_k g3) in
    let g4 := snd (random_normal (fconst 0) pa_err_k g3) in
    let negative := fun x => fltb (fcopysign (fconst 1) x) (fconst 0) in
    let ep := at_ (map epoch (tbl self)) k in
    let period := fun sma mtot =>
      to_day (fsqrt (fdiv (fmul (fmul (fconst 4) (fpow fpi 2)) (fpow sma 3))
                          (fmul G_value mtot))) in
    let modulo := fun a b =>
      let md := c_fmod a b in
      if feqb b (fconst 0) then md
      else if feqb md (fconst 0) then fcopysign (fconst 0) b
      else if xorb (fltb b (fconst 0)) (fltb md (fconst 0)) then fadd md b
      else md in
    let corrected : nat -> F * F * F := fun i =>
      let sma := at_ (nth 0 rows []) i in
      let ecc := at_ (nth 1 rows []) i in
      let argp := at_ (nth 2 rows []) i in
      let lan := at_ (nth 3 rows []) i in
      let inc := at_ (nth 4 rows []) i in
      let mtot := at_ (nth 6 rows []) i in
      let plx := at_ (nth 7 rows []) i in
      let m := at_ meananno i in
      let tau0 := fsub (fdiv ep (period sma mtot)) m in
      let radec := fst (calc_orbit1 ep sma ecc tau0 argp lan inc plx mtot) in
      let seppa := radec2seppa1 (fst radec) (snd radec) in
      let sma' := fmul sma (fdiv (fadd sep_offset (at_ (sep_observed self) k))
                                 (fst seppa)) in
      let lan_corr := fsub (fadd pa_offset (at_ (pa_observed self) k)) (snd seppa) in
      let lan' := modulo (fadd lan (fmul lan_corr (fdiv fpi (fconst 180))))
                         (fmul (fconst 2) fpi) in
      let tau' := fsub (fdiv ep (period sma' mtot)) m in
      (sma', lan', tau') in
    negative sep_err_k = false -> negative pa_err_k = false ->
    exists out,
      prepare_samples self n g = (Ok out, g4) /\
      length rows = 8 /\ length out = 8 /\
      (forall j, j <> 0 -> j <> 3 -> j <> 5 -> nth j out [] = nth j rows []) /\
      nth 0 out [] = map (fun i => fst (fst (corrected i))) (seq 0 n) /\
      nth 3 out [] = map (fun i => snd (fst (corrected i))) (seq 0 n) /\
      nth 5 out [] = map (fun i => snd (corrected i)) (seq 0 n).
Proof.
  intros Hinit Hp Ht. pose proof (tbl_nonempty _ _ Hinit Ht) as Ht'.
  apply OFTI_init_inv in Hinit as (Hc & _ & Hpr). rewrite <- Hpr in Hp.
  destruct (prepare_samples_entries n g Hc Hp Ht') as (k & Hk & _ & H).
  exists k. split; [exact Hk|]. cbv zeta in *.
  destruct H as (Hlen & _ & _ & _ & H3).
  intros Hs1 Hs2. destruct (H3 Hs1 Hs2) as (out & Hrun & [Ho Hrows] & Hframe & Hent).
  exists out. split; [exact Hrun|]. split; [exact Hlen|]. split; [exact Ho|].
  split; [exact Hframe|].
  assert (Hrow : forall j, j < 8 -> length (nth j out []) = n).
  { intros j Hj. rewrite Forall_forall in Hrows. apply Hrows. apply nth_In. lia. }
  split; [|split]; apply list_eq_map_seq; try (apply Hrow; lia);
    intros i Hi; rewrite <- (Hent i Hi); reflexivity.
Qed.

Lemma unpack8_error (l : list (list F)) :
  length l <> 8 -> unpack8 l = Error (UnpackError (length l)).
Proof.
  destruct l as [|? [|? [|? [|? [|? [|? [|? [|? [|? ?]]]]]]]]]; simpl; intros H;
    try reflexivity. congruence.
Qed.

Lemma prepare_samples_error self n g :
  length (sep_err self) = length (tbl self) ->
  length (priors self) <> 8 \/ tbl self = [] ->
  prepare_samples self n g =
  (Error (match tbl self with
          | [] => ArgminEmpty
          | _ :: _ => UnpackError (length (priors self))
          end),
   snd (draw_rows (priors self) n g)).
Proof.
  intros Hse Hbad. unfold prepare_samples. rewrite unfold_bind_draw.
  pose proof (draw_rows_shape (priors self) n g) as [Hlen _].
  destruct (draw_rows (priors self) n g) as [rows g1]; cbn [fst snd] in *.
  unfold anchor_idx. destruct (sep_err self) as [|x r] eqn:E.
  - destruct (tbl self); [|discriminate Hse].
    cbn [np_argmin]. rewrite unfold_bind_lift_error. reflexivity.
  - destruct (tbl self) as [|row t] eqn:Et; [discriminate Hse|].
    destruct Hbad as [Hp|Ht]; [|discriminate Ht].
    cbn [np_argmin]. rewrite unfold_bind_lift_ok. unfold scale_and_rotate.
    rewrite unpack8_error by congruence. rewrite unfold_bind_lift_error.
    rewrite Hlen. reflexivity.
Qed.

(** C9, as the code has it: construction does not look at the number of
    priors, so a prior set of another size than eight is accepted whenever
    the same system with any other prior set is.  The mismatch is met by
    the first call of [prepare_samples], which raises at the unpacking into
    the eight element names (at the argmin before it when the table has no
    row).  The state of the random generator it leaves is the one after the
    draws from the priors: neither the mean anomalies nor the offsets have
    been drawn, so none of the sampling arithmetic has been evaluated.  The
    first iteration of [run_sampler] ends the same way. *)
Theorem prior_count_checked_at_first_call sys like self :
  OFTI_init sys like = Ok self ->
  length (sys_priors sys) <> 8 ->
  (forall ps, exists self', OFTI_init (with_priors sys ps) like = Ok self') /\
  forall n g,
    let e := match data_table sys with
             | [] => ArgminEmpty
             | _ :: _ => UnpackError (length (sys_priors sys))
             end in
    let g' := snd (draw_rows (sys_priors sys) n g) in
    prepare_samples self n g = (Error e, g') /\
    forall fuel total_orbits, 0 < total_orbits ->
      run_sampler (S fuel) self total_orbits n g = Some (Error e, g').
Proof.
  intros Hinit Hp. split.
  - intros ps. unfold OFTI_init in *. cbn [with_priors data_table radec seppa].
    apply rbind_ok in Hinit as (f & E1 & H). apply rbind_ok in H as (ri & E2 & H).
    apply rbind_ok in H as (si & E3 & H).
    apply rbind_ok in H as ([[[so po] se] pe] & E4 & H).
    rewrite E1; cbn [rbind]. rewrite E2; cbn [rbind]. rewrite E3; cbn [rbind].
    rewrite E4; cbn [rbind]. eauto.
  - intros n g e g'.
    apply OFTI_init_inv in Hinit as ((_ & _ & Hse & _) & Htbl & Hpr).
    assert (Hrun : prepare_samples self n g = (Error e, g')).
    { rewrite (prepare_samples_error self n g Hse) by (left; congruence).
      unfold e, g'. rewrite Hpr.
      destruct (tbl self), (data_table sys); try discriminate Htbl; reflexivity. }
    split; [exact Hrun|].
    intros fuel T HT. unfold run_sampler. cbn [run_loop].
    destruct (Nat.ltb_spec 0 T) as [_|]; [|lia]. rewrite Hrun. reflexivity.
Qed.

(** ** [reject] *)

Lemma calc_orbit_at ep sma ecc tau argp lan inc plx mtot i :
  i < length sma ->
  let c := calc_orbit ep sma ecc tau argp lan inc plx mtot in
  let c1 := calc_orbit1 ep (at_ sma i) (at_ ecc i) (at_ tau i) (at_ argp i)
                        (at_ lan i) (at_ inc i) (at_ plx i) (at_ mtot i) in
  at_ (fst (fst c)) i = fst (fst c1) /\ at_ (snd (fst c)) i = snd (fst c1).
Proof.
  intros Hi. unfold calc_orbit. cbn [fst snd]. unfold at_.
  rewrite !(map_nth_in _ _ (fnan, fnan, fnan)) by (rewrite length_map, length_seq; lia).
  rewrite map_seq_nth by lia. split; reflexivity.
Qed.

Lemma seppa_at_proj ep sma ecc tau argp lan inc plx mtot i :
  i < length sma ->
  let c := calc_orbit ep sma ecc tau argp lan inc plx mtot in
  let sp := radec2seppa (fst (fst c)) (snd (fst c)) in
  let c1 := calc_orbit1 ep (at_ sma i) (at_ ecc i) (at_ tau i) (at_ argp i)
                        (at_ lan i) (at_ inc i) (at_ plx i) (at_ mtot i) in
  at_ (fst sp) i = fst (radec2seppa1 (fst (fst c1)) (snd (fst c1))) /\
  at_ (snd sp) i = snd (radec2seppa1 (fst (fst c1)) (snd (fst c1))).
Proof.
  intros Hi. cbv zeta.
  pose proof (seppa_at ep sma ecc tau argp lan inc plx mtot Hi) as H.
  destruct (calc_orbit ep sma ecc tau argp lan inc plx mtot) as [[ra dec] vc].
  cbn [fst snd]. destruct (radec2seppa ra dec) as [sep pa].
  destruct (calc_orbit1 _ _ _ _ _ _ _ _ _) as [[r d] v]. cbn [fst snd].
  destruct (radec2seppa1 r d). inversion H. auto.
Qed.

(** The predicted separations and position angles that [reject] works
    with, for every epoch and orbit, in either shape of the propagator's
    result. *)
Lemma reject_rows epochs sma ecc tau argp lan inc plx mtot :
  0 < length sma ->
  let c := calc_orbit_epochs epochs sma ecc tau argp lan inc plx mtot in
  let sp := radec2seppa_nd (fst (fst c)) (snd (fst c)) in
  let sep := as_rows (fst sp) in
  let pa := as_rows (snd sp) in
  length sep = length epochs /\ length pa = length epochs /\
  forall e i, e < length epochs -> i < length sma ->
    let c1 := calc_orbit1 (at_ epochs e) (at_ sma i) (at_ ecc i) (at_ tau i)
                          (at_ argp i) (at_ lan i) (at_ inc i) (at_ plx i)
                          (at_ mtot i) in
    at_ (nth e sep []) i = fst (radec2seppa1 (fst (fst c1)) (snd (fst c1))) /\
    at_ (nth e pa []) i = snd (radec2seppa1 (fst (fst c1)) (snd (fst c1))).
Proof.
  intros Hn. unfold calc_orbit_epochs, squeeze_orbits. cbn [fst snd].
  set (out := map (fun ep => calc_orbit ep sma ecc tau argp lan inc plx mtot) epochs).
  assert (Hout : length out = length epochs) by (unfold out; now rewrite length_map).
  assert (Hnth : forall e, e < length epochs ->
            nth e out ([], [], []) = calc_orbit (at_ epochs e) sma ecc tau argp lan inc plx mtot).
  { intros e He. unfold out, at_. rewrite (map_nth_in _ _ fnan) by exact He.
    reflexivity. }
  destruct (length sma =? 1) eqn:E1.
  - apply Nat.eqb_eq in E1. cbn [radec2seppa_nd]. unfold radec2seppa. cbn [fst snd as_rows].
    set (o := map2 radec2seppa1 _ _).
    assert (Ho : length o = length epochs)
      by (unfold o; rewrite map2_length; rewrite !length_map; lia).
    rewrite !length_map. split; [exact Ho|]. split; [exact Ho|].
    intros e i He Hi. assert (i = 0) as -> by lia. cbv zeta.
    destruct (calc_orbit_at (at_ epochs e) sma ecc tau argp lan inc plx mtot Hn) as [Hr Hd].
    cbv zeta in Hr, Hd.
    assert (Hoe : nth e o (fnan, fnan) =
                  radec2seppa1
                    (at_ (fst (fst (calc_orbit (at_ epochs e) sma ecc tau argp lan inc plx mtot))) 0)
                    (at_ (snd (fst (calc_orbit (at_ epochs e) sma ecc tau argp lan inc plx mtot))) 0)).
    { unfold o. rewrite (map2_nth _ _ _ fnan fnan) by (rewrite !length_map; lia).
      rewrite !(map_nth_in _ _ []) by (rewrite length_map; lia).
      rewrite !(map_nth_in _ _ ([], [], [])) by lia.
      rewrite Hnth by exact He. reflexivity. }
    rewrite Hr, Hd in Hoe.
    rewrite !wrap_at by (rewrite length_map; lia).
    rewrite !(at_map_from _ _ (fnan, fnan)) by lia.
    rewrite Hoe. split; reflexivity.
  - cbn [radec2seppa_nd as_rows fst snd].
    set (o := map2 radec2seppa _ _).
    assert (Ho : length o = length epochs)
      by (unfold o; rewrite map2_length; rewrite !length_map; lia).
    rewrite !length_map. split; [exact Ho|]. split; [exact Ho|].
    intros e i He Hi. cbv zeta.
    rewrite !(map_nth_in _ _ ([], [])) by lia.
    unfold o. rewrite (map2_nth _ _ _ [] []) by (rewrite !length_map; lia).
    rewrite !(map_nth_in _ _ ([], [], [])) by lia.
    rewrite Hnth by exact He.
    apply (seppa_at_proj (at_ epochs e) sma ecc tau argp lan inc plx mtot Hi).
Qed.

Lemma seppa_blocks_ok sep pa idx :
  length sep = length pa ->
  seppa_blocks sep pa idx =
  Ok (map (fun i => map2 (fun x y : F => [x; y])
                         (map (fun x => at_ x i) sep) (map (fun x => at_ x i) pa)) idx).
Proof.
  intros H. induction idx as [|i idx IH]; simpl; [reflexivity|].
  unfold seppa_block, column_stack. rewrite !length_map, H, Nat.eqb_refl.
  cbn [rbind]. rewrite IH. reflexivity.
Qed.

Lemma column_stack_ok a b :
  length a = length b -> column_stack a b = Ok (map2 (fun x y : F => [x; y]) a b).
Proof. intros H. unfold column_stack. now rewrite H, Nat.eqb_refl. Qed.

Lemma rollaxis_ok (blocks : list (list (list F))) e :
  blocks <> [] ->
  rollaxis_0_3 blocks e =
  Ok (map (fun ie => map (fun q => map (fun b => at_ (nth ie b []) q) blocks) [0; 1])
          (seq 0 e)).
Proof. destruct blocks; [congruence | reflexivity]. Qed.

Lemma pair_of_stack a b e :
  e < length a -> e < length b ->
  pair_of (nth e (map2 (fun x y : F => [x; y]) a b) []) = (at_ a e, at_ b e).
Proof.
  intros Ha Hb. rewrite (map2_nth _ _ _ fnan fnan) by assumption. reflexivity.
Qed.

Lemma flat_map_map {X Y Z} (f : Y -> list Z) (h : X -> Y) l :
  flat_map f (map h l) = flat_map (fun x => f (h x)) l.
Proof. induction l as [|x l IH]; simpl; [reflexivity | now rewrite IH]. Qed.

Lemma flat_map_ext_seq {Z} (f h : nat -> list Z) n :
  (forall i, i < n -> f i = h i) -> flat_map f (seq 0 n) = flat_map h (seq 0 n).
Proof.
  intros H. assert (G : forall l, (forall i, In i l -> i < n) -> flat_map f l = flat_map h l).
  { induction l as [|x l IH]; simpl; intros Hl; [reflexivity|].
    rewrite H by (apply Hl; now left). rewrite IH; [reflexivity|].
    intros i Hi. apply Hl. now right. }
  apply G. intros i Hi. apply in_seq in Hi. lia.
Qed.

Lemma map_ext_seq {Z} (f h : nat -> Z) n :
  (forall i, i < n -> f i = h i) -> map f (seq 0 n) = map h (seq 0 n).
Proof.
  intros H. apply map_ext_in. intros i Hi. apply in_seq in Hi. apply H. lia.
Qed.

(** The NaN-safe sums of [reject] are, orbit by orbit, the sums of the
    orbit's chi-square terms. *)
Lemma chi2_sum_terms self batch n sep pa :
  consistent self ->
  length sep = length (tbl self) -> length pa = length (tbl self) ->
  (forall e i, e < length (tbl self) -> i < n ->
     (at_ (nth e sep []) i, at_ (nth e pa []) i)
     = predicted (at_ (map epoch (tbl self)) e) batch i) ->
  0 < n ->
  exists data errs blocks model,
    column_stack (sep_observed self) (pa_observed self) = Ok data /\
    column_stack (sep_err self) (pa_err self) = Ok errs /\
    seppa_blocks sep pa (seq 0 n) = Ok blocks /\
    rollaxis_0_3 blocks (length sep) = Ok model /\
    nansum_axis01 n (chi2_lnlike data errs model (seppa_idx self) n)
    = map (fun i => np_nansum (chi2_terms self batch i)) (seq 0 n).
Proof.
  intros (Hso & Hpo & Hse & Hpe) Hls Hlp Hpred Hn.
  eexists _, _, _, _.
  split; [apply column_stack_ok; congruence|].
  split; [apply column_stack_ok; congruence|].
  split; [apply seppa_blocks_ok; congruence|].
  set (B := fun i => map2 (fun x y : F => [x; y])
                       (map (fun x => at_ x i) sep) (map (fun x => at_ x i) pa)).
  set (blocks := map B (seq 0 n)).
  assert (Hb : blocks <> []).
  { unfold blocks. destruct n; [lia|]. discriminate. }
  split.
  { apply rollaxis_ok. exact Hb. }
  unfold nansum_axis01. apply map_ext_seq. intros i Hi. f_equal.
  unfold chi2_lnlike. rewrite length_map, length_seq, flat_map_map, Hls.
  unfold chi2_terms. apply flat_map_ext_seq. intros e He.
  rewrite !pair_of_stack by lia.
  rewrite map_seq_nth by lia. cbn [map nth].
  rewrite !(at_map_from _ _ (fnan, fnan)) by (rewrite length_map, length_seq; lia).
  rewrite map_seq_nth by lia.
  unfold blocks. rewrite !(at_map_from _ _ []) by (rewrite length_map, length_seq; lia).
  rewrite !(map_nth_in _ _ 0) by (rewrite length_seq; lia). rewrite seq_nth by lia.
  cbn [Nat.add]. unfold B.
  rewrite (map2_nth _ _ _ fnan fnan) by (rewrite length_map; lia).
  rewrite !(map_nth_in _ _ []) by lia.
  unfold at_ at 1 2. cbn [nth]. rewrite <- Hpred by lia.
  destruct (chi2_lnlike1 _ _ _ _ _). reflexivity.
Qed.

Lemma predicted_rows ep sma ecc argp lan inc tau mtot plx i :
  predicted ep [sma; ecc; argp; lan; inc; tau; mtot; plx] i =
  (let c1 := calc_orbit1 ep (at_ sma i) (at_ ecc i) (at_ tau i) (at_ argp i)
                         (at_ lan i) (at_ inc i) (at_ plx i) (at_ mtot i) in
   radec2seppa1 (fst (fst c1)) (snd (fst c1))).
Proof.
  cbv [predicted column map at_ nth].
  destruct (calc_orbit1 _ _ _ _ _ _ _ _ _) as [[r d] v]. reflexivity.
Qed.

Lemma np_where_filter (lnp rs : list F) n :
  length lnp = n -> length rs = n ->
  np_where (map2 (fun l r => fltb r l) lnp rs) =
  filter (fun i => fltb (at_ rs i) (at_ lnp i)) (seq 0 n).
Proof.
  intros Hl Hr. unfold np_where. rewrite map2_length by lia. rewrite Hl.
  apply filter_ext_in. intros i Hi. apply in_seq in Hi.
  rewrite (map2_nth _ _ _ fnan fnan) by lia. reflexivity.
Qed.

(** The result of [reject] on a batch of [n >= 1] orbits. *)
Lemma reject_run self batch n g :
  consistent self -> shape2 8 n batch -> 0 < n ->
  reject self batch g =
  (Ok (map (column batch)
           (filter (accepted self batch (fst (random_uniform n g))) (seq 0 n))),
   snd (random_uniform n g)).
Proof.
  intros Hc [Hlen Hrows] Hn.
  destruct batch as [|sma [|ecc [|argp [|lan [|inc [|tau [|mtot [|plx [|? ?]]]]]]]]];
    try discriminate Hlen.
  repeat match goal with
         | H : Forall _ (_ :: _) |- _ => inversion H; clear H
         end.
  subst.
  set (batch := [sma; ecc; argp; lan; inc; tau; mtot; plx]).
  unfold reject. cbn [batch unpack8]. rewrite unfold_bind_lift_ok.
  cbn [el_sma el_ecc el_argp el_lan el_inc el_tau el_mtot el_plx nth].
  fold batch.
  pose proof (reject_rows (map epoch (tbl self)) sma ecc tau argp lan inc plx mtot Hn)
    as Hr.
  cbv zeta in Hr.
  destruct (calc_orbit_epochs (map epoch (tbl self)) sma ecc tau argp lan inc plx mtot)
    as [[ra dec] vc].
  cbn [fst snd] in Hr.
  destruct (radec2seppa_nd ra dec) as [sepA paA]. cbn [fst snd] in Hr.
  destruct Hr as (Hls & Hlp & Hat). rewrite length_map in Hls, Hlp.
  assert (Hpred : forall e i, e < length (tbl self) -> i < length sma ->
            (at_ (nth e (as_rows sepA) []) i, at_ (nth e (as_rows paA) []) i)
            = predicted (at_ (map epoch (tbl self)) e) batch i).
  { intros e i He Hi. unfold batch. rewrite predicted_rows.
    rewrite length_map in Hat.
    destruct (Hat e i He Hi) as [-> ->]. cbv zeta.
    destruct (radec2seppa1 _ _). reflexivity. }
  destruct (@chi2_sum_terms self batch (length sma) (as_rows sepA) (as_rows paA)
              Hc Hls Hlp Hpred Hn)
    as (data & errs & blocks & model & Hd & He & Hb & Hm & Hsum).
  change (nth 0 batch []) with sma.
  rewrite Hb, unfold_bind_lift_ok, Hm, unfold_bind_lift_ok.
  rewrite Hd, unfold_bind_lift_ok, He, unfold_bind_lift_ok.
  rewrite Hsum. rewrite unfold_bind_draw. rewrite !length_map, length_seq.
  unfold ret. f_equal. f_equal. f_equal.
  rewrite (@np_where_filter _ _ (length sma))
    by (rewrite ?length_map, ?length_seq;
        try apply (draws_length random_sample); reflexivity).
  apply filter_ext_in. intros i Hi. apply in_seq in Hi.
  unfold accepted, lnp_at.
  pose proof (draws_length random_sample (length sma) g) as Hu.
  fold (random_uniform (length sma)) in Hu.
  rewrite at_map by lia. rewrite at_map by (rewrite length_map, length_seq; lia).
  rewrite (at_map_from _ _ 0) by (rewrite length_seq; lia).
  rewrite seq_nth by lia. reflexivity.
Qed.

Lemma prepare_samples_shape self n g batch g1 :
  consistent self ->
  prepare_samples self n g = (Ok batch, g1) -> shape2 8 n batch.
Proof.
  intros Hc Hrun.
  destruct (Nat.eq_dec (length (priors self)) 8) as [Hp|Hp];
    [destruct (tbl self) as [|r t] eqn:Et|].
  - rewrite (prepare_samples_error self n g (proj1 (proj2 (proj2 Hc)))) in Hrun
      by (right; exact Et).
    discriminate.
  - assert (Ht : tbl self <> []) by (rewrite Et; discriminate).
    destruct (prepare_samples_entries n g Hc Hp Ht) as (k & _ & _ & H). cbv zeta in H.
    destruct H as (_ & _ & H1 & H2 & H3).
    destruct (fltb (fcopysign (fconst 1) (at_ (sep_err self) k)) (fconst 0)) eqn:E1.
    + rewrite (H1 eq_refl) in Hrun. discriminate.
    + destruct (fltb (fcopysign (fconst 1) (at_ (pa_err self) k)) (fconst 0)) eqn:E2.
      * rewrite (H2 eq_refl eq_refl) in Hrun. discriminate.
      * destruct (H3 eq_refl eq_refl) as (out & Ho & Hs & _).
        rewrite Ho in Hrun. injection Hrun as <- _. exact Hs.
  - rewrite (prepare_samples_error self n g (proj1 (proj2 (proj2 Hc)))) in Hrun
      by (left; exact Hp).
    discriminate.
Qed.

(** How a call ends on a consistent sampler with eight priors and a table
    of at least one row. *)
Lemma prepare_samples_outcome self n g :
  consistent self -> length (priors self) = 8 -> tbl self <> [] ->
  exists k, anchor_idx self = Ok k /\
    let refused := orb (fsignbit (at_ (sep_err self) k))
                       (fsignbit (at_ (pa_err self) k)) in
    match fst (prepare_samples self n g) with
    | Ok _ => refused = false
    | Error e => refused = true /\ e = ScaleNegative
    end.
Proof.
  intros Hc Hp Ht.
  destruct (prepare_samples_entries n g Hc Hp Ht) as (k & Hk & _ & H). cbv zeta in H.
  destruct H as (_ & _ & H1 & H2 & H3).
  exists k. split; [exact Hk|]. cbv zeta. unfold fsignbit.
  destruct (fltb (fcopysign (fconst 1) (at_ (sep_err self) k)) (fconst 0)) eqn:E1.
  - rewrite (H1 eq_refl). split; reflexivity.
  - destruct (fltb (fcopysign (fconst 1) (at_ (pa_err self) k)) (fconst 0)) eqn:E2.
    + rewrite (H2 eq_refl eq_refl). split; reflexivity.
    + destruct (H3 eq_refl eq_refl) as (out & Ho & _). rewrite Ho. reflexivity.
Qed.

Lemma filter_none {T} (f : T -> bool) l :
  (forall x, In x l -> f x = false) -> filter f l = [].
Proof.
  induction l as [|x l IH]; simpl; intros H; [reflexivity|].
  rewrite (H x) by now left. apply IH. intros y Hy. apply H. now right.
Qed.

(** The chi-square terms of a candidate, written out. *)
Lemma chi2_terms_eq self batch i :
  chi2_terms self batch i =
  flat_map (fun e =>
              let c := map (fun row => at_ row i) batch in
              let radec := fst (calc_orbit1 (at_ (map epoch (tbl self)) e)
                                  (at_ c 0) (at_ c 1) (at_ c 5) (at_ c 2)
                                  (at_ c 3) (at_ c 4) (at_ c 7) (at_ c 6)) in
              let chi2 := chi2_lnlike1 (seppa_idx self) e
                            (at_ (sep_observed self) e, at_ (pa_observed self) e)
                            (at_ (sep_err self) e, at_ (pa_err self) e)
                            (radec2seppa1 (fst radec) (snd radec)) in
              [fst chi2; snd chi2])
           (seq 0 (length (tbl self))).
Proof.
  unfold chi2_terms. apply flat_map_ext. intros e. cbv zeta.
  unfold predicted, column.
  destruct (calc_orbit1 _ _ _ _ _ _ _ _ _) as [[ra dec] v]. cbn [fst snd].
  destruct (chi2_lnlike1 _ _ _ _ _). reflexivity.
Qed.

Lemma chi2_terms_length self batch i :
  length (chi2_terms self batch i) = 2 * length (tbl self).
Proof.
  unfold chi2_terms. generalize (length (tbl self)) as e.
  intros e. generalize 0 at 1 as s0. induction e as [|e IH]; intros s0; simpl; [reflexivity|].
  destruct (chi2_lnlike1 _ _ _ _ _). simpl. rewrite IH. lia.
Qed.

(** C4: on every batch of eight rows and [n >= 1] columns, [reject] draws
    one uniform number per candidate and returns the columns of the
    candidates that pass, in increasing order of their index.  Candidate
    [i] passes exactly when the logarithm of its own draw is strictly below
    lnp = -chi2_sum/2.  chi2_sum is the sum of the candidate's chi-square
    terms, two for every epoch, every NaN term replaced by zero; the terms
    are those of [chi2_lnlike] for the observed pair, the uncertainties and
    the separation and position angle propagated for the candidate.  The
    sum is numpy's: the identity 0 plus the pairwise sum [P] of the terms,
    which adds fewer than 8 terms in order, up to 128 terms in eight lanes
    and more by halves. *)
Theorem reject_filters_by_likelihood sys like self batch n g :
  OFTI_init sys like = Ok self ->
  shape2 8 n batch ->
  0 < n ->
  let u := fst (random_uniform n g) in
  let terms := fun i =>
    flat_map (fun e =>
                let c := map (fun row => at_ row i) batch in
                let radec := fst (calc_orbit1 (at_ (map epoch (tbl self)) e)
                                    (at_ c 0) (at_ c 1) (at_ c 5) (at_ c 2)
                                    (at_ c 3) (at_ c 4) (at_ c 7) (at_ c 6)) in
                let chi2 := chi2_lnlike1 (seppa_idx self) e
                              (at_ (sep_observed self) e, at_ (pa_observed self) e)
                              (at_ (sep_err self) e, at_ (pa_err self) e)
                              (radec2seppa1 (fst radec) (snd radec)) in
                [fst chi2; snd chi2])
             (seq 0 (length (data_table sys))) in
  let P := pairwise_sum in
  let chi2_sum := fun i =>
    let ts := map (fun x => if fisnan x then fconst 0 else x) (terms i) in
    match ts with
    | [] => fconst 0
    | _ :: _ => fadd (fconst 0) (P ts)
    end in
  let lnp := fun i => fdiv (fneg (chi2_sum i)) (fconst 2) in
  let passes := fun i => fltb (np_log (at_ u i)) (lnp i) in
  reject self batch g =
    (Ok (map (fun i => map (fun row => at_ row i) batch) (filter passes (seq 0 n))),
     snd (random_uniform n g)) /\
  length u = n /\
  (forall i, length (terms i) = 2 * length (data_table sys)) /\
  forall l,
    P l =
    let m := length l in
    if m <? 8 then fold_left fadd l (fconst 0)
    else if m <=? 128 then
      let lane := fun j =>
        fold_left fadd (map (fun b => nth (8 * b + j) l fnan) (seq 1 (m / 8 - 1)))
                  (nth j l fnan) in
      fold_left fadd (skipn (m - m mod 8) l)
        (fadd (fadd (fadd (lane 0) (lane 1)) (fadd (lane 2) (lane 3)))
              (fadd (fadd (lane 4) (lane 5)) (fadd (lane 6) (lane 7))))
    else
      let m2 := m / 2 - (m / 2) mod 8 in
      fadd (P (firstn m2 l)) (P (skipn m2 l)).
Proof.
  intros Hinit Hs Hn. apply OFTI_init_inv in Hinit as (Hc & Htbl & _). cbv zeta.
  rewrite <- Htbl.
  pose proof (chi2_terms_eq self batch) as Hterms. cbv zeta in Hterms.
  split; [|split; [|split]].
  - rewrite (reject_run g Hc Hs Hn). f_equal. f_equal. f_equal.
    apply filter_ext. intros i. rewrite <- (Hterms i). reflexivity.
  - apply (draws_length random_sample).
  - intros i. rewrite <- (Hterms i). apply chi2_terms_length.
  - apply pairwise_sum_eq.
Qed.

(** C6: when no candidate of a batch passes, [reject] returns the empty
    array and raises nothing; and an iteration of [run_sampler] in which
    [reject] returns the empty array leaves the count of stored orbits and
    the store as they were and goes on to the next iteration. *)
Theorem empty_acceptance_continues sys like self n :
  OFTI_init sys like = Ok self ->
  0 < n ->
  (forall batch g1,
     shape2 8 n batch ->
     (forall i, i < n -> accepted self batch (fst (random_uniform n g1)) i = false) ->
     reject self batch g1 = (Ok [], snd (random_uniform n g1))) /\
  (forall g batch g1 g2 fuel total_orbits n_orbits_saved output_orbits,
     prepare_samples self n g = (Ok batch, g1) ->
     reject self batch g1 = (Ok [], g2) ->
     n_orbits_saved < total_orbits ->
     run_loop (S fuel) self total_orbits n n_orbits_saved output_orbits g =
     run_loop fuel self total_orbits n n_orbits_saved output_orbits g2).
Proof.
  intros Hinit Hn. apply OFTI_init_inv in Hinit as (Hc & _ & _). split.
  - intros batch g1 Hs Hnone.
    rewrite (reject_run g1 Hc Hs Hn). rewrite filter_none; [reflexivity|].
    intros i Hi. apply in_seq in Hi. apply Hnone. lia.
  - intros g batch g1 g2 fuel total_orbits n_saved store Hprep Hrej Hlt.
    cbn [run_loop]. destruct (Nat.ltb_spec n_saved total_orbits) as [_|]; [|lia].
    rewrite Hprep, Hrej. reflexivity.
Qed.

(** ** [run_sampler] *)

Lemma store_orbits_ok (new_orbits : list (list F)) : forall n_saved store,
  n_saved + length new_orbits <= length store ->
  exists store',
    store_orbits new_orbits n_saved store = Ok (n_saved + length new_orbits, store') /\
    length store' = length store /\
    (forall k, k < length new_orbits ->
       nth (n_saved + k) store' [] = nth k new_orbits []) /\
    (forall j, j < n_saved -> nth j store' [] = nth j store []).
Proof.
  induction new_orbits as [|orbit r IH]; intros n_saved store Hle; simpl in *.
  - exists store. rewrite Nat.add_0_r. repeat split; auto. intros k Hk; lia.
  - unfold setitem. destruct (Nat.ltb_spec n_saved (length store)) as [Hlt|]; [|lia].
    cbn [rbind].
    destruct (IH (S n_saved) (set_at n_saved orbit store)) as (store' & Hrun & Hlen & Hnew & Hold).
    { rewrite set_at_length. lia. }
    exists store'. rewrite Hrun, Hlen, set_at_length.
    split; [f_equal; f_equal; lia|]. split; [reflexivity|]. split.
    + intros [|k] Hk.
      * rewrite Nat.add_0_r, Hold by lia. apply set_at_nth_same. exact Hlt.
      * replace (n_saved + S k) with (S n_saved + k) by lia. apply Hnew. lia.
    + intros j Hj. rewrite Hold by lia. apply set_at_nth_other. lia.
Qed.

(** More accepted orbits than free rows: the assignment to the row after
    the last one raises. *)
Lemma store_orbits_overflow (new_orbits : list (list F)) : forall n_saved store,
  n_saved <= length store ->
  length store < n_saved + length new_orbits ->
  store_orbits new_orbits n_saved store =
  Error (IndexError (length store) (length store)).
Proof.
  induction new_orbits as [|orbit r IH]; intros n_saved store Hle Hlt; simpl in *; [lia|].
  unfold setitem. destruct (Nat.ltb_spec n_saved (length store)) as [Hin|Hout].
  - cbn [rbind]. rewrite IH; rewrite set_at_length; try lia. reflexivity.
  - cbn [rbind]. replace n_saved with (length store) by lia. reflexivity.
Qed.

Lemma store_orbits_inv (new_orbits : list (list F)) n_saved store n' store' :
  n_saved <= length store ->
  store_orbits new_orbits n_saved store = Ok (n', store') ->
  n' = n_saved + length new_orbits /\ n' <= length store /\ length store' = length store.
Proof.
  revert n_saved store. induction new_orbits as [|orbit r IH]; intros n_saved store Hle; simpl.
  - intros H; inversion H; subst. intuition lia.
  - unfold setitem. destruct (Nat.ltb_spec n_saved (length store)) as [Hin|Hout];
      cbn [rbind]; [|discriminate].
    intros H. apply IH in H; rewrite set_at_length in *; [intuition lia | lia].
Qed.

(** When the loop returns, the store is full and has its original size. *)
Lemma run_loop_returns_full fuel self total_orbits n : forall n_saved store g out g',
  n_saved <= total_orbits -> length store = total_orbits ->
  run_loop fuel self total_orbits n n_saved store g = Some (Ok out, g') ->
  length out = total_orbits.
Proof.
  induction fuel as [|fuel IH]; intros n_saved store g out g' Hle Hlen; cbn [run_loop];
    destruct (Nat.ltb_spec n_saved total_orbits) as [Hlt|Hge];
    try discriminate; try (intros H; injection H as <- _; exact Hlen).
  destruct (prepare_samples self n g) as [[batch|e] g1]; cbv beta iota; [|discriminate].
  destruct (reject self batch g1) as [[new|e] g2]; cbv beta iota; [|discriminate].
  destruct (length new =? 0); [apply IH; assumption|].
  destruct (store_orbits new n_saved store) as [[n' store']|e] eqn:Es; cbv beta iota;
    [|discriminate].
  apply store_orbits_inv in Es as (-> & Hb & Hl); [|lia]. apply IH; lia.
Qed.

Lemma np_empty_length rows cols : length (np_empty rows cols) = rows.
Proof. unfold np_empty. now rewrite length_map, length_seq. Qed.

(** A call of [run_sampler] that returns, returns [total_orbits] rows. *)
Lemma run_sampler_returns_full fuel self total_orbits n g out g' :
  run_sampler fuel self total_orbits n g = Some (Ok out, g') ->
  length out = total_orbits.
Proof.
  unfold run_sampler. apply run_loop_returns_full; [lia | apply np_empty_length].
Qed.

(** One iteration whose accepted orbits outnumber the free rows. *)
Lemma run_loop_overflow fuel self total_orbits n n_saved store g batch g1 new g2 :
  n_saved < total_orbits -> length store = total_orbits ->
  prepare_samples self n g = (Ok batch, g1) ->
  reject self batch g1 = (Ok new, g2) ->
  total_orbits < n_saved + length new ->
  run_loop (S fuel) self total_orbits n n_saved store g =
  Some (Error (IndexError total_orbits total_orbits), g2).
Proof.
  intros Hlt Hlen Hp Hr Hov. cbn [run_loop].
  destruct (Nat.ltb_spec n_saved total_orbits) as [_|]; [|lia].
  rewrite Hp, Hr. destruct (Nat.eqb_spec (length new) 0) as [E|_]; [lia|].
  rewrite store_orbits_overflow by lia. rewrite Hlen. reflexivity.
Qed.

Lemma column_at (batch : list (list F)) i p :
  p < length batch -> at_ (column batch i) p = at_ (nth p batch []) i.
Proof. intros H. unfold column. rewrite (at_map_from _ _ []) by exact H. reflexivity. Qed.

(** C10, as the code has it: the array [reject] returns is the transpose of
    the accepted columns of its input, one accepted orbit per row of eight
    entries: its shape is [(N', 8)] for [N' >= 1] accepted orbits, and
    [(0,)], the empty 1-D array, for none.  Fed back into [reject] it fails
    at the unpacking into the eight element names, unless exactly eight
    orbits were accepted: the 8 x 8 array is then taken as a batch of eight
    candidates, for which eight uniform numbers are drawn.  [run_sampler]
    copies each returned row into the next free row of its store. *)
Theorem reject_output_transposed sys like self batch n g out g' :
  OFTI_init sys like = Ok self ->
  shape2 8 n batch ->
  0 < n ->
  reject self batch g = (Ok out, g') ->
  (exists idx,
     out = map (fun i => map (fun row => at_ row i) batch) idx /\
     forall k p, k < length idx -> p < 8 ->
       at_ (nth k out []) p = at_ (nth p batch []) (nth k idx 0)) /\
  (forall row, In row out -> length row = 8) /\
  np_shape out = (if length out =? 0 then [0] else [length out; 8]) /\
  (length out <> 8 -> reject self out g' = (Error (UnpackError (length out)), g')) /\
  (length out = 8 ->
   exists out2, reject self out g' = (Ok out2, snd (random_uniform 8 g'))) /\
  forall n_saved store,
    n_saved + length out <= length store ->
    exists store',
      store_orbits out n_saved store = Ok (n_saved + length out, store') /\
      length store' = length store /\
      (forall k, k < length out -> nth (n_saved + k) store' [] = nth k out []) /\
      (forall j, j < n_saved -> nth j store' [] = nth j store []).
Proof.
  intros Hinit Hs Hn Hrej. apply OFTI_init_inv in Hinit as (Hc & _ & _).
  rewrite (reject_run g Hc Hs Hn) in Hrej. injection Hrej as Hout Hg.
  set (idx := filter (accepted self batch (fst (random_uniform n g))) (seq 0 n)) in *.
  destruct Hs as [Hlen Hrows].
  assert (Hrow : forall row, In row out -> length row = 8).
  { subst out. intros row Hrow.
    apply in_map_iff in Hrow as (i & <- & _). unfold column. now rewrite length_map. }
  split; [|split; [|split; [|split; [|split]]]].
  - exists idx. split; [symmetry; exact Hout|]. intros k p Hk Hp. subst out.
    rewrite (map_nth_in _ _ 0) by exact Hk. apply column_at. lia.
  - exact Hrow.
  - destruct out as [|row out']; [reflexivity|]. cbn [np_shape length Nat.eqb].
    rewrite (Hrow row) by now left. reflexivity.
  - intros Hne. unfold reject. rewrite unpack8_error by exact Hne. reflexivity.
  - intros H8. eexists. apply reject_run; [exact Hc | | lia].
    split; [exact H8|]. apply Forall_forall. exact Hrow.
  - intros n_saved store Hle. apply store_orbits_ok. exact Hle.
Qed.

End SamplerFacts.

(** ** The order of binary64 *)

Lemma SFcompare_antisym x y :
  SFcompare y x = option_map CompOpp (SFcompare x y).
Proof.
  destruct x as [sx| sx| |sx mx ex], y as [sy|sy| |sy my ey]; simpl;
    try reflexivity; try (destruct sx; reflexivity); try (destruct sy; reflexivity);
    try (destruct sx, sy; reflexivity).
  destruct sx, sy; try reflexivity;
    rewrite (Z.compare_antisym ex ey); destruct (ex ?= ey)%Z; simpl; try reflexivity;
    fold (Pos.compare mx my); fold (Pos.compare my mx);
    rewrite (Pos.compare_antisym mx my); destruct (mx ?= my)%positive; reflexivity.
Qed.

Lemma SFltb_trans x y z : SFltb x y = true -> SFltb y z = true -> SFltb x z = true.
Proof.
  unfold SFltb.
  destruct x as [sx| sx| |sx mx ex], y as [sy|sy| |sy my ey], z as [sz|sz| |sz mz ez];
    simpl; try discriminate; try reflexivity;
    try (destruct sx; simpl; try discriminate; try reflexivity);
    try (destruct sy; simpl; try discriminate; try reflexivity);
    try (destruct sz; simpl; try discriminate; try reflexivity).
  all: fold (Pos.compare mx my); fold (Pos.compare my mz); fold (Pos.compare mx mz).
  all: destruct (Z.compare_spec ex ey), (Z.compare_spec ey ez), (Z.compare_spec ex ez);
    try discriminate; try reflexivity; try lia; subst.
  all: destruct (Pos.compare_spec mx my), (Pos.compare_spec my mz), (Pos.compare_spec mx mz);
    simpl; try discriminate; try reflexivity; try lia.
Qed.

Lemma SFcompare_none x y :
  SFcompare x y = None -> x = S754_nan \/ y = S754_nan.
Proof.
  destruct x, y; simpl; try discriminate; auto.
Qed.

Lemma SFcompare_refl x : x <> S754_nan -> SFcompare x x = Some Eq.
Proof.
  destruct x as [s|s| |s m e]; simpl; intros H; try congruence.
  - destruct s; reflexivity.
  - destruct s; rewrite Z.compare_refl; fold (Pos.compare m m);
      rewrite Pos.compare_refl; reflexivity.
Qed.

Lemma is_nan_spec x : is_nan x = true <-> Prim2SF x = S754_nan.
Proof.
  unfold is_nan. rewrite eqb_spec. unfold SFeqb. split.
  - intros H. destruct (Prim2SF x) eqn:E; try reflexivity;
      rewrite SFcompare_refl in H by discriminate; discriminate.
  - intros ->. reflexivity.
Qed.

#[export] Instance binary64_order : @ArithOrder float Binary64.binary64.
Proof.
  split; cbn [fleb fltb fisnan Binary64.binary64].
  - intros m x. rewrite leb_spec, ltb_spec. unfold SFleb, SFltb.
    rewrite (SFcompare_antisym (Prim2SF m) (Prim2SF x)).
    destruct (SFcompare (Prim2SF m) (Prim2SF x)) as [[]|]; simpl; congruence.
  - intros m x Hle Hm Hx. rewrite leb_spec in Hle. rewrite ltb_spec.
    unfold SFleb, SFltb in *.
    rewrite (SFcompare_antisym (Prim2SF m) (Prim2SF x)).
    destruct (SFcompare (Prim2SF m) (Prim2SF x)) as [[]|] eqn:E; simpl; try congruence.
    apply SFcompare_none in E as [E|E]; apply is_nan_spec in E; congruence.
  - intros x y z. rewrite !ltb_spec. apply SFltb_trans.
  - intros x y Hy. apply is_nan_spec in Hy. rewrite ltb_spec, Hy. unfold SFltb.
    destruct (Prim2SF x); reflexivity.
  - intros x. rewrite ltb_spec. unfold SFltb.
    destruct (Prim2SF x) eqn:E; try reflexivity;
      rewrite SFcompare_refl by discriminate; reflexivity.
Qed.

(** ** Runs in the concrete setting *)

Section Runs.
Import Binary64 Setting.
Open Scope float_scope.

Lemma init_sampler_of ps t :
  OFTI_init (system_of ps t) by_name = Ok (sampler_of ps t).
Proof.
  unfold OFTI_init, system_of, by_name. cbn -[write_columns].
  rewrite !write_columns_id. reflexivity.
Qed.

(** C1: with a target of one orbit and a batch of two candidates that are
    both accepted, [run_sampler] does not store the first orbit and return:
    the assignment of the second orbit to row 1 of the one-row store
    raises IndexError. *)
Theorem run_sampler_overflow_raises :
  exists batch g1 new g2,
    prepare_samples (sampler_at 45.5 0) 2 tape_half = (Ok batch, g1) /\
    reject (sampler_at 45.5 0) batch g1 = (Ok new, g2) /\
    length new = 2%nat /\
    run_sampler 1 (sampler_at 45.5 0) 1 2 tape_half
    = Some (Error (IndexError 1 1), g2).
Proof.
  eexists _, _, _, _. split; [vm_compute; reflexivity|].
  split; [vm_compute; reflexivity|]. split; vm_compute; reflexivity.
Qed.

(** C5: a candidate whose longitude of ascending node is drawn as
    0.5235987755982988 (30 degrees) and whose predicted position angle is
    75.50000000000001 degrees, against an observed 45 degrees and a drawn
    offset of 0.5 degrees: the correction is -30.000000000000014 degrees,
    the sum is -3.3e-16, and its remainder modulo 2 pi is the float64 2 pi
    itself, which is not below 2 pi. *)
Theorem lan_reaches_two_pi :
  let self := sampler_of (priors8 0x1.2e00000000001p+6 0x1.0c152382d7365p-1) epoch_45 in
  exists out g',
    d_rows (batch_draws self 0 1 tape_one)
    = [[1]; [0]; [0x1.2e00000000001p+6]; [0x1.0c152382d7365p-1]; [0]; [0]; [1]; [50]] /\
    d_pa_offset (batch_draws self 0 1 tape_one) = 0.5 /\
    prepare_samples self 1 tape_one = (Ok out, g') /\
    nth 3 out [] = [two_pi] /\
    fltb (at_ (nth 3 out []) 0) two_pi = false.
Proof.
  cbv zeta. eexists _, _. split; [vm_compute; reflexivity|].
  split; [vm_compute; reflexivity|].
  split; [vm_compute; reflexivity|]. split; vm_compute; reflexivity.
Qed.

Lemma prepare_samples_corrections_witness :
  exists out g4, prepare_samples (sampler_at 45.5 0) 2 tape_half = (Ok out, g4).
Proof.
  destruct (@prepare_samples_corrections float binary64 setting
              (system_of (priors8 45.5 0) one_epoch) by_name (sampler_at 45.5 0)
              2%nat tape_half)
    as (k & Hk & H).
  - reflexivity.
  - reflexivity.
  - discriminate.
  - vm_compute in Hk. injection Hk as <-. cbv zeta in H.
    destruct H as (_ & _ & H).
    destruct H as (out & Hrun & _); [reflexivity | reflexivity |].
    exists out. eexists. exact Hrun.
Defined.

Lemma prepare_samples_frame_witness :
  exists out g4,
    prepare_samples (sampler_at 45.5 0) 2 tape_half = (Ok out, g4) /\
    nth 1 out [] = nth 1 (fst (draw_rows (priors8 45.5 0) 2 tape_half)) [].
Proof.
  destruct (@prepare_samples_frame float binary64 setting
              (system_of (priors8 45.5 0) one_epoch) by_name (sampler_at 45.5 0)
              2%nat tape_half)
    as (k & Hk & H).
  - reflexivity.
  - reflexivity.
  - discriminate.
  - vm_compute in Hk. injection Hk as <-. cbv zeta in H.
    destruct H as (out & Hrun & _ & _ & Hframe & _); [reflexivity | reflexivity |].
    exists out. eexists. split; [exact Hrun|]. apply Hframe; discriminate.
Defined.

Lemma near_batch_shape : shape2 8 8 near_batch.
Proof. split; [reflexivity | repeat constructor]. Qed.

Lemma reject_filters_by_likelihood_witness :
  exists out,
    reject (sampler_at 45.5 0) near_batch near_tape
    = (Ok out, snd (random_uniform 8 near_tape)).
Proof.
  destruct (@reject_filters_by_likelihood float binary64 setting
              (system_of (priors8 45.5 0) one_epoch) by_name (sampler_at 45.5 0)
              near_batch 8%nat near_tape)
    as (Hrun & _).
  - reflexivity.
  - split; [reflexivity | repeat constructor].
  - lia.
  - eexists. exact Hrun.
Defined.

Lemma far_batch_none i :
  (i < 2)%nat ->
  accepted (sampler_at 200 0) far_batch (fst (random_uniform 2 far_tape)) i = false.
Proof.
  destruct i as [|[|i]]; intros Hi; [vm_compute; reflexivity | vm_compute; reflexivity | lia].
Qed.

Lemma empty_acceptance_continues_witness :
  reject (sampler_at 200 0) far_batch far_tape
  = (Ok [], snd (random_uniform 2 far_tape)) /\
  run_loop 1 (sampler_at 200 0) 5 2 0 (np_empty 5 8) tape_half
  = run_loop 0 (sampler_at 200 0) 5 2 0 (np_empty 5 8) (snd (random_uniform 2 far_tape)).
Proof.
  destruct (@empty_acceptance_continues float binary64 setting
              (system_of (priors8 200 0) one_epoch) by_name (sampler_at 200 0) 2%nat)
    as [Hrej Hloop].
  - reflexivity.
  - lia.
  - assert (H : reject (sampler_at 200 0) far_batch far_tape
                = (Ok [], snd (random_uniform 2 far_tape))).
    { apply Hrej; [split; [reflexivity | repeat constructor] | exact far_batch_none]. }
    split; [exact H|].
    apply (Hloop tape_half far_batch far_tape); [vm_compute; reflexivity | exact H | lia].
Defined.

(** C9 as stated fails: a sampler is constructed from seven priors. *)
Lemma seven_priors_construct :
  exists self,
    OFTI_init (system_of priors7 one_epoch) by_name = Ok self /\
    length (priors self) = 7%nat.
Proof. eexists. split; reflexivity. Qed.

Lemma prior_count_checked_at_first_call_witness :
  prepare_samples (sampler_of priors7 one_epoch) 2 tape_half
  = (Error (UnpackError 7), snd (draw_rows priors7 2 tape_half)).
Proof.
  destruct (@prior_count_checked_at_first_call float binary64 setting
              (system_of priors7 one_epoch) by_name (sampler_of priors7 one_epoch))
    as (_ & H).
  - reflexivity.
  - discriminate.
  - destruct (H 2%nat tape_half) as (Hrun & _). exact Hrun.
Defined.

(** C10 as stated fails: with eight accepted orbits the result of [reject]
    is an 8 x 8 array, and [reject] takes it back without raising. *)
Lemma reject_output_fed_back :
  exists out g1 out2 g2,
    reject (sampler_at 45.5 0) near_batch near_tape = (Ok out, g1) /\
    length out = 8%nat /\
    reject (sampler_at 45.5 0) out g1 = (Ok out2, g2).
Proof.
  eexists _, _, _, _. split; [vm_compute; reflexivity|].
  split; vm_compute; reflexivity.
Qed.

Lemma reject_output_transposed_witness :
  np_shape near_out = [8; 8]%nat /\
  exists store',
    store_orbits near_out 0 (np_empty 8 8) = Ok (0 + length near_out, store')%nat.
Proof.
  destruct (@reject_output_transposed float binary64 setting
              (system_of (priors8 45.5 0) one_epoch) by_name (sampler_at 45.5 0)
              near_batch 8%nat near_tape near_out near_tape')
    as (_ & _ & Hshape & _ & _ & Hstore).
  - reflexivity.
  - split; [reflexivity | repeat constructor].
  - lia.
  - vm_compute. reflexivity.
  - split; [exact Hshape|].
    destruct (Hstore 0%nat (np_empty 8 8)) as (store' & Hs & _).
    + vm_compute. lia.
    + exists store'. exact Hs.
Defined.

End Runs.

(** * Further properties of [OFTI] *)

Section MoreSamplerFacts.
Context {F : Type} {A : Arith F} {C : Collaborators F}.

(** ** Construction *)

Lemma convert_row_effect i so po se pe cols' :
  convert_row i (so, po, se, pe) = Ok cols' ->
  i < length so /\ i < length po /\ i < length se /\ i < length pe /\
  cols' = (set_at i (fst (radec2seppa1 (at_ so i) (at_ po i))) so,
           set_at i (snd (radec2seppa1 (at_ so i) (at_ po i))) po,
           set_at i (fst (radec2seppa1 (at_ se i) (at_ pe i))) se,
           set_at i (snd (radec2seppa1 (at_ se i) (at_ pe i))) pe).
Proof.
  unfold convert_row, getitem, setitem, at_. intros H.
  destruct (nth_error so i) as [s|] eqn:Es; [|discriminate]. cbn [rbind] in H.
  destruct (nth_error po i) as [q|] eqn:Ep; [|discriminate]. cbn [rbind] in H.
  assert (Hso : i < length so) by (apply nth_error_Some; congruence).
  assert (Hpo : i < length po) by (apply nth_error_Some; congruence).
  rewrite (nth_error_nth so i fnan Es), (nth_error_nth po i fnan Ep).
  destruct (radec2seppa1 s q) as [s1 q1].
  destruct (Nat.ltb_spec i (length so)); [|lia]. cbn [rbind] in H.
  destruct (Nat.ltb_spec i (length po)); [|lia]. cbn [rbind] in H.
  destruct (nth_error se i) as [s2|] eqn:Es2; [|discriminate]. cbn [rbind] in H.
  destruct (nth_error pe i) as [q2|] eqn:Ep2; [|discriminate]. cbn [rbind] in H.
  assert (Hse : i < length se) by (apply nth_error_Some; congruence).
  assert (Hpe : i < length pe) by (apply nth_error_Some; congruence).
  rewrite (nth_error_nth se i fnan Es2), (nth_error_nth pe i fnan Ep2).
  destruct (radec2seppa1 s2 q2) as [s3 q3].
  destruct (Nat.ltb_spec i (length se)); [|lia]. cbn [rbind] in H.
  destruct (Nat.ltb_spec i (length pe)); [|lia]. cbn [rbind] in H.
  inversion H; subst. repeat split; assumption.
Qed.

Lemma convert_row_total i so po se pe len :
  cols_len len (so, po, se, pe) -> i < len ->
  exists cols', convert_row i (so, po, se, pe) = Ok cols'.
Proof.
  intros (Hso & Hpo & Hse & Hpe) Hi.
  unfold convert_row.
  rewrite (getitem_ok so fnan), (getitem_ok po fnan) by lia. cbn [rbind].
  destruct (radec2seppa1 _ _) as [s1 q1].
  unfold setitem at 1 2.
  destruct (Nat.ltb_spec i (length so)); [|lia]. cbn [rbind].
  destruct (Nat.ltb_spec i (length po)); [|lia]. cbn [rbind].
  rewrite (getitem_ok se fnan), (getitem_ok pe fnan) by lia. cbn [rbind].
  destruct (radec2seppa1 _ _) as [s3 q3].
  unfold setitem.
  destruct (Nat.ltb_spec i (length se)); [|lia]. cbn [rbind].
  destruct (Nat.ltb_spec i (length pe)); [|lia]. cbn [rbind].
  eauto.
Qed.

Lemma convert_rows_total idx : forall cols len,
  cols_len len cols ->
  ((exists cols', convert_rows idx cols = Ok cols') <-> Forall (fun i => i < len) idx).
Proof.
  induction idx as [|i idx IH]; intros [[[so po] se] pe] len Hl; cbn [convert_rows].
  - split; [constructor | eauto].
  - split.
    + intros (cols' & H). apply rbind_ok in H as ([[[so1 po1] se1] pe1] & H1 & H).
      pose proof (convert_row_lengths _ _ _ _ _ H1) as (a & b & c & d).
      apply convert_row_effect in H1 as (Hi & _).
      destruct Hl as (Hso & Hpo & Hse & Hpe).
      constructor; [lia|].
      apply (IH (so1, po1, se1, pe1) len); [|eauto].
      repeat split; congruence.
    + intros H. inversion H as [|? ? Hi Hr]; subst.
      destruct (@convert_row_total i so po se pe len Hl Hi) as ([[[so1 po1] se1] pe1] & H1).
      rewrite H1. cbn [rbind].
      pose proof (convert_row_lengths _ _ _ _ _ H1) as (a & b & c & d).
      destruct Hl as (Hso & Hpo & Hse & Hpe).
      apply (IH (so1, po1, se1, pe1) len); [|exact Hr].
      repeat split; congruence.
Qed.

(** X1.  Construction succeeds exactly when the likelihood resolves,
    [system.radec] and [system.seppa] each have an entry of index 1, and
    every index in [system.radec[1]] is a row of the data table.  The
    priors are not looked at. *)
Theorem OFTI_init_succeeds_iff sys like :
  (exists self, OFTI_init sys like = Ok self) <->
  (exists f, Sampler_init like = Ok f) /\
  1 < length (radec sys) /\
  1 < length (seppa sys) /\
  Forall (fun i => i < length (data_table sys)) (nth 1 (radec sys) []).
Proof.
  unfold OFTI_init.
  set (cols := (map quant1 (data_table sys), map quant2 (data_table sys),
                map quant1_err (data_table sys), map quant2_err (data_table sys))).
  assert (Hl : cols_len (length (data_table sys)) cols)
    by (unfold cols; cbn; rewrite !length_map; auto).
  split.
  - intros (self & H).
    apply rbind_ok in H as (f & Hf & H). apply rbind_ok in H as (ri & Hri & H).
    apply rbind_ok in H as (si & Hsi & H). apply rbind_ok in H as (cols' & Hc & H).
    unfold getitem in Hri, Hsi.
    destruct (nth_error (radec sys) 1) as [ri'|] eqn:Er; [|discriminate].
    destruct (nth_error (seppa sys) 1) as [si'|] eqn:Es; [|discriminate].
    inversion Hri; subst ri'.
    split; [eauto|]. split; [apply nth_error_Some; congruence|].
    split; [apply nth_error_Some; congruence|].
    rewrite (nth_error_nth _ _ [] Er).
    apply (@convert_rows_total ri cols _ Hl). eauto.
  - intros ((f & Hf) & Hr & Hs & Hall). rewrite Hf. cbn [rbind].
    rewrite (getitem_ok (radec sys) []) by exact Hr. cbn [rbind].
    rewrite (getitem_ok (seppa sys) []) by exact Hs. cbn [rbind].
    apply (@convert_rows_total _ cols _ Hl) in Hall as ([[[so po] se] pe] & Hc).
    fold cols. rewrite Hc. cbn [rbind]. eauto.
Qed.

Lemma convert_rows_other j idx : forall so po se pe so' po' se' pe',
  convert_rows idx (so, po, se, pe) = Ok (so', po', se', pe') ->
  ~ In j idx ->
  at_ so' j = at_ so j /\ at_ po' j = at_ po j /\
  at_ se' j = at_ se j /\ at_ pe' j = at_ pe j.
Proof.
  induction idx as [|i idx IH]; intros so po se pe so' po' se' pe' H Hj;
    cbn [convert_rows] in H.
  - inversion H; subst; auto.
  - apply rbind_ok in H as ([[[so1 po1] se1] pe1] & H1 & H).
    apply convert_row_effect in H1 as (_ & _ & _ & _ & E). inversion E; subst; clear E.
    apply IH in H; [|intros Hin; apply Hj; now right].
    destruct H as (a & b & c & d). rewrite a, b, c, d. unfold at_.
    rewrite !set_at_nth_other by (intros ->; apply Hj; now left). auto.
Qed.

Lemma convert_rows_at i idx : forall so po se pe so' po' se' pe',
  convert_rows idx (so, po, se, pe) = Ok (so', po', se', pe') ->
  NoDup idx -> In i idx ->
  (at_ so' i, at_ po' i) = radec2seppa1 (at_ so i) (at_ po i) /\
  (at_ se' i, at_ pe' i) = radec2seppa1 (at_ se i) (at_ pe i).
Proof.
  induction idx as [|i0 idx IH]; intros so po se pe so' po' se' pe' H Hnd Hin;
    cbn [convert_rows] in H; [destruct Hin|].
  apply rbind_ok in H as ([[[so1 po1] se1] pe1] & H1 & H).
  apply convert_row_effect in H1 as (Hso & Hpo & Hse & Hpe & E).
  inversion E; subst; clear E. inversion Hnd as [|? ? Hnotin Hnd']; subst.
  destruct (Nat.eq_dec i0 i) as [->|Hne].
  - apply (convert_rows_other i) in H; [|exact Hnotin].
    destruct H as (a & b & c & d). rewrite a, b, c, d. unfold at_.
    rewrite !set_at_nth_same by assumption.
    split; symmetry; apply surjective_pairing.
  - destruct Hin as [E|Hin]; [congruence|].
    destruct (IH _ _ _ _ _ _ _ _ H Hnd' Hin) as [E1 E2]. rewrite E1, E2. unfold at_.
    rewrite !set_at_nth_other by exact Hne. auto.
Qed.

(** X2.  What the constructor stores.  A row of the table whose index is
    listed in [system.radec[1]] has both its pair of measurements and its
    pair of uncertainties replaced by their images under [radec2seppa];
    every other row is stored as the table has it. *)
Theorem OFTI_init_columns sys like self j r :
  OFTI_init sys like = Ok self ->
  NoDup (radec_idx self) ->
  nth_error (data_table sys) j = Some r ->
  radec_idx self = nth 1 (radec sys) [] /\
  seppa_idx self = nth 1 (seppa sys) [] /\
  (In j (radec_idx self) ->
     (at_ (sep_observed self) j, at_ (pa_observed self) j)
       = radec2seppa1 (quant1 r) (quant2 r) /\
     (at_ (sep_err self) j, at_ (pa_err self) j)
       = radec2seppa1 (quant1_err r) (quant2_err r)) /\
  (~ In j (radec_idx self) ->
     at_ (sep_observed self) j = quant1 r /\ at_ (pa_observed self) j = quant2 r /\
     at_ (sep_err self) j = quant1_err r /\ at_ (pa_err self) j = quant2_err r).
Proof.
  unfold OFTI_init. intros H Hnd Hr.
  apply rbind_ok in H as (f & Hf & H). apply rbind_ok in H as (ri & Hri & H).
  apply rbind_ok in H as (si & Hsi & H).
  apply rbind_ok in H as ([[[so po] se] pe] & Hc & H).
  inversion H; subst; clear H. cbn [radec_idx seppa_idx sep_observed pa_observed
                                    sep_err pa_err] in *.
  assert (Hj : j < length (data_table sys)) by (apply nth_error_Some; congruence).
  assert (Hat : forall (q : obs_row -> F), at_ (map q (data_table sys)) j = q r).
  { intros q. unfold at_. rewrite (map_nth_in _ _ r) by exact Hj.
    now rewrite (nth_error_nth _ _ r Hr). }
  unfold getitem in Hri, Hsi.
  destruct (nth_error (radec sys) 1) eqn:Er; [|discriminate].
  destruct (nth_error (seppa sys) 1) eqn:Es; [|discriminate].
  inversion Hri; inversion Hsi; subst.
  split; [symmetry; apply (nth_error_nth _ _ [] Er)|].
  split; [symmetry; apply (nth_error_nth _ _ [] Es)|].
  split.
  - intros Hin. destruct (@convert_rows_at j _ _ _ _ _ _ _ _ _ Hc Hnd Hin) as [E1 E2].
    rewrite E1, E2, !Hat. auto.
  - intros Hnin. destruct (@convert_rows_other j _ _ _ _ _ _ _ _ _ Hc Hnin) as (a & b & c & d).
    rewrite a, b, c, d, !Hat. auto.
Qed.

(** ** The loop of [run_sampler] *)

Lemma set_at_firstn {T} (v : T) l : forall i,
  i < length l -> firstn (S i) (set_at i v l) = firstn i l ++ [v].
Proof.
  induction l as [|x l IH]; intros [|i] Hi; simpl in *; try lia; [reflexivity|].
  f_equal. apply IH. lia.
Qed.

Lemma set_at_skipn {T} (v : T) l : forall i m,
  i < m -> skipn m (set_at i v l) = skipn m l.
Proof.
  induction l as [|x l IH]; intros [|i] [|m] Hi; simpl; try lia; try reflexivity.
  apply IH. lia.
Qed.

Lemma set_at_firstn_before {T} (v : T) l : forall i m,
  m <= i -> firstn m (set_at i v l) = firstn m l.
Proof.
  induction l as [|x l IH]; intros [|i] [|m] Hi; simpl; try lia; try reflexivity.
  f_equal. apply IH. lia.
Qed.

(** The rows a run of the storing loop leaves in the store. *)
Lemma store_orbits_rows (new_orbits : list (list F)) : forall n_saved store,
  n_saved + length new_orbits <= length store ->
  store_orbits new_orbits n_saved store =
  Ok (n_saved + length new_orbits,
      firstn n_saved store ++ new_orbits ++ skipn (n_saved + length new_orbits) store).
Proof.
  induction new_orbits as [|orbit r IH]; intros n_saved store Hle; simpl in *.
  - rewrite Nat.add_0_r, firstn_skipn. reflexivity.
  - unfold setitem. destruct (Nat.ltb_spec n_saved (length store)) as [Hlt|]; [|lia].
    cbn [rbind]. rewrite IH by (rewrite set_at_length; lia).
    rewrite set_at_firstn by exact Hlt. rewrite set_at_skipn by lia.
    rewrite <- app_assoc. cbn [app].
    replace (S n_saved + length r) with (n_saved + S (length r)) by lia. reflexivity.
Qed.

(** X3.  One iteration of the loop of [run_sampler] in which
    [prepare_samples] and [reject] succeed.  If the accepted orbits fit
    into the free rows of the store they are written, in the order [reject]
    returned them, into the rows after the ones filled so far, every other
    row of the store is kept, and the loop goes on with the count raised
    by their number; it returns the store as soon as the count reaches
    [total_orbits].  If they do not fit, the iteration raises IndexError
    and nothing is returned. *)
Theorem run_loop_iteration fuel self total_orbits n n_saved store g batch g1 new g2 :
  n_saved < total_orbits ->
  length store = total_orbits ->
  prepare_samples self n g = (Ok batch, g1) ->
  reject self batch g1 = (Ok new, g2) ->
  let store' := firstn n_saved store ++ new ++ skipn (n_saved + length new) store in
  run_loop (S fuel) self total_orbits n n_saved store g =
    (if n_saved + length new <=? total_orbits
     then run_loop fuel self total_orbits n (n_saved + length new) store' g2
     else Some (Error (IndexError total_orbits total_orbits), g2)) /\
  (n_saved + length new <= total_orbits -> length store' = total_orbits) /\
  (n_saved + length new = total_orbits ->
   run_loop (S fuel) self total_orbits n n_saved store g
   = Some (Ok (firstn n_saved store ++ new), g2)).
Proof.
  intros Hlt Hlen Hp Hr store'.
  assert (Hstep : run_loop (S fuel) self total_orbits n n_saved store g =
    (if n_saved + length new <=? total_orbits
     then run_loop fuel self total_orbits n (n_saved + length new) store' g2
     else Some (Error (IndexError total_orbits total_orbits), g2))).
  { cbn [run_loop]. destruct (Nat.ltb_spec n_saved total_orbits) as [_|]; [|lia].
    rewrite Hp, Hr.
    destruct (Nat.leb_spec (n_saved + length new) total_orbits) as [Hfit|Hover].
    - destruct (Nat.eqb_spec (length new) 0) as [E|_].
      + destruct new; [|discriminate E]. unfold store'. cbn [length app].
        rewrite Nat.add_0_r, firstn_skipn. reflexivity.
      + rewrite store_orbits_rows by lia. reflexivity.
    - destruct (Nat.eqb_spec (length new) 0) as [E|_]; [lia|].
      rewrite store_orbits_overflow by lia. rewrite Hlen. reflexivity. }
  split; [exact Hstep|]. split.
  - intros Hfit. unfold store'. rewrite !length_app, length_firstn, length_skipn. lia.
  - intros Hfull. rewrite Hstep.
    destruct (Nat.leb_spec (n_saved + length new) total_orbits) as [_|]; [|lia].
    unfold store'. rewrite Hfull, <- Hlen, skipn_all, app_nil_r.
    destruct fuel; cbn [run_loop];
      (destruct (Nat.ltb_spec (length store) (length store)) as [|_]; [lia|]);
      reflexivity.
Qed.

(** ** Batches of no candidate, tables of no row *)

Lemma reject_no_candidate self batch g :
  shape2 8 0 batch -> reject self batch g = (Error AxisError, g).
Proof.
  intros [Hlen Hrows].
  destruct batch as [|sma [|ecc [|argp [|lan [|inc [|tau [|mtot [|plx [|? ?]]]]]]]]];
    try discriminate Hlen.
  inversion Hrows as [|? ? Hsma _]; subst.
  unfold reject. cbn [unpack8]. rewrite unfold_bind_lift_ok.
  cbn [el_sma el_ecc el_argp el_lan el_inc el_tau el_mtot el_plx nth].
  destruct (calc_orbit_epochs _ _ _ _ _ _ _ _ _) as [[ra dec] vc].
  destruct (radec2seppa_nd ra dec) as [sep pa].
  rewrite Hsma. reflexivity.
Qed.

(** X4.  [run_sampler] with [num_samples = 0] and a target of at least one
    orbit never returns an array: its first iteration raises.  A batch of
    no candidate that [prepare_samples] returns makes [reject] raise at
    [np.rollaxis], before any uniform number is drawn.  For a sampler with
    eight priors and a non-empty table the error of the run is that one,
    unless an uncertainty of the scale-and-rotate epoch has its sign bit
    set: then [np.random.normal] has raised before, in [prepare_samples]. *)
Theorem run_sampler_no_candidates sys like self total_orbits g :
  OFTI_init sys like = Ok self ->
  0 < total_orbits ->
  (forall batch g1,
     prepare_samples self 0 g = (Ok batch, g1) ->
     reject self batch g1 = (Error AxisError, g1)) /\
  exists e g1,
    (forall fuel, run_sampler (S fuel) self total_orbits 0 g = Some (Error e, g1)) /\
    (length (sys_priors sys) = 8 -> data_table sys <> [] ->
     exists k,
       anchor_idx self = Ok k /\
       let negative := fun x => fltb (fcopysign (fconst 1) x) (fconst 0) in
       e = if orb (negative (at_ (sep_err self) k)) (negative (at_ (pa_err self) k))
           then ScaleNegative else AxisError).
Proof.
  intros Hinit HT. pose proof (tbl_nonempty _ _ Hinit) as Hne.
  apply OFTI_init_inv in Hinit as (Hc & Htbl & Hpr).
  assert (Hrej : forall batch g1,
             prepare_samples self 0 g = (Ok batch, g1) ->
             reject self batch g1 = (Error AxisError, g1)).
  { intros batch g1 Hp. apply reject_no_candidate.
    eapply prepare_samples_shape; eassumption. }
  split; [exact Hrej|].
  assert (Hout : length (sys_priors sys) = 8 -> data_table sys <> [] ->
            exists k, anchor_idx self = Ok k /\
              match fst (prepare_samples self 0 g) with
              | Ok _ => orb (fsignbit (at_ (sep_err self) k))
                            (fsignbit (at_ (pa_err self) k)) = false
              | Error e => orb (fsignbit (at_ (sep_err self) k))
                               (fsignbit (at_ (pa_err self) k)) = true /\
                           e = ScaleNegative
              end).
  { intros H8 Ht. rewrite <- Hpr in H8.
    apply (prepare_samples_outcome 0 g Hc H8 (Hne Ht)). }
  destruct (prepare_samples self 0 g) as [[batch|e] g1] eqn:Hp; cbn [fst] in Hout.
  - exists AxisError, g1. split.
    + intros fuel. unfold run_sampler. cbn [run_loop].
      destruct (Nat.ltb_spec 0 total_orbits) as [_|]; [|lia].
      rewrite Hp, (Hrej batch g1 eq_refl). reflexivity.
    + intros H8 Ht. destruct (Hout H8 Ht) as (k & Hk & Hs). exists k.
      split; [exact Hk|]. unfold fsignbit in Hs. cbv beta zeta. rewrite Hs. reflexivity.
  - exists e, g1. split.
    + intros fuel. unfold run_sampler. cbn [run_loop].
      destruct (Nat.ltb_spec 0 total_orbits) as [_|]; [|lia].
      rewrite Hp. reflexivity.
    + intros H8 Ht. destruct (Hout H8 Ht) as (k & Hk & Hs & He). exists k.
      split; [exact Hk|]. unfold fsignbit in Hs. cbv beta zeta. rewrite Hs. exact He.
Qed.

(** X5.  A system whose table has no row: construction succeeds (X1), and
    every call of [prepare_samples] draws the rows from the priors and then
    raises at [np.argmin] of the empty column of uncertainties, whatever the
    number of priors; so does the first iteration of [run_sampler]. *)
Theorem empty_table_raises_at_argmin sys like self n g :
  OFTI_init sys like = Ok self ->
  data_table sys = [] ->
  let g1 := snd (draw_rows (sys_priors sys) n g) in
  prepare_samples self n g = (Error ArgminEmpty, g1) /\
  forall fuel total_orbits, 0 < total_orbits ->
    run_sampler (S fuel) self total_orbits n g = Some (Error ArgminEmpty, g1).
Proof.
  intros Hinit Ht g1. apply OFTI_init_inv in Hinit as ((_ & _ & Hse & _) & Htbl & Hpr).
  assert (Hp : prepare_samples self n g = (Error ArgminEmpty, g1)).
  { unfold prepare_samples. rewrite unfold_bind_draw. unfold anchor_idx.
    rewrite Htbl, Ht in Hse. destruct (sep_err self); [|discriminate Hse].
    cbn [np_argmin]. rewrite unfold_bind_lift_error. unfold g1. now rewrite Hpr. }
  split; [exact Hp|]. intros fuel T HT. unfold run_sampler. cbn [run_loop].
  destruct (Nat.ltb_spec 0 T) as [_|]; [|lia]. rewrite Hp. reflexivity.
Qed.

(** X19.  When [prepare_samples] returns.  On a constructed sampler a call
    returns a batch exactly when the system has eight priors, its table has
    a row (so that there is a scale-and-rotate epoch) and neither
    uncertainty of that epoch has its sign bit set, whatever the batch size
    and the state of the random generator; the batch then has eight rows,
    one per orbital element, and [num_samples] columns, one per
    candidate. *)
Theorem prepare_samples_succeeds_iff sys like self n g :
  OFTI_init sys like = Ok self ->
  ((exists batch g1, prepare_samples self n g = (Ok batch, g1)) <->
   length (sys_priors sys) = 8 /\
   exists k,
     anchor_idx self = Ok k /\
     fltb (fcopysign (fconst 1) (at_ (sep_err self) k)) (fconst 0) = false /\
     fltb (fcopysign (fconst 1) (at_ (pa_err self) k)) (fconst 0) = false) /\
  forall batch g1, prepare_samples self n g = (Ok batch, g1) -> shape2 8 n batch.
Proof.
  intros Hinit. apply OFTI_init_inv in Hinit as (Hc & Htbl & Hpr).
  rewrite <- Hpr. split; [split|].
  - intros (batch & g1 & Hrun).
    assert (H8 : length (priors self) = 8).
    { destruct (Nat.eq_dec (length (priors self)) 8) as [H8|H8]; [exact H8|].
      rewrite (prepare_samples_error self n g (proj1 (proj2 (proj2 Hc)))) in Hrun
        by (left; exact H8).
      discriminate. }
    assert (Ht : tbl self <> []).
    { intros Ht.
      rewrite (prepare_samples_error self n g (proj1 (proj2 (proj2 Hc)))) in Hrun
        by (right; exact Ht).
      discriminate. }
    split; [exact H8|].
    destruct (prepare_samples_outcome n g Hc H8 Ht) as (k & Hk & H).
    rewrite Hrun in H. cbn [fst] in H. cbv zeta in H. unfold fsignbit in H.
    apply orb_false_iff in H as [H1 H2]. exists k. auto.
  - intros (H8 & k & Hk & H1 & H2).
    assert (Ht : tbl self <> []).
    { intros Ht. destruct Hc as (_ & _ & Hse & _). unfold anchor_idx in Hk.
      rewrite Ht in Hse. destruct (sep_err self); [discriminate Hk | discriminate Hse]. }
    destruct (prepare_samples_entries n g Hc H8 Ht) as (k' & Hk' & _ & H).
    assert (k' = k) as -> by congruence. cbv zeta in H.
    destruct H as (_ & _ & _ & _ & H3).
    destruct (H3 H1 H2) as (out & Ho & _). eauto.
  - intros batch g1. apply prepare_samples_shape. exact Hc.
Qed.

(** ** What [run_sampler] returns *)

Lemma nth_app_cases {T} (a b c : list T) j d :
  nth j (a ++ b ++ c) d =
  if j <? length a then nth j a d
  else if j - length a <? length b then nth (j - length a) b d
  else nth (j - length a - length b) c d.
Proof.
  destruct (Nat.ltb_spec j (length a)).
  - now rewrite app_nth1.
  - rewrite app_nth2 by lia. destruct (Nat.ltb_spec (j - length a) (length b)).
    + now rewrite app_nth1.
    + now rewrite app_nth2 by lia.
Qed.

Lemma firstn_app_exact {T} (a b c : list T) n :
  length a = n -> firstn (n + length b) (a ++ b ++ c) = a ++ b.
Proof.
  intros <-. rewrite app_assoc.
  replace (length a + length b) with (length (a ++ b)) by apply length_app.
  rewrite firstn_app, Nat.sub_diag, firstn_all. cbn [firstn]. apply app_nil_r.
Qed.

(** A run of the loop that returns has gone through iterations that all
    returned, and its store holds, after the rows it started with, the
    arrays [reject] returned in them. *)
Lemma run_loop_iterations self total_orbits n :
  consistent self ->
  forall fuel n_saved store g out g',
    n_saved <= total_orbits -> length store = total_orbits ->
    run_loop fuel self total_orbits n n_saved store g = Some (Ok out, g') ->
    exists k its,
      k <= fuel /\
      iterations k self n g = Some (its, g') /\
      out = firstn n_saved store ++ concat (map snd its) /\
      (n_saved = total_orbits -> its = [] /\ g' = g) /\
      forall batch g1 new, In (batch, g1, new) its ->
        shape2 8 n batch /\
        new = map (column batch)
                  (filter (accepted self batch (fst (random_uniform n g1))) (seq 0 n)).
Proof.
  intros Hc.
  induction fuel as [|fuel IH]; intros n_saved store g out g' Hle Hlen; cbn [run_loop];
    destruct (Nat.ltb_spec n_saved total_orbits) as [Hlt|Hge]; try discriminate.
  1, 3: intros H; injection H as <- <-; exists 0, []; split; [lia|];
        split; [reflexivity|]; split;
        [cbn [map concat]; rewrite app_nil_r, firstn_all2 by lia; reflexivity|];
        split; [auto | intros ? ? ? []].
  destruct (prepare_samples self n g) as [[batch|e] g1] eqn:Hp; cbv beta iota; [|discriminate].
  destruct (reject self batch g1) as [[new|e] g2] eqn:Hr; cbv beta iota; [|discriminate].
  pose proof (prepare_samples_shape _ _ Hc Hp) as Hs.
  assert (Hnew : new = map (column batch)
                   (filter (accepted self batch (fst (random_uniform n g1))) (seq 0 n))).
  { destruct (Nat.eq_dec n 0) as [E|Hn].
    - rewrite E in Hs. rewrite (reject_no_candidate self g1 Hs) in Hr. discriminate.
    - assert (Hpos : 0 < n) by lia.
      rewrite (reject_run g1 Hc Hs Hpos) in Hr. injection Hr as <- _. reflexivity. }
  assert (Hstep : forall n' store',
            n' = n_saved + length new ->
            firstn n' store' = firstn n_saved store ++ new ->
            n' <= total_orbits -> length store' = total_orbits ->
            run_loop fuel self total_orbits n n' store' g2 = Some (Ok out, g') ->
            exists k its,
              k <= S fuel /\
              iterations k self n g = Some (its, g') /\
              out = firstn n_saved store ++ concat (map snd its) /\
              (n_saved = total_orbits -> its = [] /\ g' = g) /\
              forall batch0 g0 new0, In (batch0, g0, new0) its ->
                shape2 8 n batch0 /\
                new0 = map (column batch0)
                         (filter (accepted self batch0 (fst (random_uniform n g0)))
                                 (seq 0 n))).
  { intros n' store' Hn' Hfirst Hle' Hlen' Hrun.
    destruct (IH n' store' g2 out g' Hle' Hlen' Hrun) as (k & its & Hk & Hits & Hout & _ & Hall).
    exists (S k), ((batch, g1, new) :: its). split; [lia|].
    split; [cbn [iterations]; rewrite Hp, Hr, Hits; reflexivity|].
    split; [rewrite Hout, Hfirst; cbn [map concat snd]; now rewrite app_assoc|].
    split; [lia|].
    intros batch0 g0 new0 [Hin|Hin]; [|apply Hall; exact Hin].
    injection Hin as <- <- <-. split; assumption. }
  destruct (Nat.eqb_spec (length new) 0) as [E|Hne].
  - intros Hrun. apply (Hstep n_saved store); try assumption; [lia|].
    destruct new; [|discriminate E]. now rewrite app_nil_r.
  - destruct (store_orbits new n_saved store) as [[n' store']|e] eqn:Es; cbv beta iota;
      [|discriminate].
    pose proof (store_orbits_inv _ _ (Nat.lt_le_incl _ _ (eq_ind_r (fun x => n_saved < x) Hlt Hlen)) Es)
      as (-> & Hb & Hl).
    rewrite store_orbits_rows in Es by lia. injection Es as <-.
    intros Hrun. refine (Hstep _ _ eq_refl _ _ _ Hrun); try assumption; try lia.
    apply firstn_app_exact. rewrite length_firstn. lia.
Qed.

(** X6.  What a call of [run_sampler] that returns has done and what it
    returns.  The call went through some number of iterations, each of
    which prepared a batch and got an array from [reject], each starting
    from the state of the random generator the one before left; the array
    returned is made of the arrays [reject] returned in them, in order, and
    of nothing else (no row of the uninitialised store survives); each of
    these arrays holds the columns of its batch whose test against the
    uniform draws of that call of [reject] passed.  The array has
    [total_orbits] rows of 8 entries.  For [total_orbits = 0] there is no
    iteration and no draw: the call returns its store,
    [np.empty((0, len(priors)))], at once. *)
Theorem run_sampler_returns_accepted sys like self fuel total_orbits n g out g' :
  OFTI_init sys like = Ok self ->
  run_sampler fuel self total_orbits n g = Some (Ok out, g') ->
  exists k its,
    k <= fuel /\
    iterations k self n g = Some (its, g') /\
    out = concat (map snd its) /\
    length out = total_orbits /\
    (forall row, In row out -> length row = 8) /\
    (forall batch g1 new, In (batch, g1, new) its ->
       new = map (fun i => map (fun row => at_ row i) batch)
                 (filter (accepted self batch (fst (random_uniform n g1))) (seq 0 n))) /\
    (total_orbits = 0 ->
     its = [] /\ g' = g /\ out = np_empty 0 (length (sys_priors sys))).
Proof.
  intros Hinit Hrun. apply OFTI_init_inv in Hinit as (Hc & _ & Hpr).
  pose proof (run_sampler_returns_full _ _ _ _ _ Hrun) as Hlen.
  unfold run_sampler in Hrun.
  destruct (@run_loop_iterations self total_orbits n Hc fuel 0
              (np_empty total_orbits (length (priors self))) g out g'
              (Nat.le_0_l _) (np_empty_length _ _) Hrun)
    as (k & its & Hk & Hits & Hout & Hzero & Hall).
  cbn [firstn app] in Hout.
  exists k, its. split; [exact Hk|]. split; [exact Hits|]. split; [exact Hout|].
  split; [exact Hlen|]. split; [|split].
  - intros row Hrow. rewrite Hout in Hrow. apply in_concat in Hrow as (new & Hnew & Hrow).
    apply in_map_iff in Hnew as ([[batch g1] new'] & E & Hin). cbn [snd] in E. subst new'.
    destruct (Hall batch g1 new Hin) as [[Hb _] Hn]. rewrite Hn in Hrow.
    apply in_map_iff in Hrow as (i & <- & _). unfold column. now rewrite length_map.
  - intros batch g1 new Hin. apply (Hall batch g1 new Hin).
  - intros ->. destruct (Hzero eq_refl) as [-> ->]. repeat split. rewrite Hout. reflexivity.
Qed.

(** X20.  [run_sampler] has no bound on its iterations: from a state of
    the random generator from which every iteration prepares a batch and
    accepts none of it (the states that can follow being of that kind
    again), a call with a target of at least one orbit goes through as
    many iterations as it is given and never returns or raises. *)
Theorem run_sampler_never_gives_up (Inv : rng -> Prop) self total_orbits n g :
  0 < total_orbits ->
  Inv g ->
  (forall g0, Inv g0 ->
     exists batch g1 g2,
       prepare_samples self n g0 = (Ok batch, g1) /\
       reject self batch g1 = (Ok [], g2) /\ Inv g2) ->
  forall fuel, run_sampler fuel self total_orbits n g = None.
Proof.
  intros HT Hg Hstep fuel. unfold run_sampler.
  generalize (np_empty total_orbits (length (priors self))) as store.
  revert g Hg. induction fuel as [|fuel IH]; intros g Hg store; cbn [run_loop];
    destruct (Nat.ltb_spec 0 total_orbits) as [_|]; try lia; [reflexivity|].
  destruct (Hstep g Hg) as (batch & g1 & g2 & Hp & Hr & Hg2).
  rewrite Hp, Hr. cbn [length Nat.eqb]. apply IH. exact Hg2.
Qed.

(** ** The likelihood handed to the constructor *)

Lemma run_loop_ext self1 self2 total_orbits n :
  (forall g, prepare_samples self1 n g = prepare_samples self2 n g) ->
  (forall batch g, reject self1 batch g = reject self2 batch g) ->
  forall fuel n_saved store g,
    run_loop fuel self1 total_orbits n n_saved store g =
    run_loop fuel self2 total_orbits n n_saved store g.
Proof.
  intros Hp Hr. induction fuel as [|fuel IH]; intros n_saved store g; cbn [run_loop];
    [reflexivity|].
  destruct (n_saved <? total_orbits); [|reflexivity].
  rewrite Hp. destruct (prepare_samples self2 n g) as [[batch|e] g1]; [|reflexivity].
  rewrite Hr. destruct (reject self2 batch g1) as [[new|e] g2]; [|reflexivity].
  destruct (length new =? 0); [apply IH|].
  destruct (store_orbits new n_saved store) as [[n' store']|e]; [apply IH | reflexivity].
Qed.

Lemma with_lnlike_same self (f : Lnlike) :
  (forall n g, prepare_samples (with_lnlike self f) n g = prepare_samples self n g) /\
  (forall batch g, reject (with_lnlike self f) batch g = reject self batch g) /\
  (forall fuel total_orbits n g,
     run_sampler fuel (with_lnlike self f) total_orbits n g
     = run_sampler fuel self total_orbits n g).
Proof.
  split; [reflexivity|]. split; [reflexivity|].
  intros fuel T n g. unfold run_sampler. cbn [priors with_lnlike].
  apply run_loop_ext; reflexivity.
Qed.

(** X7.  [OFTI] stores the likelihood it is given and never calls it
    ([reject] always calls [orbitize.lnlike.chi2_lnlike]): with another
    object in [self.lnlike] a sampler prepares the same batches, accepts
    the same candidates and returns the same orbits, from equal states of
    the random generator.  So do two samplers built one after the other on
    one system object with different likelihood arguments, once both are
    built: the second construction converts the ra/dec rows of the shared
    table once more, and from then on the first sampler reads the table as
    the second does and differs from it in the likelihood only. *)
Theorem OFTI_ignores_likelihood sys like1 like2 self1 self2 :
  OFTI_init sys like1 = Ok self1 ->
  OFTI_init (system self1) like2 = Ok self2 ->
  let self1' := OFTI_view self1 (system self2) in
  self2 = with_lnlike self1' (lnlike self2) /\
  (forall n g, prepare_samples self1' n g = prepare_samples self2 n g) /\
  (forall batch g, reject self1' batch g = reject self2 batch g) /\
  (forall fuel total_orbits n g,
     run_sampler fuel self1' total_orbits n g = run_sampler fuel self2 total_orbits n g) /\
  forall f,
    (forall n g, prepare_samples (with_lnlike self1 f) n g = prepare_samples self1 n g) /\
    (forall batch g, reject (with_lnlike self1 f) batch g = reject self1 batch g) /\
    (forall fuel total_orbits n g,
       run_sampler fuel (with_lnlike self1 f) total_orbits n g
       = run_sampler fuel self1 total_orbits n g).
Proof.
  intros H1 H2 self1'.
  assert (E : self2 = with_lnlike self1' (lnlike self2)).
  { pose proof (OFTI_init_views _ _ H2) as (_ & Hsys & Hso & Hpo & Hse & Hpe).
    unfold OFTI_init in H1, H2.
    apply rbind_ok in H1 as (f1 & _ & H1). apply rbind_ok in H2 as (f2 & _ & H2).
    apply rbind_ok in H1 as (ri & Hri & H1). apply rbind_ok in H1 as (si & Hsi & H1).
    apply rbind_ok in H1 as ([[[so po] se] pe] & Hcv & H1).
    apply rbind_ok in H2 as (ri2 & Hri2 & H2). apply rbind_ok in H2 as (si2 & Hsi2 & H2).
    apply rbind_ok in H2 as ([[[so2 po2] se2] pe2] & Hcv2 & H2).
    injection H1 as <-. cbn [system with_table radec seppa sys_priors data_table] in *.
    assert (ri2 = ri) as -> by congruence. assert (si2 = si) as -> by congruence.
    injection H2 as <-.
    cbn [system tbl with_table data_table sep_observed pa_observed sep_err pa_err] in *.
    unfold self1', OFTI_view, with_lnlike.
    cbn [system lnlike priors tbl radec_idx seppa_idx sep_observed pa_observed sep_err
         pa_err with_table data_table].
    rewrite <- Hso, <- Hpo, <- Hse, <- Hpe. reflexivity. }
  split; [exact E|].
  destruct (with_lnlike_same self1' (lnlike self2)) as (Ha & Hb & Hc).
  rewrite <- E in Ha, Hb, Hc.
  split; [intros; symmetry; apply Ha|]. split; [intros; symmetry; apply Hb|].
  split; [intros; symmetry; apply Hc|].
  intros f. apply with_lnlike_same.
Qed.

(** ** NaN among the uncertainties and among the chi-square terms *)

Lemma argmin_scan_first_nan :
  (forall m x, fisnan x = true -> fleb m x = false) ->
  forall l k i mp min_ind,
    k < length l -> fisnan (nth k l fnan) = true ->
    (forall j, j < k -> fisnan (nth j l fnan) = false) ->
    argmin_scan l i mp min_ind = i + k.
Proof.
  intros Hnan. induction l as [|x l IH]; intros k i mp min_ind Hk Hx Hbefore;
    simpl in Hk; [lia|].
  cbn [argmin_scan]. destruct k as [|k].
  - cbn [nth] in Hx. rewrite (Hnan mp x Hx), Hx. cbn [negb]. lia.
  - assert (Hx0 : fisnan x = false) by (apply (Hbefore 0); lia).
    assert (Hrest : forall j, j < k -> fisnan (nth j l fnan) = false)
      by (intros j Hj; apply (Hbefore (S j)); lia).
    cbn [nth] in Hx. rewrite Hx0.
    destruct (negb (fleb mp x)); rewrite (IH k) by (assumption || lia); lia.
Qed.

(** X8.  A NaN among the separation uncertainties decides the
    scale-and-rotate epoch: [np.argmin] returns the index of the first NaN,
    whatever the other uncertainties are. *)
Theorem anchor_idx_first_nan self k :
  (forall m x, fisnan x = true -> fleb m x = false) ->
  k < length (sep_err self) ->
  fisnan (at_ (sep_err self) k) = true ->
  (forall j, j < k -> fisnan (at_ (sep_err self) j) = false) ->
  anchor_idx self = Ok k.
Proof.
  unfold anchor_idx, at_. intros Hnan Hk Hx Hbefore.
  destruct (sep_err self) as [|mp r]; simpl in Hk; [lia|].
  cbn [np_argmin]. destruct k as [|k].
  - cbn [nth] in Hx. now rewrite Hx.
  - pose proof (Hbefore 0 (Nat.lt_0_succ k)) as H0. cbn [nth] in H0. rewrite H0.
    f_equal. apply (argmin_scan_first_nan Hnan r (k := k)); [lia | exact Hx |].
    intros j Hj. apply (Hbefore (S j)). lia.
Qed.

Section FirstMinimum.
Context {O : @ArithOrder F A}.
Hypothesis fltb_below :
  forall x m y, fltb x m = true -> fltb y m = false -> fisnan y = false -> fltb x y = true.

Lemma argmin_scan_first l : forall pre mp min_ind,
  min_ind < length pre ->
  nth min_ind (pre ++ l) fnan = mp ->
  (forall j, j < length (pre ++ l) -> fisnan (nth j (pre ++ l) fnan) = false) ->
  (forall j, j < length pre -> fltb (nth j (pre ++ l) fnan) mp = false) ->
  (forall j, j < min_ind -> fltb mp (nth j (pre ++ l) fnan) = true) ->
  forall j, j < argmin_scan l (length pre) mp min_ind ->
    fltb (nth (argmin_scan l (length pre) mp min_ind) (pre ++ l) fnan)
         (nth j (pre ++ l) fnan) = true.
Proof.
  induction l as [|x l IH]; intros pre mp min_ind Hk Hmp Hnan Hpre Hlow j Hj;
    cbn [argmin_scan] in *.
  - rewrite Hmp. apply Hlow. exact Hj.
  - assert (Hx : nth (length pre) (pre ++ x :: l) fnan = x)
      by (rewrite app_nth2, Nat.sub_diag by lia; reflexivity).
    assert (Hshift : pre ++ x :: l = (pre ++ [x]) ++ l)
      by (rewrite <- app_assoc; reflexivity).
    assert (Hlen : S (length pre) = length (pre ++ [x]))
      by (rewrite length_app; simpl; lia).
    assert (Hxn : fisnan x = false).
    { rewrite <- Hx. apply Hnan. rewrite length_app. simpl. lia. }
    assert (Hmn : fisnan mp = false).
    { rewrite <- Hmp. apply Hnan. rewrite length_app. lia. }
    destruct (fleb mp x) eqn:Hle; cbn [negb] in *.
    + rewrite Hshift, Hlen.
      apply IH; rewrite <- ?Hshift, <- ?Hlen; auto; try lia.
      intros i Hi. destruct (Nat.eq_dec i (length pre)) as [->|Hne].
      * rewrite Hx. apply fleb_not_gt; exact Hle.
      * apply Hpre; lia.
    + rewrite Hxn in *. rewrite Hshift, Hlen.
      assert (Hxm : fltb x mp = true) by (apply fleb_total; assumption).
      apply IH; rewrite <- ?Hshift, <- ?Hlen; auto; try lia.
      * intros i Hi. destruct (Nat.eq_dec i (length pre)) as [->|Hne].
        -- rewrite Hx. apply fltb_irrefl.
        -- destruct (fltb (nth i (pre ++ x :: l) fnan) x) eqn:Hlt; [|reflexivity].
           rewrite <- (Hpre i) by lia. symmetry. eapply fltb_trans; eassumption.
      * intros i Hi. apply (fltb_below _ mp _ Hxm); [apply Hpre; exact Hi|].
        apply Hnan. rewrite length_app. lia.
Qed.

(** X9.  Without NaN among the separation uncertainties, the
    scale-and-rotate epoch is the first row whose uncertainty is minimal:
    no row has a strictly smaller one, and every row before it has a
    strictly larger one. *)
Theorem anchor_idx_first_minimum self k :
  anchor_idx self = Ok k ->
  (forall j, j < length (sep_err self) -> fisnan (at_ (sep_err self) j) = false) ->
  k < length (sep_err self) /\
  (forall j, j < length (sep_err self) ->
     fltb (at_ (sep_err self) j) (at_ (sep_err self) k) = false) /\
  (forall j, j < k -> fltb (at_ (sep_err self) k) (at_ (sep_err self) j) = true).
Proof.
  unfold anchor_idx. intros Hk Hnan.
  destruct (np_argmin_minimal _ Hk) as [Hb Hmin].
  split; [exact Hb|]. split; [exact Hmin|].
  destruct (sep_err self) as [|mp r]; simpl in Hk; [discriminate|].
  unfold at_ in *. pose proof (Hnan 0 (Nat.lt_0_succ _)) as H0. cbn [nth] in H0.
  rewrite H0 in Hk. injection Hk as <-.
  intros j Hj.
  apply (argmin_scan_first r [mp] (mp := mp) (min_ind := 0)); simpl; auto; try lia.
  intros i Hi. assert (i = 0) as -> by lia. apply fltb_irrefl.
Qed.

End FirstMinimum.

(** ** The scale-and-rotate epoch, call by call *)






Section Anchor.
Context {O : @ArithOrder F A}.
Hypothesis fleb_nan : forall m x, fisnan x = true -> fleb m x = false.
Hypothesis fltb_below :
  forall x m y, fltb x m = true -> fltb y m = false -> fisnan y = false -> fltb x y = true.



End Anchor.

Lemma in_skipn {T} (x : T) n l : In x (skipn n l) -> In x l.
Proof. intros H. rewrite <- (firstn_skipn n l). apply in_or_app. now right. Qed.

Lemma in_firstn {T} (x : T) n l : In x (firstn n l) -> In x l.
Proof. intros H. rewrite <- (firstn_skipn n l). apply in_or_app. now left. Qed.

Lemma fold_zeros (l : list F) :
  fadd (fconst 0) (fconst 0) = fconst 0 ->
  (forall x, In x l -> x = fconst 0) -> fold_left fadd l (fconst 0) = fconst 0.
Proof.
  intros H0. induction l as [|y l IH]; intros Hall; [reflexivity|]. cbn [fold_left].
  rewrite (Hall y) by now left. rewrite H0. apply IH. intros z Hz. apply Hall. now right.
Qed.

Lemma sum_block_zeros (l : list F) :
  fadd (fconst 0) (fconst 0) = fconst 0 ->
  (forall x, In x l -> x = fconst 0) -> 8 <= length l -> sum_block l = fconst 0.
Proof.
  intros H0 Hall Hn.
  assert (Hat : forall i, i < length l -> at_ l i = fconst 0).
  { intros i Hi. apply Hall. unfold at_. apply nth_In. exact Hi. }
  assert (Hdiv : 8 * (length l / 8) <= length l) by (apply Nat.Div0.mul_div_le).
  assert (Hlane : forall j, j < 8 -> sum_lane l j = fconst 0).
  { intros j Hj. unfold sum_lane. rewrite Hat by lia.
    apply fold_zeros; [exact H0|]. intros x Hx.
    apply in_map_iff in Hx as (b & <- & Hb). apply in_seq in Hb. apply Hat.
    assert (1 <= length l / 8) by (apply Nat.div_le_lower_bound; lia). nia. }
  unfold sum_block. cbv zeta. rewrite !Hlane by lia. rewrite !H0.
  apply fold_zeros; [exact H0|]. intros x Hx. apply Hall.
  eapply in_skipn. exact Hx.
Qed.

Lemma pairwise_sum_zeros fuel : forall l : list F,
  fadd (fconst 0) (fconst 0) = fconst 0 ->
  (forall x, In x l -> x = fconst 0) -> pairwise_sum_rec fuel l = fconst 0.
Proof.
  induction fuel as [|fuel IH]; intros l H0 Hall; cbn [pairwise_sum_rec];
    destruct (Nat.ltb_spec (length l) 8) as [Hlt|Hge];
    try (apply fold_zeros; assumption);
    destruct (Nat.leb_spec (length l) 128);
    try (apply sum_block_zeros; assumption).
  rewrite !IH; try assumption.
  - intros x Hx. apply Hall. eapply in_skipn. exact Hx.
  - intros x Hx. apply Hall. eapply in_firstn. exact Hx.
Qed.

Lemma np_sum_zeros (l : list F) :
  fadd (fconst 0) (fconst 0) = fconst 0 ->
  (forall x, In x l -> x = fconst 0) -> np_sum l = fconst 0.
Proof.
  intros H0 Hall. destruct l as [|x r]; [reflexivity|]. unfold np_sum, pairwise_sum.
  rewrite pairwise_sum_zeros by assumption. exact H0.
Qed.

(** X10.  A candidate all of whose chi-square terms are NaN has chi-square
    sum zero: [np.nansum] counts each NaN as zero, lnp is -0/2, and the
    candidate is accepted whenever the logarithm of its uniform draw is
    below that. *)
Theorem reject_accepts_nan_candidate sys like self batch n g i :
  OFTI_init sys like = Ok self ->
  shape2 8 n batch ->
  i < n ->
  fadd (fconst 0) (fconst 0) = fconst 0 ->
  (forall x, In x (chi2_terms self batch i) -> fisnan x = true) ->
  let u := fst (random_uniform n g) in
  np_nansum (chi2_terms self batch i) = fconst 0 /\
  exists out,
    reject self batch g = (Ok out, snd (random_uniform n g)) /\
    (fltb (np_log (at_ u i)) (fdiv (fneg (fconst 0)) (fconst 2)) = true ->
     In (column batch i) out).
Proof.
  intros Hinit Hs Hi H0 Hnan u. apply OFTI_init_inv in Hinit as (Hc & _ & _).
  assert (Hsum : np_nansum (chi2_terms self batch i) = fconst 0).
  { unfold np_nansum. apply np_sum_zeros; [exact H0|].
    intros x Hx. apply in_map_iff in Hx as (y & <- & Hy).
    unfold nan_to_zero. now rewrite (Hnan y Hy). }
  split; [exact Hsum|].
  assert (Hn : 0 < n) by lia.
  rewrite (reject_run g Hc Hs Hn). eexists. split; [reflexivity|].
  intros Hlt. apply in_map. apply filter_In. split; [apply in_seq; lia|].
  unfold accepted, lnp_at, lnp_of. rewrite Hsum. exact Hlt.
Qed.

End MoreSamplerFacts.

(** * Properties of the MCMC samplers *)

(** ** [np.union1d] *)

Lemma insert_sorted_In x y l : In x (insert_sorted y l) <-> x = y \/ In x l.
Proof.
  induction l as [|z l IH]; simpl.
  - intuition.
  - destruct (y <=? z); simpl; [intuition|]. rewrite IH. intuition.
Qed.

Lemma sort_indices_In x l : In x (sort_indices l) <-> In x l.
Proof.
  induction l as [|y l IH]; simpl; [reflexivity|].
  rewrite insert_sorted_In, IH. intuition.
Qed.

Lemma insert_sorted_sorted y l :
  StronglySorted le l -> StronglySorted le (insert_sorted y l).
Proof.
  induction l as [|z l IH]; intros Hs; simpl.
  - repeat constructor.
  - inversion Hs as [|? ? Hl Hz]; subst.
    destruct (Nat.leb_spec y z) as [Hle|Hgt].
    + constructor; [exact Hs|]. constructor; [exact Hle|].
      eapply Forall_impl; [|exact Hz]. intros a Ha. lia.
    + constructor; [apply IH; exact Hl|].
      apply Forall_forall. intros a Ha. apply insert_sorted_In in Ha as [->|Ha]; [lia|].
      rewrite Forall_forall in Hz. apply Hz. exact Ha.
Qed.

Lemma sort_indices_sorted l : StronglySorted le (sort_indices l).
Proof.
  induction l as [|y l IH]; simpl; [constructor | apply insert_sorted_sorted; exact IH].
Qed.

Lemma keep_changes_In x l : forall prev,
  In x (prev :: keep_changes prev l) <-> In x (prev :: l).
Proof.
  induction l as [|y l IH]; intros prev; [reflexivity|].
  cbn [keep_changes]. destruct (Nat.eqb_spec y prev) as [->|Hne].
  - rewrite IH. simpl. intuition.
  - specialize (IH y). simpl in *. intuition.
Qed.

Lemma keep_changes_sorted l : forall prev,
  StronglySorted le (prev :: l) -> StronglySorted lt (prev :: keep_changes prev l).
Proof.
  induction l as [|y l IH]; intros prev Hs; cbn [keep_changes].
  - repeat constructor.
  - inversion Hs as [|? ? Hl Hp]; subst. inversion Hp as [|? ? Hy _]; subst.
    destruct (Nat.eqb_spec y prev) as [->|Hne]; [apply IH; exact Hl|].
    specialize (IH y Hl). constructor; [exact IH|].
    inversion IH as [|? ? _ Hall]; subst. constructor; [lia|].
    eapply Forall_impl; [|exact Hall]. intros a Ha. lia.
Qed.

Lemma np_union1d_spec a b :
  StronglySorted lt (np_union1d a b) /\
  forall i, In i (np_union1d a b) <-> In i a \/ In i b.
Proof.
  unfold np_union1d, np_unique.
  pose proof (sort_indices_sorted (a ++ b)) as Hs.
  pose proof (fun i => sort_indices_In i (a ++ b)) as Hin.
  destruct (sort_indices (a ++ b)) as [|x r].
  - split; [constructor|]. intros i. rewrite <- in_app_iff, <- Hin. reflexivity.
  - split; [apply keep_changes_sorted; exact Hs|].
    intros i. rewrite keep_changes_In, Hin, in_app_iff. reflexivity.
Qed.

Section McmcFacts.
Context {F : Type} {A : Arith F} {C : Collaborators F} {E : @McmcCollaborators F C}.

(** ** [_logl] *)

Lemma map_seq_table {X Y} (f : nat -> Y) (h : X -> Y) (t : list X) :
  (forall i x, nth_error t i = Some x -> f i = h x) ->
  map f (seq 0 (length t)) = map h t.
Proof.
  revert f. induction t as [|x t IH]; intros f Hf; [reflexivity|].
  cbn [length seq map]. rewrite (Hf 0 x eq_refl). f_equal.
  rewrite <- seq_shift, map_map. apply IH. intros i y Hy. apply (Hf (S i)). exact Hy.
Qed.

Lemma at_map_table {X} (q : X -> F) (t : list X) i x :
  nth_error t i = Some x -> at_ (map q t) i = q x.
Proof.
  intros H. unfold at_. apply nth_error_nth. rewrite nth_error_map, H. reflexivity.
Qed.

(** The two columns of the table, folded into one row per epoch. *)
Lemma transpose_columns {X} (q1 q2 : X -> F) (t : list X) :
  transpose [map q1 t; map q2 t] = map (fun r => [q1 r; q2 r]) t.
Proof.
  unfold transpose. cbn [nth]. rewrite length_map.
  apply map_seq_table. intros i x Hx. unfold column. cbn [map].
  now rewrite (@at_map_table _ q1 t i x Hx), (@at_map_table _ q2 t i x Hx).
Qed.

(** X11.  What [_logl] hands to the likelihood and what it makes of the
    result.  The observations are passed as one row [quant1, quant2] per
    epoch and the uncertainties as one row [quant1_err, quant2_err], as the
    table has them at the time of the call ([_logl] converts no row); the
    indices are the members of [system.seppa[0]] and [system.seppa[1]],
    each once, in increasing order.  The value is the sum of the entries
    the likelihood returns, its NaN entries replaced by zero; the sum is
    numpy's: the identity 0 plus the pairwise sum [P] of the entries, which
    adds fewer than 8 terms in order, up to 128 terms in eight lanes and
    more by halves.  A [system.seppa] of fewer than two entries raises
    IndexError. *)
Theorem logl_call sys f params :
  let P := pairwise_sum in
  let total := fun l : list F =>
    match l with
    | [] => fconst 0
    | _ :: _ => fadd (fconst 0) (P l)
    end in
  logl sys f params =
    match seppa sys with
    | s0 :: s1 :: _ =>
        Ok (total
              (map (fun x => if fisnan x then fconst 0 else x)
                 (lnlike_call f
                    (map (fun r => [quant1 r; quant2 r]) (data_table sys))
                    (map (fun r => [quant1_err r; quant2_err r]) (data_table sys))
                    (compute_model sys params)
                    (np_union1d s0 s1))))
    | l => Error (IndexError (length l) (length l))
    end /\
  (forall l,
     P l =
     let m := length l in
     if m <? 8 then fold_left fadd l (fconst 0)
     else if m <=? 128 then
       let lane := fun j =>
         fold_left fadd (map (fun b => nth (8 * b + j) l fnan) (seq 1 (m / 8 - 1)))
                   (nth j l fnan) in
       fold_left fadd (skipn (m - m mod 8) l)
         (fadd (fadd (fadd (lane 0) (lane 1)) (fadd (lane 2) (lane 3)))
               (fadd (fadd (lane 4) (lane 5)) (fadd (lane 6) (lane 7))))
     else
       let m2 := m / 2 - (m / 2) mod 8 in
       fadd (P (firstn m2 l)) (P (skipn m2 l))) /\
  forall s0 s1,
    StronglySorted lt (np_union1d s0 s1) /\
    forall i, In i (np_union1d s0 s1) <-> In i s0 \/ In i s1.
Proof.
  cbv zeta. split; [|split; [apply pairwise_sum_eq | intros s0 s1; apply np_union1d_spec]].
  unfold logl. rewrite !transpose_columns.
  destruct (seppa sys) as [|s0 [|s1 r]]; reflexivity.
Qed.

(** ** The constructors *)

Lemma reshape2_ok rows cols (v : list F) :
  length v = cols * rows -> reshape2 rows cols v = Done (reshape_rows rows cols v).
Proof.
  intros H. unfold reshape2. rewrite H, Nat.mul_comm, Nat.eqb_refl. reflexivity.
Qed.

Lemma pt_init_positions_run ps num_temps num_walkers g :
  pt_init_positions ps num_temps num_walkers g =
  (Done (map (reshape_rows num_temps num_walkers)
             (fst (draw_rows ps (num_walkers * num_temps) g))),
   snd (draw_rows ps (num_walkers * num_temps) g)).
Proof.
  revert g. induction ps as [|p ps IH]; intros g; [reflexivity|].
  cbn [pt_init_positions draw_rows].
  pose proof (draws_length (draw_sample p) (num_walkers * num_temps) g) as Hl.
  fold (draw_samples p (num_walkers * num_temps)) in Hl.
  destruct (draw_samples p (num_walkers * num_temps) g) as [v g1]. cbn [fst] in Hl.
  rewrite (reshape2_ok _ _ _ Hl), IH.
  destruct (draw_rows ps (num_walkers * num_temps) g1) as [rows g2]. reflexivity.
Qed.

Lemma reshape_rows_shape rows cols (v : list F) :
  length (reshape_rows rows cols v) = rows /\
  Forall (fun r => length r = cols) (reshape_rows rows cols v).
Proof.
  unfold reshape_rows. split; [now rewrite length_map, length_seq|].
  apply Forall_forall. intros r Hr. apply in_map_iff in Hr as (i & <- & _).
  now rewrite length_map, length_seq.
Qed.

Lemma reshape_rows_at rows cols (v : list F) i j :
  i < rows -> j < cols ->
  at_ (nth i (reshape_rows rows cols v) []) j = at_ v (i * cols + j).
Proof.
  intros Hi Hj. unfold reshape_rows.
  rewrite map_seq_nth by exact Hi. unfold at_ at 1.
  rewrite map_seq_nth by exact Hj. reflexivity.
Qed.

Lemma shape_of_reshape rows cols (v : list F) :
  shape_of (reshape_rows rows cols v) = (rows, if rows =? 0 then 0 else cols).
Proof.
  unfold shape_of. f_equal.
  - apply reshape_rows_shape.
  - unfold reshape_rows. destruct rows; [reflexivity|].
    cbn [seq map nth Nat.eqb]. now rewrite length_map, length_seq.
Qed.

Lemma has_shape_reshape rows cols (v : list F) :
  has_shape (rows, if rows =? 0 then 0 else cols) (reshape_rows rows cols v) = true.
Proof.
  destruct (reshape_rows_shape rows cols v) as [Hl Hr].
  unfold has_shape. cbn [fst snd]. rewrite Hl, Nat.eqb_refl. cbn [andb].
  apply forallb_forall. intros r Hin. rewrite Forall_forall in Hr.
  rewrite (Hr r Hin). destruct rows.
  - unfold reshape_rows in Hin. destruct Hin.
  - apply Nat.eqb_refl.
Qed.

(** The closed form of the initial positions of [PTMCMC]: entry
    [t][w][p] is draw number [t * num_walkers + w] of prior [p]. *)
Lemma np_dstack_reshaped rows cols (vs : list (list F)) :
  vs <> [] ->
  np_dstack (map (reshape_rows rows cols) vs) =
  Done (map (fun t => map (fun w => map (fun v => at_ v (t * cols + w)) vs) (seq 0 cols))
            (seq 0 rows)).
Proof.
  intros Hne. destruct vs as [|v0 vs]; [congruence|].
  set (vs' := v0 :: vs).
  change (map (reshape_rows rows cols) vs')
    with (reshape_rows rows cols v0 :: map (reshape_rows rows cols) vs).
  unfold np_dstack.
  change (reshape_rows rows cols v0 :: map (reshape_rows rows cols) vs)
    with (map (reshape_rows rows cols) vs').
  assert (Hall : forallb (has_shape (shape_of (reshape_rows rows cols v0)))
                         (map (reshape_rows rows cols) vs') = true).
  { apply forallb_forall. intros a Ha. apply in_map_iff in Ha as (v & <- & _).
    rewrite shape_of_reshape. apply has_shape_reshape. }
  rewrite Hall, shape_of_reshape. cbn [fst snd]. f_equal.
  apply map_ext_in. intros t Ht. apply in_seq in Ht.
  destruct (Nat.eqb_spec rows 0) as [E0|_]; [lia|].
  apply map_ext_in. intros w Hw. apply in_seq in Hw.
  rewrite map_map. apply map_ext. intros v. apply reshape_rows_at; lia.
Qed.

Lemma PTMCMC_init_drawn like sys num_temps num_walkers num_threads g f :
  Sampler_init like = Ok f ->
  sys_priors sys <> [] ->
  PTMCMC_init like sys num_temps num_walkers num_threads g =
  (Done {| pt_system := sys; pt_lnlike := f;
           pt_num_temps := num_temps; pt_num_walkers := num_walkers;
           pt_num_threads := num_threads;
           pt_priors := sys_priors sys;
           pt_num_params := length (sys_priors sys);
           pt_curr_pos :=
             map (fun t =>
                    map (fun w =>
                           map (fun row => at_ row (t * num_walkers + w))
                               (fst (draw_rows (sys_priors sys)
                                               (num_walkers * num_temps) g)))
                        (seq 0 num_walkers))
                 (seq 0 num_temps);
           pt_chain_attr := None; pt_lnlikes := None |},
   snd (draw_rows (sys_priors sys) (num_walkers * num_temps) g)).
Proof.
  intros Hf Hne. unfold PTMCMC_init. rewrite Hf, pt_init_positions_run.
  rewrite np_dstack_reshaped; [reflexivity|].
  pose proof (draw_rows_shape (sys_priors sys) (num_walkers * num_temps) g) as [Hl _].
  intros E0. rewrite E0 in Hl. destruct (sys_priors sys); [congruence | discriminate Hl].
Qed.

Lemma PTMCMC_init_no_prior like sys num_temps num_walkers num_threads g f :
  Sampler_init like = Ok f ->
  sys_priors sys = [] ->
  PTMCMC_init like sys num_temps num_walkers num_threads g = (Fail NoArrays, g).
Proof. intros Hf Hp. unfold PTMCMC_init. rewrite Hf, Hp. reflexivity. Qed.

(** X12.  [PTMCMC.__init__] in closed form.  It fails when the likelihood
    name does not resolve or when the system has no prior, in both cases
    without a draw from the random generator.  Otherwise every prior is
    drawn [num_walkers * num_temps] times, the priors in their order, and
    the initial position of walker [w] at temperature [t] has for its
    coordinate [p] draw number [t * num_walkers + w] of prior [p]: an array
    of shape [(num_temps, num_walkers, num_params)]. *)
Theorem PTMCMC_init_positions like sys num_temps num_walkers num_threads g :
  PTMCMC_init like sys num_temps num_walkers num_threads g =
    match Sampler_init like with
    | Error e => (Fail (Raised e), g)
    | Ok f =>
        match sys_priors sys with
        | [] => (Fail NoArrays, g)
        | _ =>
            let draws := draw_rows (sys_priors sys) (num_walkers * num_temps) g in
            (Done {| pt_system := sys; pt_lnlike := f;
                     pt_num_temps := num_temps; pt_num_walkers := num_walkers;
                     pt_num_threads := num_threads;
                     pt_priors := sys_priors sys;
                     pt_num_params := length (sys_priors sys);
                     pt_curr_pos :=
                       map (fun t =>
                              map (fun w =>
                                     map (fun row => at_ row (t * num_walkers + w))
                                         (fst draws))
                                  (seq 0 num_walkers))
                           (seq 0 num_temps);
                     pt_chain_attr := None; pt_lnlikes := None |},
             snd draws)
        end
    end.
Proof.
  destruct (Sampler_init like) as [f|e] eqn:Hf;
    [|unfold PTMCMC_init; rewrite Hf; reflexivity].
  destruct (sys_priors sys) as [|p ps] eqn:Eps.
  - apply (@PTMCMC_init_no_prior like sys num_temps num_walkers num_threads g f Hf Eps).
  - cbv zeta. rewrite <- Eps. apply PTMCMC_init_drawn; [exact Hf|].
    rewrite Eps. discriminate.
Qed.

Lemma np_stack_rows (rows : list (list F)) n :
  rows <> [] -> Forall (fun r => length r = n) rows -> np_stack rows = Done rows.
Proof.
  intros Hne Hall. destruct rows as [|a rows]; [congruence|]. cbn [np_stack].
  assert (H : forallb (fun b => length b =? length a) (a :: rows) = true).
  { apply forallb_forall. intros b Hb. rewrite Forall_forall in Hall.
    rewrite (Hall b Hb), (Hall a (or_introl eq_refl)). apply Nat.eqb_refl. }
  now rewrite H.
Qed.

Lemma EnsembleMCMC_init_drawn like sys num_walkers num_threads g f :
  Sampler_init like = Ok f ->
  sys_priors sys <> [] ->
  EnsembleMCMC_init like sys num_walkers num_threads g =
  (Done {| en_system := sys; en_lnlike := f;
           en_num_walkers := num_walkers; en_num_threads := num_threads;
           en_priors := sys_priors sys;
           en_num_params := length (sys_priors sys);
           en_curr_pos :=
             map (fun w => map (fun row => at_ row w)
                               (fst (draw_rows (sys_priors sys) num_walkers g)))
                 (seq 0 num_walkers);
           en_chain_attr := None; en_lnlikes := None |},
   snd (draw_rows (sys_priors sys) num_walkers g)).
Proof.
  intros Hf Hne. unfold EnsembleMCMC_init. rewrite Hf.
  pose proof (draw_rows_shape (sys_priors sys) num_walkers g) as [Hl Hrows].
  destruct (draw_rows (sys_priors sys) num_walkers g) as [rows g1]. cbn [fst snd] in *.
  assert (Hr : rows <> []).
  { intros E0. rewrite E0 in Hl. destruct (sys_priors sys); [congruence | discriminate Hl]. }
  rewrite (np_stack_rows Hr Hrows). unfold transpose.
  destruct rows as [|r0 rows]; [congruence|]. cbn [nth].
  inversion Hrows as [|? ? Hr0 _]; subst. reflexivity.
Qed.

Lemma EnsembleMCMC_init_no_prior like sys num_walkers num_threads g f :
  Sampler_init like = Ok f ->
  sys_priors sys = [] ->
  EnsembleMCMC_init like sys num_walkers num_threads g = (Fail NoArrays, g).
Proof. intros Hf Hp. unfold EnsembleMCMC_init. rewrite Hf, Hp. reflexivity. Qed.

(** X13.  [EnsembleMCMC.__init__] in closed form.  It fails when the
    likelihood name does not resolve or when the system has no prior, in
    both cases without a draw from the random generator.  Otherwise every
    prior is drawn [num_walkers] times, the priors in their order, and the
    initial position of walker [w] has for its coordinate [p] draw number
    [w] of prior [p]: an array of shape [(num_walkers, num_params)]. *)
Theorem EnsembleMCMC_init_positions like sys num_walkers num_threads g :
  EnsembleMCMC_init like sys num_walkers num_threads g =
    match Sampler_init like with
    | Error e => (Fail (Raised e), g)
    | Ok f =>
        match sys_priors sys with
        | [] => (Fail NoArrays, g)
        | _ =>
            let draws := draw_rows (sys_priors sys) num_walkers g in
            (Done {| en_system := sys; en_lnlike := f;
                     en_num_walkers := num_walkers; en_num_threads := num_threads;
                     en_priors := sys_priors sys;
                     en_num_params := length (sys_priors sys);
                     en_curr_pos :=
                       map (fun w => map (fun row => at_ row w) (fst draws))
                           (seq 0 num_walkers);
                     en_chain_attr := None; en_lnlikes := None |},
             snd draws)
        end
    end.
Proof.
  destruct (Sampler_init like) as [f|e] eqn:Hf;
    [|unfold EnsembleMCMC_init; rewrite Hf; reflexivity].
  destruct (sys_priors sys) as [|p ps] eqn:Eps.
  - apply (@EnsembleMCMC_init_no_prior like sys num_walkers num_threads g f Hf Eps).
  - cbv zeta. rewrite <- Eps. apply EnsembleMCMC_init_drawn; [exact Hf|].
    rewrite Eps. discriminate.
Qed.

(** X14.  With one temperature, [PTMCMC] starts from the walker positions
    [EnsembleMCMC] starts from.  Called on one system with equal numbers of
    walkers from one state of the random generator, the two constructors
    succeed together and fail together; when they succeed they leave the
    generator in one state and the single temperature of the first holds
    the positions of the second; when they fail they raise the same
    exception from the same state. *)
Theorem PTMCMC_one_temperature like sys num_walkers threads threads' g :
  match PTMCMC_init like sys 1 num_walkers threads g,
        EnsembleMCMC_init like sys num_walkers threads' g with
  | (Done self, g1), (Done self_e, g2) =>
      g1 = g2 /\
      pt_curr_pos self = [en_curr_pos self_e] /\
      pt_priors self = en_priors self_e /\
      pt_lnlike self = en_lnlike self_e /\
      pt_num_params self = en_num_params self_e
  | (Fail e1, g1), (Fail e2, g2) => e1 = e2 /\ g1 = g2
  | _, _ => False
  end.
Proof.
  destruct (Sampler_init like) as [f|e] eqn:Hf;
    [|unfold PTMCMC_init, EnsembleMCMC_init; rewrite Hf; split; reflexivity].
  destruct (sys_priors sys) as [|p ps] eqn:Hp.
  - rewrite (@PTMCMC_init_no_prior like sys 1 num_walkers threads g f Hf Hp).
    rewrite (@EnsembleMCMC_init_no_prior like sys num_walkers threads' g f Hf Hp).
    split; reflexivity.
  - assert (Hne : sys_priors sys <> []) by (rewrite Hp; discriminate).
    rewrite (@PTMCMC_init_drawn like sys 1 num_walkers threads g f Hf Hne), Nat.mul_1_r.
    rewrite (@EnsembleMCMC_init_drawn like sys num_walkers threads' g f Hf Hne).
    repeat split.
Qed.

(** ** [run_sampler] of the MCMC samplers *)

Lemma last_cons {Y} (l : list Y) : forall y d, last (y :: l) d = last l y.
Proof.
  induction l as [|z l IH]; intros y d; [reflexivity|].
  change (last (y :: z :: l) d) with (last (z :: l) d). now rewrite !IH.
Qed.

Lemma loop_vars_last {Y} (l : list Y) : forall before, loop_vars before l = last l before.
Proof.
  unfold loop_vars. induction l as [|y l IH]; intros before; [reflexivity|].
  cbn [fold_left]. rewrite IH. symmetry. apply last_cons.
Qed.

(** X15.  [PTMCMC.run_sampler] whose burn-in pass yields no state (as
    with [burn_steps = 0], the default, when the sampler yields one state
    per step) fails: the loop variable
    [pos] is read unassigned after the loop.  The object is left as it
    was, the sampler built for the call is dropped, and nothing is
    printed. *)
Theorem PT_run_sampler_unbound_pos self total_orbits burn_steps thin g burn s1 g1 :
  pt_sample (PT_sampler self) (pt_curr_pos self) burn_steps thin g = (burn, s1, g1) ->
  raised burn = None ->
  yielded burn = [] ->
  PT_run_sampler self total_orbits burn_steps thin g =
  {| returned := Fail (UnboundLocalError "pos"); self_after := self;
     printed := []; rng_after := g1 |}.
Proof.
  intros Hs Hr Hy. unfold PT_run_sampler. rewrite Hs, Hr, Hy. reflexivity.
Qed.

(** X16.  The same for [EnsembleMCMC.run_sampler]. *)
Theorem Ensemble_run_sampler_unbound_pos self total_orbits burn_steps thin g burn s1 g1 :
  en_sample (Ensemble_sampler self) (en_curr_pos self) None burn_steps thin g
  = (burn, s1, g1) ->
  raised burn = None ->
  yielded burn = [] ->
  Ensemble_run_sampler self total_orbits burn_steps thin g =
  {| returned := Fail (UnboundLocalError "pos"); self_after := self;
     printed := []; rng_after := g1 |}.
Proof.
  intros Hs Hr Hy. unfold Ensemble_run_sampler. rewrite Hs, Hr, Hy. reflexivity.
Qed.

(** X17.  A call of [PTMCMC.run_sampler] that returns.  Its burn-in pass
    started at [curr_pos] and yielded at least one state; the sampler was
    reset and the second pass started at the last position of the burn-in.
    Afterwards [curr_pos] is the last position the second pass yielded
    (that of the burn-in if it yielded none), [chain] and [lnlikes] are
    those of the returned sampler, and a later call builds its sampler
    from the same arguments, so that it continues from this [curr_pos]. *)
Theorem PT_run_sampler_returns self total_orbits burn_steps thin g s :
  returned (PT_run_sampler self total_orbits burn_steps thin g) = Done s ->
  let r := PT_run_sampler self total_orbits burn_steps thin g in
  exists burn s1 g1 pos lnprob lnlike run,
    pt_sample (PT_sampler self) (pt_curr_pos self) burn_steps thin g = (burn, s1, g1) /\
    raised burn = None /\
    last (map Some (yielded burn)) None = Some (pos, lnprob, lnlike) /\
    pt_sample (pt_reset s1) pos total_orbits thin g1 = (run, s, rng_after r) /\
    raised run = None /\
    pt_curr_pos (self_after r) = fst (fst (last (yielded run) (pos, lnprob, lnlike))) /\
    pt_chain_attr (self_after r) = Some (pt_chain s) /\
    pt_lnlikes (self_after r) = Some (pt_logprobability s) /\
    printed r = ["Burn in complete"%string] /\
    PT_sampler (self_after r) = PT_sampler self.
Proof.
  cbv zeta. unfold PT_run_sampler.
  destruct (pt_sample (PT_sampler self) (pt_curr_pos self) burn_steps thin g)
    as [[burn s1] g1] eqn:Hb.
  destruct (raised burn) eqn:Hrb; [discriminate|].
  rewrite loop_vars_last.
  destruct (last (map Some (yielded burn)) None) as [[[pos lnprob] lnlike]|] eqn:Hl;
    [|discriminate].
  destruct (pt_sample (pt_reset s1) pos total_orbits thin g1) as [[run s2] g2] eqn:Hrun.
  destruct (raised run) eqn:Hrr; [discriminate|].
  rewrite loop_vars_last.
  destruct (last (yielded run) (pos, lnprob, lnlike)) as [[pos' lp'] ll'] eqn:Hlast.
  cbn [returned self_after printed rng_after pt_curr_pos pt_chain_attr pt_lnlikes].
  intros H. injection H as <-.
  exists burn, s1, g1, pos, lnprob, lnlike, run.
  rewrite Hlast. repeat split; assumption || reflexivity.
Qed.

(** X18.  A call of [EnsembleMCMC.run_sampler] that returns: as for
    [PTMCMC], and the second pass is also given the log-probabilities the
    burn-in yielded last. *)
Theorem Ensemble_run_sampler_returns self total_orbits burn_steps thin g s :
  returned (Ensemble_run_sampler self total_orbits burn_steps thin g) = Done s ->
  let r := Ensemble_run_sampler self total_orbits burn_steps thin g in
  exists burn s1 g1 pos lnprob rstate run,
    en_sample (Ensemble_sampler self) (en_curr_pos self) None burn_steps thin g
    = (burn, s1, g1) /\
    raised burn = None /\
    last (map Some (yielded burn)) None = Some (pos, lnprob, rstate) /\
    en_sample (en_reset s1) pos (Some lnprob) total_orbits thin g1
    = (run, s, rng_after r) /\
    raised run = None /\
    en_curr_pos (self_after r) = fst (fst (last (yielded run) (pos, lnprob, rstate))) /\
    en_chain_attr (self_after r) = Some (en_chain s) /\
    en_lnlikes (self_after r) = Some (en_lnprobability s) /\
    printed r = ["Burn in complete"%string] /\
    Ensemble_sampler (self_after r) = Ensemble_sampler self.
Proof.
  cbv zeta. unfold Ensemble_run_sampler.
  destruct (en_sample (Ensemble_sampler self) (en_curr_pos self) None burn_steps thin g)
    as [[burn s1] g1] eqn:Hb.
  destruct (raised burn) eqn:Hrb; [discriminate|].
  rewrite loop_vars_last.
  destruct (last (map Some (yielded burn)) None) as [[[pos lnprob] rstate]|] eqn:Hl;
    [|discriminate].
  destruct (en_sample (en_reset s1) pos (Some lnprob) total_orbits thin g1)
    as [[run s2] g2] eqn:Hrun.
  destruct (raised run) eqn:Hrr; [discriminate|].
  rewrite loop_vars_last.
  destruct (last (yielded run) (pos, lnprob, rstate)) as [[pos' lp'] ll'] eqn:Hlast.
  cbn [returned self_after printed rng_after en_curr_pos en_chain_attr en_lnlikes].
  intros H. injection H as <-.
  exists burn, s1, g1, pos, lnprob, rstate, run.
  rewrite Hlast. repeat split; assumption || reflexivity.
Qed.

End McmcFacts.

(** ** More of the order of binary64 *)

Lemma SFltb_below x m y :
  SFltb x m = true -> SFltb y m = false -> y <> S754_nan -> SFltb x y = true.
Proof.
  unfold SFltb.
  destruct x as [sx| sx| |sx mx ex], m as [sm|sm| |sm mm em], y as [sy|sy| |sy my ey];
    simpl; try discriminate; try reflexivity; try congruence;
    try (destruct sx; simpl; try discriminate; try reflexivity);
    try (destruct sm; simpl; try discriminate; try reflexivity);
    try (destruct sy; simpl; try discriminate; try reflexivity).
  all: fold (Pos.compare mx mm); fold (Pos.compare my mm); fold (Pos.compare mx my).
  all: destruct (Z.compare_spec ex em), (Z.compare_spec ey em), (Z.compare_spec ex ey);
    try discriminate; try reflexivity; try lia; subst.
  all: destruct (Pos.compare_spec mx mm), (Pos.compare_spec my mm), (Pos.compare_spec mx my);
    simpl; try discriminate; try reflexivity; try lia.
Qed.

Lemma binary64_leb_nan (m x : float) : is_nan x = true -> PrimFloat.leb m x = false.
Proof.
  intros Hx. apply is_nan_spec in Hx. rewrite leb_spec, Hx. unfold SFleb.
  destruct (Prim2SF m); reflexivity.
Qed.

Lemma binary64_ltb_below (x m y : float) :
  PrimFloat.ltb x m = true -> PrimFloat.ltb y m = false -> is_nan y = false ->
  PrimFloat.ltb x y = true.
Proof.
  rewrite !ltb_spec. intros H1 H2 H3. apply (SFltb_below _ _ H1 H2).
  intros E. apply is_nan_spec in E. congruence.
Qed.

(** ** Further runs in the concrete setting *)

Section MoreRuns.
Import Binary64 Setting MoreSetting.
Open Scope float_scope.

Lemma OFTI_init_columns_witness :
  (at_ (sep_observed radec_sampler) 0, at_ (pa_observed radec_sampler) 0)
  = to_seppa 100 45.5 /\
  (at_ (sep_err radec_sampler) 0, at_ (pa_err radec_sampler) 0) = to_seppa 1 1.
Proof.
  destruct (@OFTI_init_columns float binary64 setting radec_system by_name
              radec_sampler 0%nat obs_100)
    as (_ & _ & Hin & _).
  - reflexivity.
  - constructor; [simpl; tauto | constructor].
  - reflexivity.
  - apply Hin. left. reflexivity.
Defined.

Lemma run_loop_iteration_witness :
  run_loop 1 (sampler_at 45.5 0) 2 2 0 (np_empty 2 8) tape_half
  = Some (Ok (firstn 0 (np_empty 2 8) ++ full_out), full_tape').
Proof.
  assert (H1 : (0 < 2)%nat) by lia.
  assert (H2 : length (np_empty (F := float) 2 8) = 2%nat) by reflexivity.
  assert (H3 : prepare_samples (sampler_at 45.5 0) 2 tape_half = (Ok full_batch, full_tape))
    by (vm_compute; reflexivity).
  assert (H4 : reject (sampler_at 45.5 0) full_batch full_tape = (Ok full_out, full_tape'))
    by (vm_compute; reflexivity).
  pose proof (@run_loop_iteration float binary64 setting 0 (sampler_at 45.5 0) 2 2 0
                (np_empty 2 8) tape_half full_batch full_tape full_out full_tape'
                H1 H2 H3 H4) as H.
  cbv zeta in H. destruct H as (_ & _ & H). apply H. reflexivity.
Defined.

Lemma run_sampler_no_candidates_witness :
  exists g1, run_sampler 1 (sampler_at 45.5 0) 1 0 tape_half = Some (Error AxisError, g1).
Proof.
  destruct (@run_sampler_no_candidates float binary64 setting
              (system_of (priors8 45.5 0) one_epoch) by_name (sampler_at 45.5 0)
              1%nat tape_half)
    as (_ & e & g1 & Hrun & He).
  - reflexivity.
  - lia.
  - exists g1. rewrite (Hrun 0%nat).
    destruct He as (k & Hk & He); [reflexivity | discriminate |].
    vm_compute in Hk. injection Hk as <-. rewrite He. reflexivity.
Defined.

Lemma empty_table_raises_at_argmin_witness :
  prepare_samples (sampler_of (priors8 45.5 0) []) 2 tape_half
  = (Error ArgminEmpty, snd (draw_rows (priors8 45.5 0) 2 tape_half)).
Proof.
  assert (H1 : OFTI_init (system_of (priors8 45.5 0) []) by_name
               = Ok (sampler_of (priors8 45.5 0) [])) by reflexivity.
  assert (H2 : data_table (system_of (priors8 45.5 0) []) = []) by reflexivity.
  pose proof (@empty_table_raises_at_argmin float binary64 setting _ _ _ 2%nat tape_half
                H1 H2) as H.
  cbv zeta in H. apply H.
Defined.

Lemma prepare_samples_succeeds_iff_witness : shape2 8 2 full_batch.
Proof.
  destruct (@prepare_samples_succeeds_iff float binary64 setting
              (system_of (priors8 45.5 0) one_epoch) by_name (sampler_at 45.5 0)
              2%nat tape_half)
    as [_ H].
  - reflexivity.
  - apply (H full_batch full_tape). vm_compute. reflexivity.
Defined.

(** A negative uncertainty at the scale-and-rotate epoch: the call raises
    at the draw of the separation offset, after the draws of the rows and
    of the mean anomalies. *)
Lemma negative_uncertainty_raises :
  prepare_samples (sampler_of (priors8 45.5 0) negative_err) 2 tape_half
  = (Error ScaleNegative,
     snd (random_uniform 2 (snd (draw_rows (priors8 45.5 0) 2 tape_half)))).
Proof. vm_compute. reflexivity. Qed.

Lemma run_sampler_returns_accepted_witness :
  exists k its,
    iterations k (sampler_at 45.5 0) 2 tape_half = Some (its, full_tape') /\
    full_out = concat (map snd its) /\
    length full_out = 2%nat.
Proof.
  destruct (@run_sampler_returns_accepted float binary64 setting
              (system_of (priors8 45.5 0) one_epoch) by_name (sampler_at 45.5 0)
              1%nat 2%nat 2%nat tape_half full_out full_tape')
    as (k & its & _ & Hits & Hout & Hlen & _).
  - reflexivity.
  - vm_compute. reflexivity.
  - exists k, its. split; [exact Hits|]. split; [exact Hout | exact Hlen].
Defined.

Lemma run_sampler_never_gives_up_witness :
  run_sampler 5 sampler_exact_pa 1 2 [] = None.
Proof.
  apply (@run_sampler_never_gives_up float binary64 setting (fun g => g = [])).
  - lia.
  - reflexivity.
  - intros g0 ->. eexists _, _, _. split; [vm_compute; reflexivity|].
    split; [vm_compute; reflexivity | reflexivity].
Defined.

Lemma OFTI_ignores_likelihood_witness :
  lnlike (sampler_with true) <> lnlike (sampler_with false) /\
  run_sampler 1 (sampler_with false) 2 2 tape_half
  = run_sampler 1 (sampler_with true) 2 2 tape_half.
Proof.
  split; [discriminate|].
  destruct (@OFTI_ignores_likelihood float binary64 setting_two_likes system_two_likes
              (@LikeName float setting_two_likes "chi2_lnlike")
              (@LikeCallable float setting_two_likes false)
              (sampler_with true) (sampler_with false))
    as (_ & _ & _ & _ & H).
  - reflexivity.
  - reflexivity.
  - destruct (H false) as (_ & _ & Hrun). apply (Hrun 1%nat 2%nat 2%nat tape_half).
Defined.



Lemma anchor_idx_first_nan_witness :
  anchor_idx (sampler_of (priors8 45.5 0) (three_epochs 2 nan 1)) = Ok 1%nat.
Proof.
  apply (@anchor_idx_first_nan float binary64 setting).
  - exact binary64_leb_nan.
  - simpl. lia.
  - reflexivity.
  - intros j Hj. assert (j = 0%nat) as -> by lia. reflexivity.
Defined.

Lemma anchor_idx_first_minimum_witness :
  fltb (at_ (sep_err (sampler_of (priors8 45.5 0) (three_epochs 2 1 1))) 1)
       (at_ (sep_err (sampler_of (priors8 45.5 0) (three_epochs 2 1 1))) 0) = true.
Proof.
  destruct (@anchor_idx_first_minimum float binary64 setting binary64_order
              binary64_ltb_below (sampler_of (priors8 45.5 0) (three_epochs 2 1 1)) 1%nat)
    as (_ & _ & H).
  - reflexivity.
  - intros [|[|[|j]]] Hj; try reflexivity. simpl in Hj. lia.
  - apply H. lia.
Defined.

Lemma reject_accepts_nan_candidate_witness :
  exists out,
    reject (sampler_at 45.5 0) nan_batch tape_half
    = (Ok out, snd (random_uniform 1 tape_half)) /\
    In (column nan_batch 0) out.
Proof.
  assert (H1 : OFTI_init (system_of (priors8 45.5 0) one_epoch) by_name
               = Ok (sampler_at 45.5 0)) by reflexivity.
  assert (H2 : shape2 8 1 nan_batch) by (split; [reflexivity | repeat constructor]).
  assert (H3 : (0 < 1)%nat) by lia.
  assert (H4 : fadd (fconst 0) (fconst 0) = fconst (F := float) 0)
    by (vm_compute; reflexivity).
  assert (H5 : forall x, In x (chi2_terms (sampler_at 45.5 0) nan_batch 0) ->
                         fisnan x = true).
  { intros x Hx. vm_compute in Hx. destruct Hx as [<-|[<-|[]]]; reflexivity. }
  pose proof (@reject_accepts_nan_candidate float binary64 setting _ _ _ _ _ tape_half _
                H1 H2 H3 H4 H5) as H.
  cbv zeta in H. destruct H as (_ & out & Hrun & Hin).
  exists out. split; [exact Hrun|]. apply Hin. vm_compute. reflexivity.
Defined.

Lemma PT_run_sampler_unbound_pos_witness :
  PT_run_sampler pt_22 5 0 1 tape_half =
  {| returned := Fail (UnboundLocalError "pos"); self_after := pt_22;
     printed := []; rng_after := tape_half |}.
Proof.
  apply (@PT_run_sampler_unbound_pos float binary64 setting mcmc_setting pt_22 5%nat 0%nat
           1%nat tape_half {| yielded := []; raised := None |} 0%nat tape_half);
    reflexivity.
Defined.

Lemma Ensemble_run_sampler_unbound_pos_witness :
  Ensemble_run_sampler en_2 5 0 1 tape_half =
  {| returned := Fail (UnboundLocalError "pos"); self_after := en_2;
     printed := []; rng_after := tape_half |}.
Proof.
  apply (@Ensemble_run_sampler_unbound_pos float binary64 setting mcmc_setting en_2 5%nat
           0%nat 1%nat tape_half {| yielded := []; raised := None |} 0%nat tape_half);
    reflexivity.
Defined.

Lemma PT_run_sampler_returns_witness :
  printed (PT_run_sampler pt_22 2 1 1 tape_half) = ["Burn in complete"%string] /\
  pt_chain_attr (self_after (PT_run_sampler pt_22 2 1 1 tape_half)) = Some 2%nat /\
  PT_sampler (self_after (PT_run_sampler pt_22 2 1 1 tape_half)) = PT_sampler pt_22.
Proof.
  assert (H0 : returned (PT_run_sampler pt_22 2 1 1 tape_half) = Done 2%nat)
    by reflexivity.
  pose proof (@PT_run_sampler_returns float binary64 setting mcmc_setting pt_22 2%nat
                1%nat 1%nat tape_half 2%nat H0) as H.
  cbv zeta in H.
  destruct H as (burn & s1 & g1 & pos & lnprob & lnlike & run & _ & _ & _ & _ & _ & _
                 & Hc & _ & Hp & Hs).
  split; [exact Hp|]. split; [exact Hc | exact Hs].
Defined.

Lemma Ensemble_run_sampler_returns_witness :
  printed (Ensemble_run_sampler en_2 2 1 1 tape_half) = ["Burn in complete"%string] /\
  en_chain_attr (self_after (Ensemble_run_sampler en_2 2 1 1 tape_half)) = Some 2%nat /\
  Ensemble_sampler (self_after (Ensemble_run_sampler en_2 2 1 1 tape_half))
  = Ensemble_sampler en_2.
Proof.
  assert (H0 : returned (Ensemble_run_sampler en_2 2 1 1 tape_half) = Done 2%nat)
    by reflexivity.
  pose proof (@Ensemble_run_sampler_returns float binary64 setting mcmc_setting en_2 2%nat
                1%nat 1%nat tape_half 2%nat H0) as H.
  cbv zeta in H.
  destruct H as (burn & s1 & g1 & pos & lnprob & rstate & run & _ & _ & _ & _ & _ & _
                 & Hc & _ & Hp & Hs).
  split; [exact Hp|]. split; [exact Hc | exact Hs].
Defined.

End MoreRuns.
